(** * Coincidence counters and diversity selection (ECS_MeDiv)

    A shallow embedding of [ECS_MeDiv/ECS_MeDiv.py] and [indices/base.py]:
    the coincidence-counting engine, its threshold and weight
    configuration, the index dictionary built from the counters, the seed
    selectors, the tie-breaker and the greedy selection loop.

    Integers are [Z].  Floating-point quantities are kept behind an
    interface ([float_ops]); exact rational arithmetic ([Q]) is one
    instance of it and is the one used to run the code on examples. *)

From Stdlib Require Import ZArith QArith Qabs Lia.
From Stdlib Require Import Ascii String Decimal DecimalString DecimalPos.
From stdpp Require Import base option list strings.

Open Scope Z_scope.

(** ** Python exceptions and results *)

Module Py.

Inductive exn : Type :=
  | TypeError
  | ValueError
  | ZeroDivisionError
  | KeyError
  | IndexError
  | AttributeError.

Inductive result (A : Type) : Type :=
  | Ok (x : A)
  | Raise (e : exn).

Arguments Ok {A} x.
Arguments Raise {A} e.

Definition result_bind {A B} (f : A → result B) (m : result A) : result B :=
  match m with
  | Ok x => f x
  | Raise e => Raise e
  end.

#[global] Instance result_mret : MRet result := λ A x, Ok x.
#[global] Instance result_mbind : MBind result := λ A B f m, result_bind f m.

Definition returns {A} (m : result A) : Prop := ∃ x, m = Ok x.

(** [for x in xs: st = body(st, x)], stopping at the first exception. *)
Fixpoint for_each {A S} (body : S → A → result S) (xs : list A) (st : S)
  : result S :=
  match xs with
  | [] => Ok st
  | x :: xs' => st' ← body st x; for_each body xs' st'
  end.

(** The argument given for [c_threshold]: [None], a string, an [int] or a
    [float]. *)
Inductive threshold_arg : Type :=
  | CNone
  | CStr (s : string)
  | CInt (z : Z)
  | CFloat (q : Q).

(** Python truthiness of such a value ([not c_threshold] is its negation). *)
Definition truthy (c : threshold_arg) : bool :=
  match c with
  | CNone => false
  | CStr s => negb (String.eqb s "")
  | CInt z => negb (z =? 0)
  | CFloat q => negb (Qeq_bool q 0)
  end.

Definition Qltb (x y : Q) : bool := negb (Qle_bool y x).

(** [ceil(n / 2)] for an integer [n]. *)
Definition ceil_half (n : Z) : Z := (n + 1) / 2.

End Py.

Export Py.

(** ** Floating-point interface

    The operations the program performs on floats.  [fdiv] is [/]: whether
    a zero divisor raises [ZeroDivisionError] (Python numbers) or yields a
    [nan]/[inf] (numpy scalars) is left to the instance.  [pow_neg_float k e]
    is [k ** -float(e)], [math_log] is [math.log], [pow_half x] is
    [x ** 0.5], [lit q] is the float literal written [q] in the source. *)

Record float_ops (F : Type) : Type := {
  of_int : Z → F;
  lit : Q → F;
  fadd : F → F → F;
  fsub : F → F → F;
  fmul : F → F → F;
  fdiv : F → F → result F;
  pow_neg_float : Z → Z → result F;
  math_log : F → result F;
  pow_half : F → F;
  np_sqrt : F → F;
  np_arcsin : F → F;
  np_pi : F;
  flt : F → F → bool;
  feq : F → F → bool
}.

Arguments of_int {F} _ _.
Arguments lit {F} _ _.
Arguments fadd {F} _ _ _.
Arguments fsub {F} _ _ _.
Arguments fmul {F} _ _ _.
Arguments fdiv {F} _ _ _.
Arguments pow_neg_float {F} _ _ _.
Arguments math_log {F} _ _.
Arguments pow_half {F} _ _.
Arguments np_sqrt {F} _ _.
Arguments np_arcsin {F} _ _.
Arguments np_pi {F} _.
Arguments flt {F} _ _ _.
Arguments feq {F} _ _ _.

(** ** The counter engine of [ECS_MeDiv.py] *)

Module ECS_MeDiv.

(** A resolved threshold is an [int] or a [float]. *)
Inductive num : Type :=
  | NInt (z : Z)
  | NFloat (q : Q).

Definition num_val (c : num) : Q :=
  match c with
  | NInt z => inject_Z z
  | NFloat q => q
  end.

(** [np.sum(data_sets, axis=0)]: the element-wise sum of the rows. *)
Definition add_rows (r1 r2 : list Z) : list Z := zip_with Z.add r1 r2.

Definition np_sum_axis0 (data_sets : list (list Z)) : result (list Z) :=
  match data_sets with
  | [] => Raise IndexError
  | r :: rs =>
      if forallb (λ r', Nat.eqb (length r') (length r)) rs
      then Ok (foldl add_rows r rs)
      else Raise ValueError
  end.

(** [total_data[-1]] and [total_data[:-1]]. *)
Definition split_last (total_data : list Z) : result (list Z * Z) :=
  match total_data with
  | [] => Raise IndexError
  | x :: xs => Ok (removelast (x :: xs), List.last xs x)
  end.

(** Lines 51-64: the four consecutive [if] statements that rebind
    [c_threshold]. *)
Definition assign_c_threshold (n_fingerprints : Z) (c_threshold : threshold_arg)
  : result num :=
  let c1 :=
    if negb (truthy c_threshold)
       || (match c_threshold with CStr s => String.eqb s "min" | _ => false end)
    then CInt (n_fingerprints mod 2)
    else c_threshold in
  c2 ← match c1 with
       | CStr s =>
           if negb (String.eqb s "dissimilar") then Raise TypeError
           else Ok (NInt (ceil_half n_fingerprints))
       | CInt z => Ok (NInt z)
       | CFloat q => Ok (NFloat q)
       | CNone => Ok (NInt (n_fingerprints mod 2))
       end;
  c3 ← match c2 with
       | NInt z => if z >=? n_fingerprints then Raise ValueError else Ok c2
       | NFloat _ => Ok c2
       end;
  Ok (match c3 with
      | NFloat q =>
          if Qltb 0 q && Qltb q 1 then NFloat (q * inject_Z n_fingerprints)
          else c3
      | NInt _ => c3
      end).

Section Engine.

Context {W : Type}.
Variable w_zero : W.
Variable w_add : W → W → W.
Variables f_s f_d : Z → result W.

(** The loop variables [a, w_a, d, w_d, total_dis, total_w_dis]. *)
Record tally : Type := {
  acc_a : Z;
  acc_w_a : W;
  acc_d : Z;
  acc_w_d : W;
  acc_dis : Z;
  acc_w_dis : W
}.

Definition tally_zero : tally :=
  {| acc_a := 0; acc_w_a := w_zero; acc_d := 0; acc_w_d := w_zero;
     acc_dis := 0; acc_w_dis := w_zero |}.

(** Body of [for s in c_total] (lines 102-110). *)
Definition count_column (n_fingerprints : Z) (c_threshold : Q)
    (t : tally) (s : Z) : result tally :=
  if Qltb c_threshold (inject_Z (2 * s - n_fingerprints)) then
    w ← f_s (2 * s - n_fingerprints);
    Ok {| acc_a := acc_a t + 1; acc_w_a := w_add (acc_w_a t) w;
          acc_d := acc_d t; acc_w_d := acc_w_d t;
          acc_dis := acc_dis t; acc_w_dis := acc_w_dis t |}
  else if Qltb c_threshold (inject_Z (n_fingerprints - 2 * s)) then
    w ← f_s (Z.abs (2 * s - n_fingerprints));
    Ok {| acc_a := acc_a t; acc_w_a := acc_w_a t;
          acc_d := acc_d t + 1; acc_w_d := w_add (acc_w_d t) w;
          acc_dis := acc_dis t; acc_w_dis := acc_w_dis t |}
  else
    w ← f_d (Z.abs (2 * s - n_fingerprints));
    Ok {| acc_a := acc_a t; acc_w_a := acc_w_a t;
          acc_d := acc_d t; acc_w_d := acc_w_d t;
          acc_dis := acc_dis t + 1; acc_w_dis := w_add (acc_w_dis t) w |}.

(** The dictionary returned by [calculate_counters]. *)
Record counters : Type := {
  a : Z;
  w_a : W;
  d : Z;
  w_d : W;
  total_sim : Z;
  total_w_sim : W;
  total_dis : Z;
  total_w_dis : W;
  p : Z;
  w_p : W
}.

(** Lines 111-119. *)
Definition make_counters (t : tally) : counters :=
  let total_sim := acc_a t + acc_d t in
  let total_w_sim := w_add (acc_w_a t) (acc_w_d t) in
  {| a := acc_a t; w_a := acc_w_a t; d := acc_d t; w_d := acc_w_d t;
     total_sim := total_sim; total_w_sim := total_w_sim;
     total_dis := acc_dis t; total_w_dis := acc_w_dis t;
     p := total_sim + acc_dis t;
     w_p := w_add total_w_sim (acc_w_dis t) |}.

(** Lines 94-121 for a resolved threshold and given weight functions. *)
Definition count (n_fingerprints : Z) (c_threshold : Q) (c_total : list Z)
  : result counters :=
  t ← for_each (count_column n_fingerprints c_threshold) c_total tally_zero;
  Ok (make_counters t).

End Engine.

Arguments tally : clear implicits.
Arguments counters : clear implicits.

(** *** Strings: ["power" in w_factor], [w_factor.split("_")[-1]], [int(...)] *)

Fixpoint contains (sub s : string) : bool :=
  String.prefix sub s
  || match s with
     | EmptyString => false
     | String _ s' => contains sub s'
     end.

Fixpoint last_field_from (acc s : string) : string :=
  match s with
  | EmptyString => acc
  | String c s' =>
      if Ascii.eqb c "_"%char then last_field_from "" s'
      else last_field_from (acc +:+ String c "") s'
  end.

(** [s.split("_")[-1]]. *)
Definition last_field (s : string) : string := last_field_from "" s.

Definition is_space (c : ascii) : bool :=
  let k := nat_of_ascii c in
  (Nat.eqb k 32 || (Nat.leb 9 k && Nat.leb k 13))%bool.

Definition is_digit (c : ascii) : bool :=
  let k := nat_of_ascii c in (Nat.leb 48 k && Nat.leb k 57)%bool.

Fixpoint drop_spaces (l : list ascii) : list ascii :=
  match l with
  | c :: l' => if is_space c then drop_spaces l' else l
  | [] => []
  end.

Definition strip (l : list ascii) : list ascii :=
  rev (drop_spaces (rev (drop_spaces l))).

Fixpoint digits_value (acc : Z) (l : list ascii) : result Z :=
  match l with
  | [] => Ok acc
  | c :: l' =>
      if is_digit c
      then digits_value (10 * acc + (Z.of_nat (nat_of_ascii c) - 48)) l'
      else Raise ValueError
  end.

Definition unsigned_value (l : list ascii) : result Z :=
  match l with
  | [] => Raise ValueError
  | _ => digits_value 0 l
  end.

(** [int(s)] on a string without underscores: surrounding white space, an
    optional sign, then one or more decimal digits; anything else raises
    [ValueError]. *)
Definition py_int (s : string) : result Z :=
  match strip (list_ascii_of_string s) with
  | c :: l =>
      if Ascii.eqb c "-"%char then v ← unsigned_value l; Ok (- v)
      else if Ascii.eqb c "+"%char then unsigned_value l
      else unsigned_value (c :: l)
  | [] => Raise ValueError
  end.

(** *** Weight functions (lines 66-92) *)

Section Weights.

Context {F : Type} (ops : float_ops F).
Variable n_fingerprints : Z.

Definition power_f_s (power : Z) (dk : Z) : result F :=
  pow_neg_float ops power (n_fingerprints - dk).

Definition power_f_d (power : Z) (dk : Z) : result F :=
  pow_neg_float ops power (dk - n_fingerprints mod 2).

Definition fraction_f_s (dk : Z) : result F :=
  fdiv ops (of_int ops dk) (of_int ops n_fingerprints).

Definition fraction_f_d (dk : Z) : result F :=
  q ← fdiv ops (of_int ops (dk - n_fingerprints mod 2))
               (of_int ops n_fingerprints);
  Ok (fsub ops (of_int ops 1) q).

Definition one_f (dk : Z) : result F := Ok (of_int ops 1).

(** [w_factor] is [None] or a string; both [None] and [""] are falsy. *)
Definition set_w_factor (w_factor : option string)
  : result ((Z → result F) * (Z → result F)) :=
  match w_factor with
  | Some w =>
      if negb (String.eqb w "") then
        if contains "power" w then
          power ← py_int (last_field w);
          Ok (power_f_s power, power_f_d power)
        else if String.eqb w "fraction" then
          Ok (fraction_f_s, fraction_f_d)
        else Ok (one_f, one_f)
      else Ok (one_f, one_f)
  | None => Ok (one_f, one_f)
  end.

End Weights.

(** *** [calculate_counters] and [gen_sim_dict] *)

Section Indices.

Context {F : Type} (ops : float_ops F).

Definition calculate_counters (data_sets : list (list Z))
    (c_threshold : threshold_arg) (w_factor : option string)
  : result (counters F) :=
  total_data ← np_sum_axis0 data_sets;
  '(c_total, n_fingerprints) ← split_last total_data;
  c ← assign_c_threshold n_fingerprints c_threshold;
  '(f_s, f_d) ← set_w_factor ops n_fingerprints w_factor;
  count (of_int ops 0) (fadd ops) f_s f_d n_fingerprints (num_val c) c_total.


(** Python dictionaries with string keys, in insertion order. *)
Definition dict (V : Type) : Type := list (string * V).

Fixpoint dict_get {V} (k : string) (m : dict V) : result V :=
  match m with
  | [] => Raise KeyError
  | (k', v) :: m' => if String.eqb k k' then Ok v else dict_get k m'
  end.

Local Notation "x +. y" := (fadd ops x y) (at level 50, left associativity).
Local Notation "x -. y" := (fsub ops x y) (at level 50, left associativity).
Local Notation "x *. y" := (fmul ops x y) (at level 40, left associativity).
Local Notation "x /. y" := (fdiv ops x y) (at level 40, left associativity).
Local Abbreviation I := (of_int ops).
Local Abbreviation log := (math_log ops).

Implicit Type c : counters F.

(** Weighted indices (lines 132-163). *)
Definition ac_w c : result F :=
  k ← I 2 /. np_pi ops;
  q ← total_w_sim c /. w_p c;
  Ok (k *. np_arcsin ops (np_sqrt ops q)).
Definition bub_w c : result F :=
  (pow_half ops (w_a c *. w_d c) +. w_a c)
  /. (pow_half ops (w_a c *. w_d c) +. w_a c +. total_w_dis c).
Definition ct1_w c : result F :=
  x ← log (I 1 +. w_a c +. w_d c); y ← log (I 1 +. w_p c); x /. y.
Definition ct2_w c : result F :=
  x1 ← log (I 1 +. w_p c); x2 ← log (I 1 +. total_w_dis c);
  y ← log (I 1 +. w_p c); (x1 -. x2) /. y.
Definition ct3_w c : result F :=
  x ← log (I 1 +. w_a c); y ← log (I 1 +. w_p c); x /. y.
Definition ct4_w c : result F :=
  x ← log (I 1 +. w_a c); y ← log (I 1 +. w_a c +. total_w_dis c); x /. y.
Definition fai_w c : result F :=
  (w_a c +. lit ops (1 # 2) *. w_d c) /. w_p c.
Definition gle_w c : result F :=
  (I 2 *. w_a c) /. (I 2 *. w_a c +. total_w_dis c).
Definition ja_w c : result F :=
  (I 3 *. w_a c) /. (I 3 *. w_a c +. total_w_dis c).
Definition ja0_w c : result F :=
  (I 3 *. total_w_sim c) /. (I 3 *. total_w_sim c +. total_w_dis c).
Definition jt_w c : result F := w_a c /. (w_a c +. total_w_dis c).
Definition rt_w c : result F := total_w_sim c /. (w_p c +. total_w_dis c).
Definition rr_w c : result F := w_a c /. w_p c.
Definition sm_w c : result F := total_w_sim c /. w_p c.
Definition ss1_w c : result F := w_a c /. (w_a c +. I 2 *. total_w_dis c).
Definition ss2_w c : result F :=
  (I 2 *. total_w_sim c) /. (w_p c +. total_w_sim c).

(** Non-weighted indices (lines 167-198). *)
Definition ac_nw c : result F :=
  k ← I 2 /. np_pi ops;
  q ← total_w_sim c /. I (p c);
  Ok (k *. np_arcsin ops (np_sqrt ops q)).
Definition bub_nw c : result F :=
  (pow_half ops (w_a c *. w_d c) +. w_a c)
  /. (pow_half ops (I (a c * d c)) +. I (a c) +. I (total_dis c)).
Definition ct1_nw c : result F :=
  x ← log (I 1 +. w_a c +. w_d c); y ← log (I (1 + p c)); x /. y.
Definition ct2_nw c : result F :=
  x1 ← log (I 1 +. w_p c); x2 ← log (I 1 +. total_w_dis c);
  y ← log (I (1 + p c)); (x1 -. x2) /. y.
Definition ct3_nw c : result F :=
  x ← log (I 1 +. w_a c); y ← log (I (1 + p c)); x /. y.
Definition ct4_nw c : result F :=
  x ← log (I 1 +. w_a c); y ← log (I (1 + a c + total_dis c)); x /. y.
Definition fai_nw c : result F :=
  (w_a c +. lit ops (1 # 2) *. w_d c) /. I (p c).
Definition gle_nw c : result F :=
  (I 2 *. w_a c) /. I (2 * a c + total_dis c).
Definition ja_nw c : result F :=
  (I 3 *. w_a c) /. I (3 * a c + total_dis c).
Definition ja0_nw c : result F :=
  (I 3 *. total_w_sim c) /. I (3 * total_sim c + total_dis c).
Definition jt_nw c : result F := w_a c /. I (a c + total_dis c).
Definition rt_nw c : result F := total_w_sim c /. I (p c + total_dis c).
Definition rr_nw c : result F := w_a c /. I (p c).
Definition sm_nw c : result F := total_w_sim c /. I (p c).
Definition ss1_nw c : result F := w_a c /. I (a c + 2 * total_dis c).
Definition ss2_nw c : result F :=
  (I 2 *. total_w_sim c) /. I (p c + total_sim c).

(** The table of all indices, evaluated in the order of the source. *)
Definition index_table c : result (dict (dict F)) :=
  v1 ← ac_w c; v2 ← bub_w c; v3 ← ct1_w c; v4 ← ct2_w c; v5 ← ct3_w c;
  v6 ← ct4_w c; v7 ← fai_w c; v8 ← gle_w c; v9 ← ja_w c; v10 ← ja0_w c;
  v11 ← jt_w c; v12 ← rt_w c; v13 ← rr_w c; v14 ← sm_w c; v15 ← ss1_w c;
  v16 ← ss2_w c;
  u1 ← ac_nw c; u2 ← bub_nw c; u3 ← ct1_nw c; u4 ← ct2_nw c; u5 ← ct3_nw c;
  u6 ← ct4_nw c; u7 ← fai_nw c; u8 ← gle_nw c; u9 ← ja_nw c; u10 ← ja0_nw c;
  u11 ← jt_nw c; u12 ← rt_nw c; u13 ← rr_nw c; u14 ← sm_nw c; u15 ← ss1_nw c;
  u16 ← ss2_nw c;
  Ok [("nw", [("AC", u1); ("BUB", u2); ("CT1", u3); ("CT2", u4);
              ("CT3", u5); ("CT4", u6); ("Fai", u7); ("Gle", u8);
              ("Ja0", u10); ("Ja", u9); ("JT", u11); ("RT", u12);
              ("RR", u13); ("SM", u14); ("SS1", u15); ("SS2", u16)]);
      ("w", [("AC", v1); ("BUB", v2); ("CT1", v3); ("CT2", v4);
             ("CT3", v5); ("CT4", v6); ("Fai", v7); ("Gle", v8);
             ("Ja0", v10); ("Ja", v9); ("JT", v11); ("RT", v12);
             ("RR", v13); ("SM", v14); ("SS1", v15); ("SS2", v16)])].

(** Lines 123-233.  The [w_factor] parameter is accepted and not used: the
    call on line 124 passes the literal ["fraction"]. *)
Definition gen_sim_dict (data_sets : list (list Z))
    (c_threshold : threshold_arg) (w_factor : option string)
  : result (dict (dict F)) :=
  counters ← calculate_counters data_sets c_threshold (Some "fraction");
  index_table counters.

(** [gen_sim_dict(data_sets, c_threshold)[weight][n_ary]]. *)
Definition sim_index (data_sets : list (list Z)) (c_threshold : threshold_arg)
    (weight n_ary : string) : result F :=
  Indices ← gen_sim_dict data_sets c_threshold (Some "fraction");
  by_weight ← dict_get weight Indices;
  dict_get n_ary by_weight.

End Indices.

(** *** Seed selection, tie-breaker and greedy step (lines 235-316) *)

Section Selection.

Context {F : Type} (ops : float_ops F).

(** Rows of the fingerprint matrix; [total_data[i]] raises [IndexError]
    out of range. *)
Definition row (total_data : list (list Z)) (i : nat) : result (list Z) :=
  match total_data !! i with
  | Some r => Ok r
  | None => Raise IndexError
  end.

Definition sub_rows (r1 r2 : list Z) : list Z := zip_with Z.sub r1 r2.

(** [np.append(v, k)]. *)
Definition np_append (v : list Z) (k : Z) : list Z := v ++ [k].

(** The placeholder [len(total_data[0]) + 1]. *)
Definition placeholder (total_data : list (list Z)) : result nat :=
  r ← row total_data 0; Ok (length r + 1)%nat.

Definition enumerate {A} (l : list A) : list (nat * A) :=
  zip (seq 0 (length l)) l.

(** Loop body of [calculate_medoid]; the state is [(index, min_sim)]. *)
Definition medoid_body (total_data : list (list Z)) (total_sum : list Z)
    (n_ary weight : string) (st : nat * F) (ip : nat * list Z)
  : result (nat * F) :=
  let '(index, min_sim) := st in
  let '(i, pixel) := ip in
  let i_sum := sub_rows total_sum pixel in
  let data_sets := [np_append i_sum (Z.of_nat (length total_data) - 1)] in
  sim ← sim_index ops data_sets CNone weight n_ary;
  if flt ops sim min_sim then Ok (i, sim) else Ok (index, min_sim).

Definition calculate_medoid (total_data : list (list Z))
    (n_ary weight : string) : result nat :=
  index ← placeholder total_data;
  let min_sim := lit ops (308 # 100) in
  total_sum ← np_sum_axis0 total_data;
  st ← for_each (medoid_body total_data total_sum n_ary weight)
                (enumerate total_data) (index, min_sim);
  Ok (fst st).

(** Loop body of [calculate_outlier]; the state is [(index, max_sim)]. *)
Definition outlier_body (total_data : list (list Z)) (total_sum : list Z)
    (n_ary weight : string) (st : nat * F) (ip : nat * list Z)
  : result (nat * F) :=
  let '(index, max_sim) := st in
  let '(i, pixel) := ip in
  let i_sum := sub_rows total_sum pixel in
  let data_sets := [np_append i_sum (Z.of_nat (length total_data) - 1)] in
  sim ← sim_index ops data_sets CNone weight n_ary;
  if flt ops max_sim sim then Ok (i, sim) else Ok (index, max_sim).

Definition calculate_outlier (total_data : list (list Z))
    (n_ary weight : string) : result nat :=
  index ← placeholder total_data;
  let max_sim := lit ops (- (308 # 100)) in
  total_sum ← np_sum_axis0 total_data;
  st ← for_each (outlier_body total_data total_sum n_ary weight)
                (enumerate total_data) (index, max_sim);
  Ok (fst st).

(** Inner loop of [get_single_index]: [v += sim_index] over [selected_n]. *)
Definition pair_body (total_data : list (list Z)) (c_threshold : threshold_arg)
    (n_ary weight : string) (i : nat) (v : F) (j : nat) : result F :=
  rj ← row total_data j;
  ri ← row total_data i;
  let c_total := add_rows rj ri in
  sim ← sim_index ops [np_append c_total 2] c_threshold weight n_ary;
  Ok (fadd ops v sim).

(** [av_v] for candidate [i]: the sum divided by [len(selected_n) + 1]. *)
Definition av_v (total_data : list (list Z)) (selected_n : list nat)
    (c_threshold : threshold_arg) (n_ary weight : string) (i : nat)
  : result F :=
  v ← for_each (pair_body total_data c_threshold n_ary weight i)
               selected_n (of_int ops 0);
  fdiv ops v (of_int ops (Z.of_nat (length selected_n) + 1)).

Definition single_body (total_data : list (list Z)) (selected_n : list nat)
    (c_threshold : threshold_arg) (n_ary weight : string)
    (st : nat * F) (i : nat) : result (nat * F) :=
  let '(index, min_value) := st in
  av ← av_v total_data selected_n c_threshold n_ary weight i;
  if flt ops av min_value then Ok (i, av) else Ok (index, min_value).

(** Binary tie-breaker (lines 269-285). *)
Definition get_single_index (total_data : list (list Z)) (indices : list nat)
    (selected_n : list nat) (c_threshold : threshold_arg)
    (n_ary weight : string) : result nat :=
  index ← placeholder total_data;
  let min_value := lit ops (308 # 100) in
  st ← for_each (single_body total_data selected_n c_threshold n_ary weight)
                indices (index, min_value);
  Ok (fst st).

(** Loop body of [get_new_index_n]; the state is [(indices, min_value)]. *)
Definition new_index_body (total_data : list (list Z))
    (selected_condensed : list Z) (n_total : Z) (c_threshold : threshold_arg)
    (n_ary weight : string) (st : list nat * F) (i : nat)
  : result (list nat * F) :=
  let '(indices, min_value) := st in
  ri ← row total_data i;
  let c_total := add_rows selected_condensed ri in
  sim ← sim_index ops [np_append c_total n_total] c_threshold weight n_ary;
  if flt ops sim min_value then Ok ([i], sim)
  else if feq ops sim min_value then Ok (indices ++ [i], min_value)
  else Ok (indices, min_value).

(** Lines 287-316.  The tie-breaker is always called with
    [c_threshold=None] and [weight='nw']. *)
Definition get_new_index_n (total_data : list (list Z))
    (selected_condensed : list Z) (n : Z) (select_from_n selected_n : list nat)
    (c_threshold : threshold_arg) (n_ary weight : string) : result nat :=
  let n_total := n + 1 in
  let min_value := lit ops (308 # 100) in
  ph ← placeholder total_data;
  st ← for_each (new_index_body total_data selected_condensed n_total
                                c_threshold n_ary weight)
                select_from_n ([ph], min_value);
  match fst st with
  | [index] => Ok index
  | indices => get_single_index total_data indices selected_n CNone n_ary "nw"
  end.

(** *** The selection loop (lines 336-377)

    [total_data] is a numpy matrix and [selected_condensed = total_data[seed]]
    is a view of its row [seed]: the in-place [selected_condensed += ...]
    writes into the matrix.  The state therefore holds the matrix, and the
    running column sum is read back from row [seed]. *)

Record state : Type := {
  st_total_data : list (list Z);
  st_selected_n : list nat;
  st_n : Z
}.

(** [np.delete(total_indices, selected_n)] with
    [total_indices = np.array(range(fp_total))]. *)
Definition np_delete (fp_total : nat) (selected_n : list nat)
  : result (list nat) :=
  if forallb (λ j, Nat.ltb j fp_total) selected_n
  then Ok (filter (λ i, i ∉ selected_n) (seq 0 fp_total))
  else Raise IndexError.

(** Lines 354-360. *)
Definition start (total_data : list (list Z)) (seed : nat) : result state :=
  _ ← row total_data seed;
  Ok {| st_total_data := total_data; st_selected_n := [seed]; st_n := 1 |}.

(** One iteration of the [while] loop (lines 362-376). *)
Definition iteration (seed : nat) (c_threshold : threshold_arg)
    (n_ary : string) (st : state) : result state :=
  let total_data := st_total_data st in
  let selected_n := st_selected_n st in
  select_from_n ← np_delete (length total_data) selected_n;
  selected_condensed ← row total_data seed;
  new_index_n ← get_new_index_n total_data selected_condensed (st_n st)
                   select_from_n selected_n c_threshold n_ary "nw";
  r ← row total_data new_index_n;
  let selected_n' := selected_n ++ [new_index_n] in
  Ok {| st_total_data := <[seed := add_rows selected_condensed r]> total_data;
        st_selected_n := selected_n';
        st_n := Z.of_nat (length selected_n') |}.

(** [while len(selected_n) < target]: every iteration appends one index,
    so the loop body runs [target - len(selected_n)] times. *)
Fixpoint iterations (k : nat) (seed : nat) (c_threshold : threshold_arg)
    (n_ary : string) (st : state) : result state :=
  match k with
  | O => Ok st
  | S k' =>
      st' ← iteration seed c_threshold n_ary st;
      iterations k' seed c_threshold n_ary st'
  end.

Definition select_from (target : nat) (seed : nat)
    (c_threshold : threshold_arg) (n_ary : string)
    (total_data : list (list Z)) : result state :=
  st ← start total_data seed;
  iterations (target - length (st_selected_n st)) seed c_threshold n_ary st.

(** The script: [start = 'medoid'], [c_threshold = 'min'], ten selections. *)
Definition ECS_MeDiv (n_ary : string) (total_data : list (list Z))
  : result (list nat) :=
  seed ← calculate_medoid total_data n_ary "nw";
  st ← select_from 10 seed (CStr "min") n_ary total_data;
  Ok (st_selected_n st).

End Selection.

End ECS_MeDiv.

(** ** [indices/base.py]: the [BaseComparisons] class *)

Module Base.

(** The [fingerprints] argument: an [int] (a theoretical population of
    that many random fingerprints) or an array of arrays. *)
Inductive fingerprints_arg : Type :=
  | FInt (n : Z)
  | FArray (fps : list (list Z)).

(** The [n_fingerprints] property. *)
Definition n_fingerprints (fingerprints : fingerprints_arg) : Z :=
  match fingerprints with
  | FInt n => n
  | FArray fps => Z.of_nat (length fps)
  end.

(** Lines 138-152. *)
Definition assign_fingerprints (fingerprints : fingerprints_arg)
  : result fingerprints_arg :=
  match fingerprints with
  | FInt n =>
      if n <=? 0 then Raise ValueError else Ok fingerprints
  | FArray fps =>
      if (length fps <? 2)%nat then Raise ValueError
      else if negb (forallb (λ fp, Nat.eqb (length fp)
                                     (length (List.nth 0 fps []))) fps)
      then Raise ValueError
      else Ok fingerprints
  end.

(** Lines 172-182: three consecutive [if] statements that set the
    attribute [self.c_threshold]; [None] is an attribute never set. *)
Definition assign_c_threshold (n : Z) (c_threshold : threshold_arg)
  : result (option Z) :=
  let attr1 := if negb (truthy c_threshold) then Some (n mod 2) else None in
  attr2 ← match c_threshold with
          | CStr s =>
              if negb (String.eqb s "dissimilar") then Raise TypeError
              else Ok (Some (ceil_half n))
          | _ => Ok attr1
          end;
  match c_threshold with
  | CInt z => if z >=? n then Raise ValueError else Ok (Some z)
  | _ => Ok attr2
  end.

(** Reading [self.c_threshold]. *)
Definition read_c_threshold (attr : option Z) : result Z :=
  match attr with
  | Some c => Ok c
  | None => Raise AttributeError
  end.

(** Binomial coefficients; [int(binom(n, k))] is taken to be exact. *)
Fixpoint binom (n k : nat) : Z :=
  match n, k with
  | _, O => 1
  | O, S _ => 0
  | S n', S k' => binom n' k' + binom n' k
  end.

(** [range(n_fingerprints + 1)]. *)
Definition range_n1 (n : Z) : list Z :=
  map Z.of_nat (seq 0 (Z.to_nat (n + 1))).

(** [np.count_nonzero(c_total == i)]. *)
Definition count_nonzero_eq (c_total : list Z) (i : Z) : Z :=
  Z.of_nat (length (filter (λ s, s = i) c_total)).

(** Lines 186-193. *)
Definition set_matches (fingerprints : fingerprints_arg) : result (list Z) :=
  let n := n_fingerprints fingerprints in
  match fingerprints with
  | FInt _ =>
      Ok (map (λ k, binom (Z.to_nat n) (Z.to_nat k)) (range_n1 n))
  | FArray fps =>
      c_total ← ECS_MeDiv.np_sum_axis0 fps;
      Ok (map (count_nonzero_eq c_total) (range_n1 n))
  end.

(** Lines 203-204. *)
Definition set_d_vector (n : Z) : list Z :=
  map (λ k, Z.abs (2 * k - n)) (range_n1 n).

Section Counters.

Context {F : Type} (ops : float_ops F).

(** Lines 219-238: the weight functions.  The first test compares the
    whole string with ["power_n"]. *)
Definition weight_functions (n : Z) (w_factor : option string)
  : result ((Z → result F) * (Z → result F)) :=
  match w_factor with
  | Some w =>
      if String.eqb w "power_n" then
        power ← ECS_MeDiv.py_int (ECS_MeDiv.last_field w);
        Ok (ECS_MeDiv.power_f_s ops n power, ECS_MeDiv.power_f_d ops n power)
      else if String.eqb w "fraction" then
        Ok (ECS_MeDiv.fraction_f_s ops n, ECS_MeDiv.fraction_f_d ops n)
      else Ok (ECS_MeDiv.one_f ops, ECS_MeDiv.one_f ops)
  | None => Ok (ECS_MeDiv.one_f ops, ECS_MeDiv.one_f ops)
  end.

(** Lines 239-245: [weights[k]]. *)
Definition weight_at (f_s f_d : Z → result F) (attr : option Z) (dk : Z)
  : result F :=
  c ← read_c_threshold attr;
  if c <? dk then f_s dk else f_d dk.

Fixpoint map_result {A B} (f : A → result B) (l : list A)
  : result (list B) :=
  match l with
  | [] => Ok []
  | x :: l' => y ← f x; ys ← map_result f l'; Ok (y :: ys)
  end.

Definition set_w_factor (n : Z) (attr : option Z) (d_vector : list Z)
    (w_factor : option string) : result (list F) :=
  '(f_s, f_d) ← weight_functions n w_factor;
  map_result (weight_at f_s f_d attr) d_vector.

(** Line 249: [self.matches * self.weights]. *)
Definition set_weighted_matches (matches : list Z) (weights : list F)
  : list F :=
  zip_with (λ mk wk, fmul ops (of_int ops mk) wk) matches weights.

(** The four loops of lines 251-281 share this shape:
    [for k in range(n + 1): if cond(k): acc += values[k]]. *)
Definition sum_where {A} (add : A → A → A) (zero : A) (cond : Z → bool)
    (n : Z) (values : list A) : A :=
  foldl (λ acc kv, if cond (fst kv) then add acc (snd kv) else acc)
        zero (zip (range_n1 n) values).

Definition one_similar (n c k : Z) : bool := c <? 2 * k - n.
Definition zero_similar (n c k : Z) : bool := c <? n - 2 * k.

(** Lines 283-297: the entries kept in [dis_counters]. *)
Definition keep_dissimilar {A} (c : Z) (d_vector : list Z) (values : list A)
  : list A :=
  map snd (filter (λ dv, fst dv ≤ c) (zip d_vector values)).

(** [np.sum] of a one-dimensional array, added from left to right. *)
Definition np_sum_int (l : list Z) : Z := foldl Z.add 0 l.
Definition np_sum (l : list F) : F := foldl (fadd ops) (of_int ops 0) l.

(** The attributes of a constructed object. *)
Record comparisons : Type := {
  fingerprints : fingerprints_arg;
  c_threshold : Z;
  matches : list Z;
  d_vector : list Z;
  weights : list F;
  weighted_matches : list F;
  a : Z;
  d : Z;
  w_a : F;
  w_d : F;
  dis_counters : list Z;
  w_dis_counters : list F;
  total_sim : Z;
  total_w_sim : F;
  total_dis : Z;
  total_w_dis : F;
  p : Z;
  w_p : F
}.

(** [BaseComparisons.__init__] (lines 81-98). *)
Definition init (fingerprints : fingerprints_arg)
    (c_threshold : threshold_arg) (w_factor : option string)
  : result comparisons :=
  fps ← assign_fingerprints fingerprints;
  let n := n_fingerprints fps in
  attr ← assign_c_threshold n c_threshold;
  matches ← set_matches fps;
  let d_vector := set_d_vector n in
  weights ← set_w_factor n attr d_vector w_factor;
  let weighted_matches := set_weighted_matches matches weights in
  c ← read_c_threshold attr;
  let a := sum_where Z.add 0 (one_similar n c) n matches in
  let d := sum_where Z.add 0 (zero_similar n c) n matches in
  let w_a := sum_where (fadd ops) (of_int ops 0) (one_similar n c) n
                       weighted_matches in
  let w_d := sum_where (fadd ops) (of_int ops 0) (zero_similar n c) n
                       weighted_matches in
  let dis_counters := keep_dissimilar c d_vector matches in
  let w_dis_counters := keep_dissimilar c d_vector weighted_matches in
  let total_sim := a + d in
  let total_w_sim := fadd ops w_a w_d in
  let total_dis := np_sum_int dis_counters in
  let total_w_dis := np_sum w_dis_counters in
  Ok {| fingerprints := fps; c_threshold := c; matches := matches;
        d_vector := d_vector; weights := weights;
        weighted_matches := weighted_matches;
        a := a; d := d; w_a := w_a; w_d := w_d;
        dis_counters := dis_counters; w_dis_counters := w_dis_counters;
        total_sim := total_sim; total_w_sim := total_w_sim;
        total_dis := total_dis; total_w_dis := total_w_dis;
        p := total_sim + total_dis;
        w_p := fadd ops total_w_sim total_w_dis |}.

End Counters.

Arguments comparisons : clear implicits.

End Base.

(** ** Exact rational arithmetic as an instance of the float interface

    Sums, differences, products and quotients are exact.  A zero divisor
    raises [ZeroDivisionError], as for Python numbers.  [math.log], the
    square roots and [arcsin] have no rational values: they are replaced
    here by rational functions with the same zeros ([log 1 = 0],
    [sqrt 0 = 0], [arcsin 0 = 0]) and the same domain errors, and [pi] by
    [355/113], so that the whole index table can be evaluated; the entries
    AC, BUB and CT1-CT4 obtained that way are not the program's values,
    and the examples below only read the entries that are quotients of
    counters. *)

Module Exact.

Definition div (x y : Q) : result Q :=
  if Qeq_bool y 0 then Raise ZeroDivisionError else Ok (x / y)%Q.

(** [k ** -float(e)]: [0 ** -0.0] is [1.0], [0] to a negative power
    raises, [0] to a positive power is [0.0]. *)
Definition pow_neg (k e : Z) : result Q :=
  if k =? 0 then
    if e =? 0 then Ok 1%Q
    else if 0 <? e then Raise ZeroDivisionError
    else Ok 0%Q
  else Ok (Qpower (inject_Z k) (- e)).

Definition log_stand_in (x : Q) : result Q :=
  if Qle_bool x 0 then Raise ValueError else Ok (x - 1)%Q.

Definition Qops : float_ops Q := {|
  of_int := inject_Z;
  lit := λ q, q;
  fadd := Qplus;
  fsub := Qminus;
  fmul := Qmult;
  fdiv := div;
  pow_neg_float := pow_neg;
  math_log := log_stand_in;
  pow_half := λ x, x;
  np_sqrt := λ x, x;
  np_arcsin := λ x, x;
  np_pi := (355 # 113)%Q;
  flt := Qltb;
  feq := Qeq_bool
|}.

End Exact.

(** ** Vocabulary of the specification *)

Module Spec.

Import ECS_MeDiv.

Section ColumnRule.

Context {W : Type}.
Variable w_add : W → W → W.
Variables f_sim f_dis : Z → result W.
Variable n : Z.
Variable c_threshold : Q.

(** [signed = 2s - n]. *)
Definition signed (s : Z) : Z := 2 * s - n.

(** The three-way rule of the counter engine for one column sum [s]. *)
Inductive column_rule (t : tally W) (s : Z) : tally W → Prop :=
  | rule_one_similar w :
      (c_threshold < inject_Z (signed s))%Q →
      f_sim (Z.abs (signed s)) = Ok w →
      column_rule t s
        {| acc_a := acc_a t + 1; acc_w_a := w_add (acc_w_a t) w;
           acc_d := acc_d t; acc_w_d := acc_w_d t;
           acc_dis := acc_dis t; acc_w_dis := acc_w_dis t |}
  | rule_zero_similar w :
      ¬ (c_threshold < inject_Z (signed s))%Q →
      (c_threshold < inject_Z (n - 2 * s))%Q →
      f_sim (Z.abs (signed s)) = Ok w →
      column_rule t s
        {| acc_a := acc_a t; acc_w_a := acc_w_a t;
           acc_d := acc_d t + 1; acc_w_d := w_add (acc_w_d t) w;
           acc_dis := acc_dis t; acc_w_dis := acc_w_dis t |}
  | rule_dissimilar w :
      ¬ (c_threshold < inject_Z (signed s))%Q →
      ¬ (c_threshold < inject_Z (n - 2 * s))%Q →
      f_dis (Z.abs (signed s)) = Ok w →
      column_rule t s
        {| acc_a := acc_a t; acc_w_a := acc_w_a t;
           acc_d := acc_d t; acc_w_d := acc_w_d t;
           acc_dis := acc_dis t + 1; acc_w_dis := w_add (acc_w_dis t) w |}.

(** The rule applied to the columns from left to right. *)
Inductive columns_rule : tally W → list Z → tally W → Prop :=
  | columns_nil t : columns_rule t [] t
  | columns_cons t s t' cs t'' :
      column_rule t s t' → columns_rule t' cs t'' →
      columns_rule t (s :: cs) t''.

End ColumnRule.

(** The name [power_k] of the power scheme with base [k], [k] written in
    decimal. *)
Definition decimal (k : positive) : string :=
  NilEmpty.string_of_uint (Pos.to_uint k).

Definition power_name (k : positive) : string := "power_" +:+ decimal k.

Fixpoint all_digits (s : string) : bool :=
  match s with
  | EmptyString => true
  | String c s' => is_digit c && all_digits s'
  end.

(** The running-best scan shared by the seed selectors and the
    tie-breaker: keep the first element whose value beats the best so far. *)
Section Scan.

Context {A F : Type}.
Variable value : A → result F.
Variable better : F → F → bool.

Definition scan_body (st : nat * F) (ix : nat * A) : result (nat * F) :=
  let '(index, best) := st in
  let '(i, x) := ix in
  v ← value x;
  if better v best then Ok (i, v) else Ok (index, best).

End Scan.

(** The similarity value of the collection without the fingerprint
    [pixel]. *)
Definition leave_one_out {F : Type} (ops : float_ops F)
    (total_data : list (list Z)) (total_sum : list Z)
    (n_ary weight : string) (pixel : list Z) : result F :=
  sim_index ops
    [np_append (sub_rows total_sum pixel) (Z.of_nat (length total_data) - 1)]
    CNone weight n_ary.

(** The element-wise sum of the fingerprints, in the matrix as loaded,
    of a sequence of selected indices. *)
Definition fingerprint (collection : list (list Z)) (j : nat) : list Z :=
  default [] (collection !! j).

Definition selected_sum (collection : list (list Z)) (selected : list nat)
  : list Z :=
  match selected with
  | [] => []
  | s :: rest =>
      foldl (λ acc j, add_rows acc (fingerprint collection j))
            (fingerprint collection s) rest
  end.

(** [picks k st st']: [k] iterations of the selection loop lead from [st]
    to [st'], each of them appending an index that was not selected yet. *)
Inductive picks {F : Type} (ops : float_ops F) (seed : nat)
    (c_threshold : threshold_arg) (n_ary : string)
  : nat → state → state → Prop :=
  | picks_O st : picks ops seed c_threshold n_ary 0 st st
  | picks_S k st st' st'' new_index_n :
      picks ops seed c_threshold n_ary k st st' →
      iteration ops seed c_threshold n_ary st' = Ok st'' →
      st_selected_n st'' = st_selected_n st' ++ [new_index_n] →
      new_index_n ∉ st_selected_n st' →
      picks ops seed c_threshold n_ary (S k) st st''.

(** The state invariant of the loop over the collection as loaded:
    the selected sequence starts with the seed, has no duplicate and only
    indices of the collection; row [seed] of the matrix holds the sum of
    the selected fingerprints and every other row is unchanged. *)
Definition loop_invariant (collection : list (list Z)) (seed : nat)
    (st : state) : Prop :=
  (∃ rest, st_selected_n st = seed :: rest)
  ∧ NoDup (st_selected_n st)
  ∧ Forall (λ j, (j < length collection)%nat) (st_selected_n st)
  ∧ length (st_total_data st) = length collection
  ∧ (∀ i, i ≠ seed → st_total_data st !! i = collection !! i)
  ∧ st_total_data st !! seed
    = Some (selected_sum collection (st_selected_n st))
  ∧ st_n st = Z.of_nat (length (st_selected_n st)).

(** Inputs of [BaseComparisons] that the specification rejects. *)
Definition same_length (fps : list (list Z)) : Prop :=
  ∀ fp1 fp2, fp1 ∈ fps → fp2 ∈ fps → length fp1 = length fp2.

Definition threshold_too_large (n : Z) (c_threshold : threshold_arg) : Prop :=
  ∃ z, c_threshold = CInt z ∧ n ≤ z.

Definition invalid_fingerprints (fingerprints : Base.fingerprints_arg)
  : Prop :=
  match fingerprints with
  | Base.FInt n => n ≤ 0
  | Base.FArray fps => (length fps < 2)%nat ∨ ¬ same_length fps
  end.

Definition rejected (fingerprints : Base.fingerprints_arg)
    (c_threshold : threshold_arg) : Prop :=
  invalid_fingerprints fingerprints
  ∨ threshold_too_large (Base.n_fingerprints fingerprints) c_threshold.

(** The column-count histogram of an aggregate: entry [k] is the number
    of columns whose sum is [k], for [k = 0..n]. *)
Definition histogram (n : Z) (c_total : list Z) : list Z :=
  map (Base.count_nonzero_eq c_total) (Base.range_n1 n).

Definition sumZ (l : list Z) : Z := foldr Z.add 0 l.
Definition sumQ (l : list Q) : Q := foldr Qplus 0%Q l.

(** The dissimilar class of the histogram mode: [|2k - n| <= c]. *)
Definition dissimilar (n c k : Z) : bool := Z.abs (2 * k - n) <=? c.

(** Equality of two counter records, the weighted entries as rationals. *)
Definition same_counters (r : counters Q) (b : Base.comparisons Q) : Prop :=
  a r = Base.a b ∧ d r = Base.d b ∧ total_sim r = Base.total_sim b
  ∧ total_dis r = Base.total_dis b ∧ p r = Base.p b
  ∧ (w_a r == Base.w_a b)%Q ∧ (w_d r == Base.w_d b)%Q
  ∧ (total_w_sim r == Base.total_w_sim b)%Q
  ∧ (total_w_dis r == Base.total_w_dis b)%Q
  ∧ (w_p r == Base.w_p b)%Q.

(** The value of a computation that returned, [d] otherwise. *)
Definition value_or {A} (d : A) (m : result A) : A :=
  match m with
  | Ok x => x
  | Raise _ => d
  end.

(** The pairwise ([n = 2]) similarity index of the fingerprints [j] and
    [i] of the collection. *)
Definition pairwise {F : Type} (ops : float_ops F)
    (total_data : list (list Z)) (c_threshold : threshold_arg)
    (n_ary weight : string) (i j : nat) : result F :=
  rj ← row total_data j;
  ri ← row total_data i;
  sim_index ops [np_append (add_rows rj ri) 2] c_threshold weight n_ary.

(** The arithmetic mean of a list of rationals. *)
Definition average (vs : list Q) : Q :=
  (sumQ vs / inject_Z (Z.of_nat (length vs)))%Q.

End Spec.


From Stdlib Require Import Lqa.

(** ** Column classes, counting and equality of counters *)

Module Columns.

Import ECS_MeDiv.

Section Classes.

Variable n : Z.
Variable c : Q.

(** The three branches of the loop body of [calculate_counters], as
    predicates on the column sum [s]. *)
Definition one_similar (s : Z) : bool := Qltb c (inject_Z (2 * s - n)).

Definition zero_similar (s : Z) : bool :=
  negb (one_similar s) && Qltb c (inject_Z (n - 2 * s)).

Definition dissimilar (s : Z) : bool :=
  negb (one_similar s) && negb (Qltb c (inject_Z (n - 2 * s))).

(** The weight call made for a column of sum [s]. *)
Definition column_weight {W} (f_s f_d : Z → result W) (s : Z) : result W :=
  if one_similar s then f_s (2 * s - n)
  else if Qltb c (inject_Z (n - 2 * s)) then f_s (Z.abs (2 * s - n))
  else f_d (Z.abs (2 * s - n)).

End Classes.

(** The number of elements of a list that satisfy a test. *)
Definition count_if {A} (test : A → bool) (l : list A) : Z :=
  Z.of_nat (length (List.filter test l)).

(** Two counter dictionaries with the same entries, the weighted ones
    compared as rationals. *)
Definition equal_counters (r r' : counters Q) : Prop :=
  a r = a r' ∧ d r = d r' ∧ total_sim r = total_sim r'
  ∧ total_dis r = total_dis r' ∧ p r = p r'
  ∧ (w_a r == w_a r')%Q ∧ (w_d r == w_d r')%Q
  ∧ (total_w_sim r == total_w_sim r')%Q
  ∧ (total_w_dis r == total_w_dis r')%Q
  ∧ (w_p r == w_p r')%Q.

(** A threshold argument that is not a negative number. *)
Definition nonneg_threshold (c_threshold : threshold_arg) : Prop :=
  match c_threshold with
  | CInt z => 0 ≤ z
  | CFloat q => (0 <= q)%Q
  | _ => True
  end.

(** Column [j] of a matrix, and the sum of its entries. *)
Definition column (rows : list (list Z)) (j : nat) : list Z :=
  map (λ r, default 0 (r !! j)) rows.

(** A matrix of bits. *)
Definition binary (rows : list (list Z)) : Prop :=
  Forall (Forall (λ x, x = 0 ∨ x = 1)) rows.

(** The indices of [gen_sim_dict] that are quotients of counters. *)
Definition quotient_indices : list string :=
  ["Fai"; "Gle"; "Ja"; "Ja0"; "JT"; "RT"; "RR"; "SM"; "SS1"; "SS2"]%string.

End Columns.

(** ** Objects of [BaseComparisons] *)

Module Objects.

(** The object [b] with another value of the attribute [fingerprints]. *)
Definition with_fingerprints {F : Type} (fps : Base.fingerprints_arg)
    (b : Base.comparisons F) : Base.comparisons F :=
  {| Base.fingerprints := fps;
     Base.c_threshold := Base.c_threshold b;
     Base.matches := Base.matches b;
     Base.d_vector := Base.d_vector b;
     Base.weights := Base.weights b;
     Base.weighted_matches := Base.weighted_matches b;
     Base.a := Base.a b; Base.d := Base.d b;
     Base.w_a := Base.w_a b; Base.w_d := Base.w_d b;
     Base.dis_counters := Base.dis_counters b;
     Base.w_dis_counters := Base.w_dis_counters b;
     Base.total_sim := Base.total_sim b;
     Base.total_w_sim := Base.total_w_sim b;
     Base.total_dis := Base.total_dis b;
     Base.total_w_dis := Base.total_w_dis b;
     Base.p := Base.p b; Base.w_p := Base.w_p b |}.

End Objects.

(** ** Optimal elements of a scan *)

Module Scans.

(** [idx] is the first position of [data] whose value is best for the
    strict order [lt], and that value is better than [bound]. *)
Definition first_optimum {A : Type} (lt : Q → Q → Prop)
    (value : A → result Q) (data : list A) (bound : Q) (idx : nat) : Prop :=
  ∃ x v,
    data !! idx = Some x ∧ value x = Ok v ∧ lt v bound
    ∧ ∀ j x' v', data !! j = Some x' → value x' = Ok v' →
        ¬ lt v' v ∧ ((j < idx)%nat → lt v v').

(** No value of [data] is better than [bound]. *)
Definition none_better {A : Type} (lt : Q → Q → Prop)
    (value : A → result Q) (data : list A) (bound : Q) : Prop :=
  ∀ x v, x ∈ data → value x = Ok v → ¬ lt v bound.

End Scans.

(** ** The greedy step *)

Module Greedy.

Import ECS_MeDiv.

(** The similarity of the selected set enlarged by candidate [i]: the
    value that [get_new_index_n] computes for [i]. *)
Definition trial {F : Type} (ops : float_ops F) (total_data : list (list Z))
    (selected_condensed : list Z) (n : Z) (c_threshold : threshold_arg)
    (n_ary weight : string) (i : nat) : result F :=
  ri ← row total_data i;
  sim_index ops [np_append (add_rows selected_condensed ri) (n + 1)]
    c_threshold weight n_ary.

(** Candidate [idx] has the smallest trial value of the candidates. *)
Definition minimal {A : Type} (value : A → result Q) (candidates : list A)
    (idx : A) : Prop :=
  idx ∈ candidates
  ∧ ∃ v, value idx = Ok v
         ∧ ∀ j, j ∈ candidates → ∃ v', value j = Ok v' ∧ (v <= v')%Q.

End Greedy.

(** ** Two binary fingerprints *)

Module Pairs.

(** The numbers of positions where both fingerprints have a one, where
    neither has, where exactly one has, and where at least one has. *)
Definition both (r1 r2 : list Z) : Z :=
  Columns.count_if (λ xy, (fst xy =? 1) && (snd xy =? 1)) (zip r1 r2).

Definition neither (r1 r2 : list Z) : Z :=
  Columns.count_if (λ xy, (fst xy =? 0) && (snd xy =? 0)) (zip r1 r2).

Definition differ (r1 r2 : list Z) : Z :=
  Columns.count_if (λ xy, negb (fst xy =? snd xy)) (zip r1 r2).

Definition either (r1 r2 : list Z) : Z :=
  Columns.count_if (λ xy, (fst xy =? 1) || (snd xy =? 1)) (zip r1 r2).

Definition bits (r : list Z) : Prop := Forall (λ x, x = 0 ∨ x = 1) r.

End Pairs.

(** ** The two counter engines on the same fingerprints *)

Module Engines.

Import ECS_MeDiv.

(** The input of [calculate_counters] for a list of fingerprints: every
    fingerprint followed by the number of fingerprints it stands for. *)
Definition condensed (fps : list (list Z)) : list (list Z) :=
  map (λ fp, np_append fp 1) fps.

(** Threshold arguments that both engines document and resolve alike:
    [None], ['dissimilar'] and a positive integer. *)
Definition common_threshold (c_threshold : threshold_arg) : Prop :=
  match c_threshold with
  | CNone => True
  | CStr s => s = "dissimilar"%string
  | CInt z => 0 < z
  | CFloat _ => False
  end.

(** Weight arguments without the substring ["power"]. *)
Definition common_w_factor (w_factor : option string) : Prop :=
  ∀ s, w_factor = Some s → contains "power" s = false.

End Engines.

(** ** The index classes of [indices/*.py]

    Every class derives from [BaseComparisons]; its [__init__] runs the
    base constructor and then calls index methods by name on [self].
    An object is the record of counters made by the base constructor
    together with the attributes that the index methods assign.  A call
    [self.name()] looks [name] up among the methods of the class and
    raises [AttributeError] when there is none. *)

Module Indices.

Section Classes.

Context {F : Type} (ops : float_ops F).

Local Notation "x +. y" := (fadd ops x y) (at level 50, left associativity).
Local Notation "x -. y" := (fsub ops x y) (at level 50, left associativity).
Local Notation "x *. y" := (fmul ops x y) (at level 40, left associativity).
Local Notation "x /. y" := (fdiv ops x y) (at level 40, left associativity).
Local Abbreviation I := (of_int ops).

Record object : Type := {
  counters : Base.comparisons F;
  attributes : ECS_MeDiv.dict F
}.

Definition method : Type := object → result object.

(** The methods that a class body defines, by name. *)
Definition class : Type := ECS_MeDiv.dict method.

(** The names that [BaseComparisons] defines (base.py). *)
Definition base_names : list string :=
  ["__init__"; "n_fingerprints"; "assign_fingerprints"; "assign_c_threshold";
   "set_matches"; "set_d_vector"; "set_w_factor"; "set_weighted_matches";
   "set_a"; "set_d"; "set_weighted_a"; "set_weighted_d"; "set_dis_counters";
   "set_weighted_dis_counters"; "set_total_sim_counter";
   "set_total_weighted_sim_counter"; "total_dis_counters";
   "total_weighted_dis_counters"; "set_p"; "set_weighted_p"]%string.

Fixpoint find_method (cls : class) (name : string) : option method :=
  match cls with
  | [] => None
  | (name', m) :: cls' =>
      if String.eqb name name' then Some m else find_method cls' name
  end.

(** [self.name()] for a name that [BaseComparisons] does not define. *)
Definition call (cls : class) (name : string) (self : object)
  : result object :=
  match find_method cls name with
  | Some m => m self
  | None => Raise AttributeError
  end.

(** [self.name = v]. *)
Fixpoint dict_set (name : string) (v : F) (m : ECS_MeDiv.dict F)
  : ECS_MeDiv.dict F :=
  match m with
  | [] => [(name, v)]
  | (name', v') :: m' =>
      if String.eqb name name' then (name, v) :: m'
      else (name', v') :: dict_set name v m'
  end.

Definition set_attribute (name : string) (v : F) (self : object) : object :=
  {| counters := counters self;
     attributes := dict_set name v (attributes self) |}.

(** Reading an attribute assigned by an index method. *)
Definition get_attribute (name : string) (self : object) : result F :=
  match ECS_MeDiv.dict_get name (attributes self) with
  | Ok v => Ok v
  | Raise _ => Raise AttributeError
  end.

(** [super().__init__(fingerprints, c_threshold, w_factor)]. *)
Definition super_init (fingerprints : Base.fingerprints_arg)
    (c_threshold : threshold_arg) (w_factor : option string)
  : result object :=
  b ← Base.init ops fingerprints c_threshold w_factor;
  Ok {| counters := b; attributes := [] |}.

(** The calls of an [__init__], in order. *)
Definition init_with (cls : class) (calls : list string)
    (fingerprints : Base.fingerprints_arg) (c_threshold : threshold_arg)
    (w_factor : option string) : result object :=
  self ← super_init fingerprints c_threshold w_factor;
  for_each (λ self name, call cls name self) calls self.

(** An index method: [self.name = numerator/denominator]. *)
Definition quotient (name : string)
    (numerator denominator : Base.comparisons F → F) : method :=
  λ self,
    v ← numerator (counters self) /. denominator (counters self);
    Ok (set_attribute name v self).

(** *** russell_rao.py *)

Definition rr_1sim_wdis : method :=
  quotient "RR_1sim_wdis" Base.w_a Base.w_p.
Definition rr_1sim_dis : method :=
  quotient "RR_1sim_dis" Base.w_a (λ b, I (Base.p b)).

Definition RussellRao : class :=
  [("rr_1sim_wdis", rr_1sim_wdis); ("rr_1sim_dis", rr_1sim_dis)]%string.

Definition RussellRao_calls : list string :=
  ["rr_sim_wdis"; "rr_1sim_wdis"; "rr_sim_dis"; "rr_1sim_dis"]%string.

Definition RussellRao_init :=
  init_with RussellRao RussellRao_calls.

(** *** jaccard_tanimoto.py *)

Definition jt_1sim_wdis : method :=
  quotient "JT_1sim_wdis" Base.w_a (λ b, Base.w_a b +. Base.total_w_dis b).
Definition jt_1sim_dis : method :=
  quotient "JT_1sim_dis" Base.w_a (λ b, I (Base.a b + Base.total_dis b)).

Definition JaccardTanimoto : class :=
  [("jt_1sim_wdis", jt_1sim_wdis); ("jt_1sim_dis", jt_1sim_dis)]%string.

Definition JaccardTanimoto_calls : list string :=
  ["jt_sim_wdis"; "jt_1sim_wdis"; "jt_sim_dis"; "jt_1sim_dis"]%string.

Definition JaccardTanimoto_init :=
  init_with JaccardTanimoto JaccardTanimoto_calls.

(** *** consoni_todeschini4.py *)

Definition ct4_1sim_wdis : method :=
  λ self,
    let b := counters self in
    x ← math_log ops (I 1 +. Base.w_a b);
    y ← math_log ops (I 1 +. Base.w_a b +. Base.total_w_dis b);
    v ← x /. y;
    Ok (set_attribute "CT4_1sim_wdis" v self).
Definition ct4_1sim_dis : method :=
  λ self,
    let b := counters self in
    x ← math_log ops (I 1 +. Base.w_a b);
    y ← math_log ops (I (1 + Base.a b + Base.total_dis b));
    v ← x /. y;
    Ok (set_attribute "CT4_1sim_dis" v self).

Definition ConsoniTodeschini4 : class :=
  [("ct4_1sim_wdis", ct4_1sim_wdis); ("ct4_1sim_dis", ct4_1sim_dis)]%string.

Definition ConsoniTodeschini4_calls : list string :=
  ["ct4_sim_wdis"; "ct4_1sim_wdis"; "ct4_sim_dis"; "ct4_1sim_dis"]%string.

Definition ConsoniTodeschini4_init :=
  init_with ConsoniTodeschini4 ConsoniTodeschini4_calls.

(** *** jaccard.py *)

Definition ja_sim_wdis : method :=
  quotient "Ja_sim_wdis" (λ b, I 3 *. Base.total_w_sim b)
    (λ b, I 3 *. Base.total_w_sim b +. Base.total_w_dis b).
Definition ja_1sim_wdis : method :=
  quotient "Ja_1sim_wdis" (λ b, I 3 *. Base.w_a b)
    (λ b, I 3 *. Base.w_a b +. Base.total_w_dis b).
Definition ja_sim_dis : method :=
  quotient "Ja_sim_dis" (λ b, I 3 *. Base.total_w_sim b)
    (λ b, I (3 * Base.total_sim b + Base.total_dis b)).
Definition ja_1sim_dis : method :=
  quotient "Ja_1sim_dis" (λ b, I 3 *. Base.w_a b)
    (λ b, I (3 * Base.a b + Base.total_dis b)).

Definition Jaccard : class :=
  [("ja_sim_wdis", ja_sim_wdis); ("ja_1sim_wdis", ja_1sim_wdis);
   ("ja_sim_dis", ja_sim_dis); ("ja_1sim_dis", ja_1sim_dis)]%string.

Definition Jaccard_calls : list string :=
  ["ja_sim_wdis"; "ja_1sim_wdis"; "ja_sim_dis"; "ja_1sim_dis"]%string.

Definition Jaccard_init := init_with Jaccard Jaccard_calls.

(** *** goodman_kruskal.py *)

(** Python's [min(x, y)]: [y] when [y < x], else [x]. *)
Definition py_min (x y : F) : F := if flt ops y x then y else x.

Definition gk_1sim_wdis : method :=
  quotient "GK_1sim_wdis"
    (λ b, I 2 *. py_min (Base.w_a b) (Base.w_d b) -. Base.total_w_dis b)
    (λ b, I 2 *. py_min (Base.w_a b) (Base.w_d b) +. Base.total_w_dis b).
Definition gk_1sim_dis : method :=
  quotient "GK_1sim_dis"
    (λ b, I 2 *. py_min (Base.w_a b) (Base.w_d b) -. Base.total_w_dis b)
    (λ b, I (2 * Z.min (Base.a b) (Base.d b) + Base.total_dis b)).

Definition GoodmanKruskal : class :=
  [("gk_1sim_wdis", gk_1sim_wdis); ("gk_1sim_dis", gk_1sim_dis)]%string.

Definition GoodmanKruskal_calls : list string :=
  ["gk_1sim_wdis"; "gk_1sim_dis"]%string.

Definition GoodmanKruskal_init :=
  init_with GoodmanKruskal GoodmanKruskal_calls.

(** *** hawkins_dotson.py *)

Definition hd_1sim_wdis : method :=
  λ self,
    let b := counters self in
    q1 ← Base.w_a b /. (Base.w_a b +. Base.total_w_dis b);
    q2 ← Base.w_d b /. (Base.w_d b +. Base.total_w_dis b);
    Ok (set_attribute "HD_1sim_wdis" (lit ops (1 # 2) *. (q1 +. q2)) self).
Definition hd_1sim_dis : method :=
  λ self,
    let b := counters self in
    q1 ← Base.w_a b /. I (Base.a b + Base.total_dis b);
    q2 ← Base.w_d b /. I (Base.d b + Base.total_dis b);
    Ok (set_attribute "HD_1sim_dis" (lit ops (1 # 2) *. (q1 +. q2)) self).

Definition HawkinsDotson : class :=
  [("hd_1sim_wdis", hd_1sim_wdis); ("hd_1sim_dis", hd_1sim_dis)]%string.

Definition HawkinsDotson_calls : list string :=
  ["hd_1sim_wdis"; "hd_1sim_dis"]%string.

Definition HawkinsDotson_init :=
  init_with HawkinsDotson HawkinsDotson_calls.

(** The entries [weight], [n_ary] of [gen_sim_dict] and the attributes
    of [Jaccard] that are computed by the same formula. *)
Definition Jaccard_table : list (string * string * string) :=
  [("w", "Ja0", "Ja_sim_wdis"); ("w", "Ja", "Ja_1sim_wdis");
   ("nw", "Ja0", "Ja_sim_dis"); ("nw", "Ja", "Ja_1sim_dis")]%string.

End Classes.

Arguments object : clear implicits.
Arguments class : clear implicits.

End Indices.

(** ** The script at the end of [ECS_MeDiv.py] (lines 319-382)

    [glob.glob('*.npy')] and [np.load] are inputs: the files are given
    as a list of names with the arrays they hold. *)

Module Script.

Import ECS_MeDiv.

(** The index names that the script iterates over (lines 319-320), and
    the two weight keys. *)
Definition n_arys : list string :=
  ["AC"; "BUB"; "CT1"; "CT2"; "CT3"; "CT4"; "Fai"; "Gle"; "Ja"; "Ja0"; "JT";
   "RT"; "RR"; "SM"; "SS1"; "SS2"]%string.

Definition weights : list string := ["nw"; "w"]%string.

(** [s.split('.')[0]]. *)
Fixpoint first_field (s : string) : string :=
  match s with
  | EmptyString => EmptyString
  | String c s' =>
      if Ascii.eqb c "."%char then EmptyString else String c (first_field s')
  end.

(** [m[k] = v]. *)
Fixpoint dict_update {V} (k : string) (v : V) (m : dict V) : dict V :=
  match m with
  | [] => [(k, v)]
  | (k', v') :: m' =>
      if String.eqb k k' then (k, v) :: m'
      else (k', v') :: dict_update k v m'
  end.

(** The variables of the script that the file loop assigns:
    [DiversityDict], and [base_name] (with [start]) once a file has been
    read. *)
Record variables : Type := {
  DiversityDict : dict (dict (list nat));
  base_name : option string
}.

Section Run.

Context {F : Type} (ops : float_ops F).
Variable n_ary : string.

(** Body of [for file in glob.glob('*.npy')] with [c_threshold = 'min']
    (lines 326-377). *)
Definition process_file (vars : variables) (file : string * list (list Z))
  : result variables :=
  let '(name, total_data) := file in
  if contains "rank" name then Ok vars
  else
    let base := first_field name in
    selected_n ← ECS_MeDiv ops n_ary total_data;
    (* DiversityDict[c_threshold][base_name] = selected_n *)
    inner ← dict_get "min" (DiversityDict vars);
    Ok {| DiversityDict :=
            dict_update "min" (dict_update base selected_n inner)
              (DiversityDict vars);
          base_name := Some base |}.

(** How one iteration of [for n_ary in n_arys] ends: the dictionary is
    written to a file, or an exception ends the script; [NameError] when
    [start] and [base_name] were never assigned. *)
Inductive outcome : Type :=
  | Dumped (file : string) (D : dict (dict (list nat)))
  | Failed (e : exn)
  | FailedNameError.

(** Lines 322-382 for the first [n_ary]: no variable of the loop body is
    bound yet.  (An exception ends the script, so a later iteration is
    only reached when this one dumps.) *)
Definition run (files : list (string * list (list Z))) : outcome :=
  match for_each process_file files
          {| DiversityDict := []; base_name := None |} with
  | Raise e => Failed e
  | Ok vars =>
      match base_name vars with
      | None => FailedNameError
      | Some base =>
          Dumped (n_ary +:+ "_" +:+ "medoid" +:+ "_" +:+ base +:+ "_.pkl")
                 (DiversityDict vars)
      end
  end.

End Run.

End Script.
(** * Properties *)

Import ECS_MeDiv.

(** ** Comparisons and the error monad *)

Lemma Qltb_lt (x y : Q) : Qltb x y = true ↔ (x < y)%Q.
Proof.
  unfold Qltb. rewrite negb_true_iff, <- not_true_iff_false, Qle_bool_iff.
  split; [apply Qnot_le_lt | apply Qlt_not_le].
Qed.

Lemma Qltb_nlt (x y : Q) : Qltb x y = false ↔ ¬ (x < y)%Q.
Proof. rewrite <- Qltb_lt. destruct (Qltb x y); intuition congruence. Qed.

Lemma bind_Ok {A B} (m : result A) (f : A → result B) (y : B) :
  (x ← m; f x) = Ok y ↔ ∃ x, m = Ok x ∧ f x = Ok y.
Proof.
  destruct m as [x|e]; simpl; split.
  - eauto.
  - intros (x' & [= ->] & H). exact H.
  - discriminate.
  - intros (x' & [=] & _).
Qed.

Lemma for_each_app {A S} (body : S → A → result S) (xs ys : list A) (st : S) :
  for_each body (xs ++ ys) st = (st' ← for_each body xs st; for_each body ys st').
Proof.
  revert st. induction xs as [|x xs IH]; intros st; simpl; [reflexivity|].
  destruct (body st x) as [st1|e]; simpl; [apply IH | reflexivity].
Qed.

(** ** The per-column rule of the counter engine *)

Section EngineFacts.

Context {W : Type}.
Variable w_zero : W.
Variable w_add : W → W → W.
Variables f_s f_d : Z → result W.
Variable n : Z.
Variable c : Q.
Hypothesis c_nonneg : (0 <= c)%Q.

Lemma abs_of_one_similar (s : Z) :
  (c < inject_Z (2 * s - n))%Q → Z.abs (2 * s - n) = 2 * s - n.
Proof.
  intros H. apply Z.abs_eq.
  assert (Hq : (0 < inject_Z (2 * s - n))%Q) by (eapply Qle_lt_trans; eauto).
  change 0%Q with (inject_Z 0) in Hq. rewrite <- Zlt_Qlt in Hq. lia.
Qed.

Lemma count_column_rule (t t' : tally W) (s : Z) :
  count_column w_add f_s f_d n c t s = Ok t'
  ↔ Spec.column_rule w_add f_s f_d n c t s t'.
Proof.
  unfold count_column. split.
  - destruct (Qltb c (inject_Z (2 * s - n))) eqn:H1.
    + apply Qltb_lt in H1. intros H. apply bind_Ok in H as (w & Hw & [= <-]).
      apply Spec.rule_one_similar; unfold Spec.signed; [done|].
      by rewrite abs_of_one_similar.
    + apply Qltb_nlt in H1.
      destruct (Qltb c (inject_Z (n - 2 * s))) eqn:H2.
      * apply Qltb_lt in H2. intros H.
        apply bind_Ok in H as (w & Hw & [= <-]).
        by apply Spec.rule_zero_similar.
      * apply Qltb_nlt in H2. intros H.
        apply bind_Ok in H as (w & Hw & [= <-]).
        by apply Spec.rule_dissimilar.
  - intros [w H1 Hw | w H1 H2 Hw | w H1 H2 Hw]; unfold Spec.signed in *.
    + rewrite abs_of_one_similar in Hw by done.
      apply Qltb_lt in H1. rewrite H1, Hw. reflexivity.
    + apply Qltb_nlt in H1. apply Qltb_lt in H2. rewrite H1, H2, Hw.
      reflexivity.
    + apply Qltb_nlt in H1. apply Qltb_nlt in H2. rewrite H1, H2, Hw.
      reflexivity.
Qed.

Lemma for_each_columns_rule (cs : list Z) (t t' : tally W) :
  for_each (count_column w_add f_s f_d n c) cs t = Ok t'
  ↔ Spec.columns_rule w_add f_s f_d n c t cs t'.
Proof.
  revert t. induction cs as [|s cs IH]; intros t; simpl.
  - split.
    + intros [= ->]. constructor.
    + inversion 1. reflexivity.
  - rewrite bind_Ok. split.
    + intros (t1 & H1 & H2). econstructor.
      * apply count_column_rule, H1.
      * apply IH, H2.
    + inversion 1; subst. eexists. split.
      * apply count_column_rule. eassumption.
      * by apply IH.
Qed.

End EngineFacts.

(** C1: for a population [n] and a threshold [0 <= c_threshold], the
    engine's loop over the column sums ends in tally [t'] exactly when [t']
    is reached by the three-way rule on [signed = 2s - n] applied column by
    column: above the threshold the column is 1-similar ([a] grows by one,
    [f_sim |signed|] is added to [w_a]); else if [n - 2s] is above it the
    column is 0-similar ([d], [w_d]); otherwise it is dissimilar
    ([total_dis], [f_dis |signed|] added to [total_w_dis]).  The counters
    returned are read off the final tally. *)
Theorem counter_engine_classifies_columns
    {W : Type} (w_zero : W) (w_add : W → W → W) (f_sim f_dis : Z → result W)
    (n : Z) (c_threshold : Q) (c_total : list Z) (r : counters W) :
  (0 <= c_threshold)%Q →
  count w_zero w_add f_sim f_dis n c_threshold c_total = Ok r
  ↔ ∃ t, Spec.columns_rule w_add f_sim f_dis n c_threshold
           (tally_zero w_zero) c_total t
         ∧ r = make_counters w_add t.
Proof.
  intros Hc. unfold count. rewrite bind_Ok.
  split; intros (t & Ht & Hr); exists t.
  - split; [by apply for_each_columns_rule | congruence].
  - split; [by apply for_each_columns_rule | congruence].
Qed.

Lemma counter_engine_classifies_columns_witness :
  (0 <= 0)%Q
  ∧ ∃ r, count 0%Q Qplus (fraction_f_s Exact.Qops 4) (fraction_f_d Exact.Qops 4)
               4 0%Q [3; 2; 1] = Ok r
         ∧ (a r, d r, total_dis r, total_sim r, p r) = (1, 1, 1, 2, 3)
         ∧ ∃ t, Spec.columns_rule Qplus (fraction_f_s Exact.Qops 4)
                  (fraction_f_d Exact.Qops 4) 4 0%Q (tally_zero 0%Q) [3; 2; 1] t
                ∧ r = make_counters Qplus t.
Proof.
  split; [unfold Qle; simpl; lia|].
  eexists. split; [vm_compute; reflexivity|].
  split; [reflexivity|].
  apply (proj1 (counter_engine_classifies_columns 0%Q Qplus
                  (fraction_f_s Exact.Qops 4) (fraction_f_d Exact.Qops 4)
                  4 0%Q [3; 2; 1] _ ltac:(unfold Qle; simpl; lia))).
  vm_compute; reflexivity.
Defined.

(** ** Counter conservation *)

Lemma make_counters_conservation {W : Type} (w_add : W → W → W) (t : tally W) :
  let r := make_counters w_add t in
  a r + d r + total_dis r = p r
  ∧ w_add (w_add (w_a r) (w_d r)) (total_w_dis r) = w_p r.
Proof. simpl. split; reflexivity. Qed.

Lemma count_make_counters {W : Type} (w_zero : W) (w_add : W → W → W)
    (f_s f_d : Z → result W) (n : Z) (c : Q) (cs : list Z) (r : counters W) :
  count w_zero w_add f_s f_d n c cs = Ok r → ∃ t, r = make_counters w_add t.
Proof.
  unfold count. rewrite bind_Ok. intros (t & _ & [= <-]). by exists t.
Qed.

Lemma calculate_counters_make {F : Type} (ops : float_ops F)
    (data_sets : list (list Z)) (c : threshold_arg) (w : option string)
    (r : counters F) :
  calculate_counters ops data_sets c w = Ok r →
  ∃ t, r = make_counters (fadd ops) t.
Proof.
  unfold calculate_counters. intros H.
  apply bind_Ok in H as (total & _ & H).
  apply bind_Ok in H as ([c_total n] & _ & H).
  apply bind_Ok in H as (c' & _ & H).
  apply bind_Ok in H as ([f_s f_d] & _ & H).
  eapply count_make_counters, H.
Qed.

(** C2: the counters returned by [calculate_counters] and the attributes
    set by [BaseComparisons] satisfy [a + d + total_dis = p] and
    [w_a + w_d + total_w_dis = w_p], whatever the aggregate, the
    threshold and the weight scheme (the weighted sums are Python's
    left-to-right [(w_a + w_d) + total_w_dis] in the arithmetic of the
    interface, so no law of addition is needed). *)
Theorem counter_conservation {F : Type} (ops : float_ops F) :
  (∀ data_sets c w r,
     calculate_counters ops data_sets c w = Ok r →
     a r + d r + total_dis r = p r
     ∧ fadd ops (fadd ops (w_a r) (w_d r)) (total_w_dis r) = w_p r)
  ∧ (∀ fingerprints c w b,
       Base.init ops fingerprints c w = Ok b →
       Base.a b + Base.d b + Base.total_dis b = Base.p b
       ∧ fadd ops (fadd ops (Base.w_a b) (Base.w_d b)) (Base.total_w_dis b)
         = Base.w_p b).
Proof.
  split.
  - intros data_sets c w r H.
    apply calculate_counters_make in H as [t ->].
    apply make_counters_conservation.
  - intros fingerprints c w b H. unfold Base.init in H.
    apply bind_Ok in H as (fps & _ & H).
    apply bind_Ok in H as (attr & _ & H).
    apply bind_Ok in H as (matches & _ & H).
    apply bind_Ok in H as (weights & _ & H).
    apply bind_Ok in H as (c' & _ & [= <-]).
    simpl. split; reflexivity.
Qed.

Lemma counter_conservation_witness :
  (∃ r, calculate_counters Exact.Qops [[3; 2; 1; 4]] CNone (Some "fraction"%string)
        = Ok r
        ∧ a r + d r + total_dis r = p r
        ∧ (w_a r + w_d r + total_w_dis r)%Q = w_p r)
  ∧ (∃ b, Base.init Exact.Qops (Base.FInt 4) CNone (Some "fraction"%string) = Ok b
          ∧ Base.a b + Base.d b + Base.total_dis b = Base.p b
          ∧ (Base.w_a b + Base.w_d b + Base.total_w_dis b)%Q = Base.w_p b).
Proof.
  split.
  - eexists. split; [vm_compute; reflexivity|].
    apply (proj1 (counter_conservation Exact.Qops) [[3; 2; 1; 4]] CNone
                 (Some "fraction"%string)).
    vm_compute; reflexivity.
  - eexists. split; [vm_compute; reflexivity|].
    apply (proj2 (counter_conservation Exact.Qops) (Base.FInt 4) CNone
                 (Some "fraction"%string)).
    vm_compute; reflexivity.
Defined.

(** ** Resolution of the coincidence threshold *)

Lemma ceil_half_spec (n : Z) : n ≤ 2 * ceil_half n < n + 2.
Proof. unfold ceil_half. pose proof (Z.div_mod (n + 1) 2).
  pose proof (Z.mod_pos_bound (n + 1) 2). lia. Qed.

Lemma Qltb_0_inject (z : Z) : Qltb 0 (inject_Z z) = (0 <? z).
Proof.
  apply eq_true_iff_eq. rewrite Qltb_lt, Z.ltb_lt.
  change 0%Q with (inject_Z 0). by rewrite <- Zlt_Qlt.
Qed.

(** The cases of lines 51-64 in which the configured value is resolved as
    the documentation says. *)
Lemma assign_c_threshold_cases (n : Z) :
  2 ≤ n →
  assign_c_threshold n CNone = Ok (NInt (n mod 2))
  ∧ assign_c_threshold n (CStr "dissimilar") = Ok (NInt (ceil_half n))
  ∧ (∀ z, 0 < z < n → assign_c_threshold n (CInt z) = Ok (NInt z))
  ∧ (∀ q, (0 < q)%Q → (q < 1)%Q →
       assign_c_threshold n (CFloat q) = Ok (NFloat (q * inject_Z n))).
Proof.
  intros Hn. pose proof (Z.mod_pos_bound n 2) as Hm.
  pose proof (ceil_half_spec n) as Hc.
  repeat split.
  - unfold assign_c_threshold; simpl.
    destruct (Z.geb_spec (n mod 2) n); [lia | reflexivity].
  - unfold assign_c_threshold; simpl.
    destruct (Z.geb_spec (ceil_half n) n); [lia | reflexivity].
  - intros z Hz. unfold assign_c_threshold; simpl.
    destruct (Z.eqb_spec z 0); [lia|]. simpl.
    destruct (Z.geb_spec z n); [lia | reflexivity].
  - intros q H0 H1. unfold assign_c_threshold; simpl.
    assert (Hq : Qeq_bool q 0 = false).
    { apply not_true_iff_false. rewrite Qeq_bool_iff. intros E.
      rewrite E in H0. by apply Qlt_irrefl in H0. }
    rewrite Hq. simpl.
    apply Qltb_lt in H0. apply Qltb_lt in H1. by rewrite H0, H1.
Qed.

(** An explicit [0] is falsy: line 52 replaces it by [n mod 2]. *)
Lemma assign_c_threshold_zero (n : Z) :
  2 ≤ n → assign_c_threshold n (CInt 0) = Ok (NInt (n mod 2)).
Proof.
  intros Hn. pose proof (Z.mod_pos_bound n 2).
  unfold assign_c_threshold; simpl.
  destruct (Z.geb_spec (n mod 2) n); [lia | reflexivity].
Qed.

(** C3: for [n = 3] the explicit integer threshold [0], which lies in
    [[0, n)], is not used directly by [calculate_counters]: it is resolved
    to [n mod 2 = 1].  [BaseComparisons.assign_c_threshold] keeps [0]. *)
Theorem explicit_zero_threshold_is_replaced :
  assign_c_threshold 3 (CInt 0) = Ok (NInt 1)
  ∧ Base.assign_c_threshold 3 (CInt 0) = Ok (Some 0).
Proof. split; reflexivity. Qed.

(** The replaced threshold changes the counters: with three fingerprints
    and column sums [[2; 1]], threshold [0] makes both columns similar,
    while the call with [c_threshold=0] counts both as dissimilar. *)
Lemma explicit_zero_threshold_changes_counters :
  (∃ r, count 0%Q Qplus (fraction_f_s Exact.Qops 3) (fraction_f_d Exact.Qops 3)
          3 0%Q [2; 1] = Ok r ∧ (a r, d r, total_dis r) = (1, 1, 0))
  ∧ (∃ r, calculate_counters Exact.Qops [[2; 1; 3]] (CInt 0)
            (Some "fraction"%string) = Ok r
          ∧ (a r, d r, total_dis r) = (0, 0, 2)).
Proof. split; eexists; (split; [vm_compute; reflexivity | reflexivity]). Qed.

(** ** [gen_sim_dict] and its [w_factor] argument *)

(** C9: the index dictionaries returned by [gen_sim_dict] for two values
    of its [w_factor] argument are identical. *)
Theorem gen_sim_dict_ignores_w_factor {F : Type} (ops : float_ops F)
    (data_sets : list (list Z)) (c_threshold : threshold_arg)
    (w1 w2 : option string) :
  gen_sim_dict ops data_sets c_threshold w1
  = gen_sim_dict ops data_sets c_threshold w2.
Proof. reflexivity. Qed.

(** The counters it is built on are those of the fraction scheme. *)
Lemma gen_sim_dict_uses_fraction {F : Type} (ops : float_ops F)
    (data_sets : list (list Z)) (c_threshold : threshold_arg)
    (w : option string) :
  gen_sim_dict ops data_sets c_threshold w
  = (counters ← calculate_counters ops data_sets c_threshold
                  (Some "fraction"%string);
     index_table ops counters).
Proof. reflexivity. Qed.

(** The engine itself does depend on [w_factor]. *)
Lemma calculate_counters_depends_on_w_factor :
  calculate_counters Exact.Qops [[3; 2; 1; 4]] CNone (Some "fraction"%string)
  ≠ calculate_counters Exact.Qops [[3; 2; 1; 4]] CNone (Some "power_2"%string).
Proof. vm_compute. discriminate. Qed.

(** ** Weight schemes and the [w_factor] string *)

Lemma append_cons (c : ascii) (s1 s2 : string) :
  (String c s1 +:+ s2 = String c (s1 +:+ s2))%string.
Proof. reflexivity. Qed.

Lemma append_assoc (s1 s2 s3 : string) :
  ((s1 +:+ s2) +:+ s3 = s1 +:+ (s2 +:+ s3))%string.
Proof.
  induction s1 as [|c s1 IH]; [reflexivity|].
  rewrite !append_cons. by f_equal.
Qed.

Lemma append_empty_r (s : string) : (s +:+ "" = s)%string.
Proof.
  induction s as [|c s IH]; [reflexivity|]. rewrite append_cons. by f_equal.
Qed.

Lemma is_digit_not_special (c : ascii) :
  is_digit c = true →
  is_space c = false ∧ Ascii.eqb c "_" = false
  ∧ Ascii.eqb c "-" = false ∧ Ascii.eqb c "+" = false.
Proof.
  destruct c as [[|] [|] [|] [|] [|] [|] [|] [|]]; vm_compute;
    intuition congruence.
Qed.

Lemma last_field_from_digits (s acc : string) :
  Spec.all_digits s = true → last_field_from acc s = (acc +:+ s)%string.
Proof.
  revert acc. induction s as [|c s IH]; intros acc H; simpl in *.
  - by rewrite append_empty_r.
  - apply andb_true_iff in H as [Hc Hs].
    apply is_digit_not_special in Hc as (_ & -> & _).
    rewrite IH by done. by rewrite append_assoc.
Qed.

Lemma all_digits_decimal (d : uint) :
  Spec.all_digits (NilEmpty.string_of_uint d) = true.
Proof. induction d; simpl; auto. Qed.

Lemma all_digits_Forall (s : string) :
  Spec.all_digits s = true →
  Forall (λ c, is_digit c = true) (list_ascii_of_string s).
Proof.
  induction s as [|c s IH]; simpl; [constructor|].
  intros H. apply andb_true_iff in H as [Hc Hs]. constructor; auto.
Qed.

Lemma drop_spaces_digits (l : list ascii) :
  Forall (λ c, is_digit c = true) l → drop_spaces l = l.
Proof.
  destruct 1 as [|c l Hc _]; simpl; [reflexivity|].
  by apply is_digit_not_special in Hc as (-> & _).
Qed.

Lemma strip_digits (l : list ascii) :
  Forall (λ c, is_digit c = true) l → strip l = l.
Proof.
  intros H. unfold strip. rewrite (drop_spaces_digits l H).
  rewrite drop_spaces_digits; [apply rev_involutive|].
  by apply Forall_rev.
Qed.

Lemma digits_value_acc (d : uint) (acc : positive) :
  digits_value (Z.pos acc) (list_ascii_of_string (NilEmpty.string_of_uint d))
  = Ok (Z.pos (Pos.of_uint_acc d acc)).
Proof.
  revert acc. induction d; intros acc; simpl; [reflexivity|..];
    match goal with
    | |- digits_value ?z _ = Ok (Z.pos (Pos.of_uint_acc _ ?a)) =>
        replace z with (Z.pos a)
          by (vm_compute (nat_of_ascii _); lia);
        apply IHd
    end.
Qed.

Lemma digits_value_decimal (d : uint) :
  digits_value 0 (list_ascii_of_string (NilEmpty.string_of_uint d))
  = Ok (Z.of_N (Pos.of_uint d)).
Proof.
  induction d; simpl; [reflexivity | exact IHd |..]; apply digits_value_acc.
Qed.

Lemma py_int_decimal (k : positive) : py_int (Spec.decimal k) = Ok (Z.pos k).
Proof.
  unfold py_int, Spec.decimal.
  pose proof (all_digits_Forall _ (all_digits_decimal (Pos.to_uint k))) as Hd.
  pose proof (digits_value_decimal (Pos.to_uint k)) as Hv.
  rewrite Unsigned.of_to in Hv. rewrite strip_digits by done.
  destruct (list_ascii_of_string _) as [|c l] eqn:E; [discriminate|].
  apply Forall_cons in Hd as [Hc _].
  apply is_digit_not_special in Hc as (_ & _ & -> & ->).
  exact Hv.
Qed.

Lemma last_field_power_name (k : positive) :
  last_field (Spec.power_name k) = Spec.decimal k.
Proof.
  unfold last_field, Spec.power_name. simpl.
  apply (last_field_from_digits _ ""), all_digits_decimal.
Qed.

Lemma contains_power_name (k : positive) :
  contains "power" (Spec.power_name k) = true.
Proof. reflexivity. Qed.

(** C7 (as amended): in [calculate_counters], for every population [n],
    the string [power_k] with [k] a positive integer selects the power
    scheme with base [k] ([f_s d = k ** -(n - d)],
    [f_d d = k ** -(d - n mod 2)]), the string [fraction] selects the
    fraction scheme, and every other value that does not contain the text
    [power] - [None] and the empty string included - yields the identity
    weights [f_s = f_d = 1].  The engine calls these functions on
    [|2s - n|] (see C1). *)
Theorem w_factor_selects_weight_scheme {F : Type} (ops : float_ops F) (n : Z) :
  (∀ k : positive,
     set_w_factor ops n (Some (Spec.power_name k))
     = Ok (power_f_s ops n (Z.pos k), power_f_d ops n (Z.pos k)))
  ∧ set_w_factor ops n (Some "fraction"%string)
    = Ok (fraction_f_s ops n, fraction_f_d ops n)
  ∧ (∀ w : string,
       contains "power" w = false → w ≠ "fraction"%string →
       set_w_factor ops n (Some w) = Ok (one_f ops, one_f ops))
  ∧ set_w_factor ops n None = Ok (one_f ops, one_f ops).
Proof.
  split; [|split; [reflexivity|split; [|reflexivity]]].
  - intros k. unfold set_w_factor.
    rewrite contains_power_name, last_field_power_name, py_int_decimal.
    reflexivity.
  - intros w Hp Hf. unfold set_w_factor. rewrite Hp.
    apply String.eqb_neq in Hf. rewrite Hf.
    by destruct (negb (w =? "")%string).
Qed.

Lemma w_factor_selects_weight_scheme_witness :
  set_w_factor Exact.Qops 4 (Some "power_3"%string)
  = Ok (power_f_s Exact.Qops 4 3, power_f_d Exact.Qops 4 3)
  ∧ contains "power" "identity" = false
  ∧ "identity"%string ≠ "fraction"%string
  ∧ set_w_factor Exact.Qops 4 (Some "identity"%string)
    = Ok (one_f Exact.Qops, one_f Exact.Qops).
Proof.
  destruct (w_factor_selects_weight_scheme Exact.Qops 4) as (Hp & _ & Ho & _).
  split; [exact (Hp 3%positive)|].
  split; [reflexivity|]. split; [discriminate|].
  apply Ho; [reflexivity | discriminate].
Defined.

(** A value that is neither [power_k] nor [fraction] and does not get
    identity weights: the text [power] alone makes [int("power")] raise. *)
Lemma w_factor_other_value_not_identity :
  (∀ k, "power"%string ≠ Spec.power_name k)
  ∧ "power"%string ≠ "fraction"%string
  ∧ set_w_factor Exact.Qops 4 (Some "power"%string) = Raise ValueError
  ∧ set_w_factor Exact.Qops 4 (Some "power"%string)
    ≠ Ok (one_f Exact.Qops, one_f Exact.Qops).
Proof.
  split; [intros k; unfold Spec.power_name; discriminate|].
  split; [discriminate|]. split; [reflexivity | discriminate].
Qed.

(** [BaseComparisons.set_w_factor] compares the whole string with
    ["power_n"]: that string makes [int("n")] raise, and [power_k] falls
    through to the identity weights. *)
Lemma base_weight_functions_power {F : Type} (ops : float_ops F) (n : Z) :
  Base.weight_functions ops n (Some "power_n"%string) = Raise ValueError
  ∧ ∀ k : positive,
      Base.weight_functions ops n (Some (Spec.power_name k))
      = Ok (one_f ops, one_f ops).
Proof.
  split; [reflexivity|]. intros k. unfold Base.weight_functions.
  assert (E : (Spec.power_name k =? "power_n")%string = false).
  { apply String.eqb_neq. intros E.
    pose proof (all_digits_decimal (Pos.to_uint k)) as Hd.
    unfold Spec.power_name in E. injection E as E.
    change (NilEmpty.string_of_uint (Pos.to_uint k) = "n"%string) in E.
    rewrite E in Hd. discriminate. }
  rewrite E.
  assert (E' : (Spec.power_name k =? "fraction")%string = false).
  { apply String.eqb_neq. unfold Spec.power_name. discriminate. }
  by rewrite E'.
Qed.

(** ** Running-best scans *)

Lemma for_each_ext {A S} (f g : S → A → result S) (xs : list A) (st : S) :
  (∀ st x, f st x = g st x) → for_each f xs st = for_each g xs st.
Proof.
  intros E. revert st. induction xs as [|x xs IH]; intros st; simpl;
    [reflexivity|].
  rewrite E. destruct (g st x); simpl; [apply IH | reflexivity].
Qed.

Section ScanFacts.

Context {A F : Type}.
Variable value : A → result F.
Variable better : F → F → bool.

Let body := Spec.scan_body value better.

(** The final index is the initial one or the position of an element. *)
Lemma scan_index_from (l : list (nat * A)) (st st' : nat * F) :
  for_each body l st = Ok st' →
  st' = st ∨ ∃ ix, ix ∈ l ∧ fst st' = fst ix.
Proof.
  revert st. induction l as [|[i x] l IH]; intros [index best]; simpl.
  - intros [= <-]. by left.
  - intros H. apply bind_Ok in H as (st1 & H1 & H2).
    apply bind_Ok in H1 as (v & Hv & H1).
    destruct (IH _ H2) as [-> | (ix & Hin & E)].
    + destruct (better v best); injection H1 as <-.
      * right. exists (i, x). split; [left | reflexivity].
      * by left.
    + right. exists ix. split; [by right | exact E].
Qed.

(** If no element beats the initial best, the state never changes. *)
Lemma scan_no_update (l : list (nat * A)) (st st' : nat * F) :
  (∀ ix v, ix ∈ l → value (snd ix) = Ok v → better v (snd st) = false) →
  for_each body l st = Ok st' → st' = st.
Proof.
  revert st. induction l as [|[i x] l IH]; intros [index best] Hno; simpl.
  - by intros [= <-].
  - intros H. apply bind_Ok in H as (st1 & H1 & H2).
    apply bind_Ok in H1 as (v & Hv & H1).
    pose proof (Hno (i, x) v ltac:(left) Hv) as Hb. simpl in Hb.
    rewrite Hb in H1. injection H1 as <-.
    apply IH; [|done]. intros ix w Hin. apply Hno. by right.
Qed.

(** If some element beats the initial best, an element is selected. *)
Lemma scan_update (l : list (nat * A)) (st st' : nat * F) :
  (∃ ix v, ix ∈ l ∧ value (snd ix) = Ok v ∧ better v (snd st) = true) →
  for_each body l st = Ok st' →
  ∃ ix, ix ∈ l ∧ fst st' = fst ix.
Proof.
  revert st. induction l as [|[i x] l IH]; intros [index best];
    intros (ix & w & Hin & Hw & Hb); simpl.
  - by apply elem_of_nil in Hin.
  - intros H. apply bind_Ok in H as (st1 & H1 & H2).
    apply bind_Ok in H1 as (v & Hv & H1).
    destruct (better v best) eqn:Hvb; injection H1 as <-.
    + destruct (scan_index_from _ _ _ H2) as [-> | (ix' & Hin' & E)].
      * exists (i, x). split; [left | reflexivity].
      * exists ix'. split; [by right | exact E].
    + apply elem_of_cons in Hin as [-> | Hin].
      * simpl in Hw, Hb. congruence.
      * destruct (IH (index, best)) as (ix' & Hin' & E); [by eauto | done |].
        exists ix'. split; [by right | exact E].
Qed.

(** The scan returns when every value is defined. *)
Lemma scan_returns (l : list (nat * A)) (st : nat * F) :
  (∀ ix, ix ∈ l → returns (value (snd ix))) → returns (for_each body l st).
Proof.
  revert st. induction l as [|[i x] l IH]; intros [index best] Hall; simpl.
  - by eexists.
  - destruct (Hall (i, x)) as [v Hv]; [left|]. simpl in Hv.
    unfold body at 1, Spec.scan_body. rewrite Hv. simpl.
    destruct (better v best); simpl; apply IH; intros ix Hin;
      apply Hall; by right.
Qed.

End ScanFacts.

Lemma elem_of_enumerate {A} (l : list A) (i : nat) (x : A) :
  (i, x) ∈ enumerate l ↔ l !! i = Some x.
Proof.
  unfold enumerate. rewrite list_elem_of_lookup. split.
  - intros (k & Hk). apply lookup_zip_with_Some in Hk
      as (i' & x' & [= <- <-] & Hi & Hx).
    apply lookup_seq in Hi as [-> _]. exact Hx.
  - intros Hx. exists i. apply lookup_zip_with_Some. exists i, x.
    split; [reflexivity|]. split; [|exact Hx].
    apply lookup_seq. split; [reflexivity|]. by eapply lookup_lt_Some.
Qed.

(** ** Seed selection: medoid and outlier *)

Section SeedFacts.

Context {F : Type} (ops : float_ops F).
Variable total_data : list (list Z).
Variables n_ary weight : string.

Lemma medoid_body_scan (total_sum : list Z) st ip :
  medoid_body ops total_data total_sum n_ary weight st ip
  = Spec.scan_body (Spec.leave_one_out ops total_data total_sum n_ary weight)
      (λ v best, flt ops v best) st ip.
Proof. destruct st, ip. reflexivity. Qed.

Lemma outlier_body_scan (total_sum : list Z) st ip :
  outlier_body ops total_data total_sum n_ary weight st ip
  = Spec.scan_body (Spec.leave_one_out ops total_data total_sum n_ary weight)
      (λ v best, flt ops best v) st ip.
Proof. destruct st, ip. reflexivity. Qed.

(** What a seed scan with comparison [better] and sentinel [best0] returns. *)
Lemma seed_scan_result (better : F → F → bool) (best0 : F)
    (total_sum : list Z) (ph : nat) (st : nat * F) :
  let value := Spec.leave_one_out ops total_data total_sum n_ary weight in
  for_each (Spec.scan_body value better) (enumerate total_data) (ph, best0)
  = Ok st →
  ((∃ pixel v, pixel ∈ total_data ∧ value pixel = Ok v
               ∧ better v best0 = true) →
   (fst st < length total_data)%nat)
  ∧ ((∀ pixel v, pixel ∈ total_data → value pixel = Ok v →
        better v best0 = false) →
     fst st = ph).
Proof.
  intros value Hrun. split.
  - intros (pixel & v & Hin & Hv & Hb).
    apply list_elem_of_lookup in Hin as [i Hi].
    destruct (scan_update value better (enumerate total_data) (ph, best0) st)
      as ([j x] & Hj & ->); [|exact Hrun|].
    + exists (i, pixel), v. split; [by apply elem_of_enumerate | done].
    + apply elem_of_enumerate in Hj. simpl. by eapply lookup_lt_Some.
  - intros Hno.
    rewrite (scan_no_update value better (enumerate total_data) (ph, best0) st);
      [reflexivity| |exact Hrun].
    intros [j x] v Hj Hv. apply elem_of_enumerate in Hj. simpl in *.
    eapply Hno; [|exact Hv]. apply list_elem_of_lookup. eauto.
Qed.

End SeedFacts.

(** C10 (as amended): when [calculate_medoid] (resp. [calculate_outlier])
    returns, it returns the position of a fingerprint, hence an index in
    [[0, |collection|)], whenever at least one leave-one-out similarity
    value compares strictly below [3.08] (resp. strictly above [-3.08]);
    if no value does, it returns the placeholder [len(collection[0]) + 1],
    the fingerprint length plus one (an index of the collection as soon as
    the collection has more members than that). *)
Theorem seed_selector_index_or_placeholder {F : Type} (ops : float_ops F)
    (total_data : list (list Z)) (n_ary weight : string) (idx : nat) :
  calculate_medoid ops total_data n_ary weight = Ok idx
  ∨ calculate_outlier ops total_data n_ary weight = Ok idx →
  ∃ total_sum row0,
    np_sum_axis0 total_data = Ok total_sum ∧ total_data !! 0%nat = Some row0
    ∧ let value := Spec.leave_one_out ops total_data total_sum n_ary weight in
      let ph := (length row0 + 1)%nat in
      (calculate_medoid ops total_data n_ary weight = Ok idx →
         ((∃ pixel v, pixel ∈ total_data ∧ value pixel = Ok v
                      ∧ flt ops v (lit ops (308 # 100)) = true) →
          (idx < length total_data)%nat)
         ∧ ((∀ pixel v, pixel ∈ total_data → value pixel = Ok v →
               flt ops v (lit ops (308 # 100)) = false) →
            idx = ph))
      ∧ (calculate_outlier ops total_data n_ary weight = Ok idx →
           ((∃ pixel v, pixel ∈ total_data ∧ value pixel = Ok v
                        ∧ flt ops (lit ops (- (308 # 100))) v = true) →
            (idx < length total_data)%nat)
           ∧ ((∀ pixel v, pixel ∈ total_data → value pixel = Ok v →
                 flt ops (lit ops (- (308 # 100))) v = false) →
              idx = ph)).
Proof.
  intros Hret.
  assert (∃ total_sum row0, np_sum_axis0 total_data = Ok total_sum
                            ∧ total_data !! 0%nat = Some row0)
    as (total_sum & row0 & Hsum & Hrow).
  { destruct Hret as [H | H];
      [unfold calculate_medoid in H | unfold calculate_outlier in H];
      apply bind_Ok in H as (ph & Hph & H);
      apply bind_Ok in H as (total_sum & Hsum & _);
      unfold placeholder, row in Hph;
      destruct (total_data !! 0%nat) as [row0|] eqn:E; try discriminate;
      by exists total_sum, row0. }
  exists total_sum, row0. split; [done|]. split; [done|].
  intros value ph. split.
  - unfold calculate_medoid, placeholder, row. rewrite Hrow, Hsum. simpl.
    intros H. apply bind_Ok in H as (st & Hrun & [= <-]).
    rewrite (for_each_ext _ _ _ _ (medoid_body_scan ops total_data n_ary
               weight total_sum)) in Hrun.
    by apply (seed_scan_result ops total_data n_ary weight
                (λ v best, flt ops v best)) in Hrun.
  - unfold calculate_outlier, placeholder, row. rewrite Hrow, Hsum. simpl.
    intros H. apply bind_Ok in H as (st & Hrun & [= <-]).
    rewrite (for_each_ext _ _ _ _ (outlier_body_scan ops total_data n_ary
               weight total_sum)) in Hrun.
    by apply (seed_scan_result ops total_data n_ary weight
                (λ v best, flt ops best v)) in Hrun.
Qed.

Lemma seed_selector_index_or_placeholder_witness :
  let total_data := [[1; 1; 0]; [1; 0; 0]; [1; 1; 1]; [0; 0; 0]] in
  calculate_medoid Exact.Qops total_data "RR" "nw" = Ok 0%nat
  ∧ (0 < length total_data)%nat.
Proof.
  intros total_data.
  assert (Hret : calculate_medoid Exact.Qops total_data "RR" "nw" = Ok 0%nat)
    by (vm_compute; reflexivity).
  split; [exact Hret|].
  destruct (seed_selector_index_or_placeholder Exact.Qops total_data "RR" "nw"
              0%nat (or_introl Hret))
    as (total_sum & row0 & Hsum & Hrow & Hmedoid & _).
  vm_compute in Hsum. injection Hsum as <-.
  apply (proj1 (Hmedoid Hret)).
  exists [1; 1; 0], (0 # 3)%Q.
  split; [left|]. split; vm_compute; reflexivity.
Defined.

(** With three fingerprints of length one whose leave-one-out values are
    [199], no value compares below [3.08] and the placeholder [2] that is
    returned is the index of the last fingerprint. *)
Lemma seed_placeholder_in_range :
  let total_data := [[100]; [100]; [100]] in
  calculate_medoid Exact.Qops total_data "RR" "nw" = Ok 2%nat
  ∧ (2 < length total_data)%nat
  ∧ np_sum_axis0 total_data = Ok [300]
  ∧ ∀ pixel v,
      pixel ∈ total_data →
      Spec.leave_one_out Exact.Qops total_data [300] "RR" "nw" pixel = Ok v →
      flt Exact.Qops v (lit Exact.Qops (308 # 100)) = false.
Proof.
  intros total_data. split; [vm_compute; reflexivity|].
  split; [simpl; lia|]. split; [reflexivity|].
  intros pixel v Hin Hv.
  assert (pixel = [100]) as ->.
  { unfold total_data in Hin.
    repeat (apply elem_of_cons in Hin as [-> | Hin]; [reflexivity|]).
    by apply elem_of_nil in Hin. }
  vm_compute in Hv. injection Hv as <-. vm_compute. reflexivity.
Qed.

(** Both selectors return when the collection is a non-empty matrix and
    every leave-one-out value is defined. *)
Lemma seed_selectors_return {F : Type} (ops : float_ops F)
    (total_data : list (list Z)) (n_ary weight : string)
    (total_sum row0 : list Z) :
  np_sum_axis0 total_data = Ok total_sum →
  total_data !! 0%nat = Some row0 →
  (∀ pixel, pixel ∈ total_data →
     returns (Spec.leave_one_out ops total_data total_sum n_ary weight pixel)) →
  returns (calculate_medoid ops total_data n_ary weight)
  ∧ returns (calculate_outlier ops total_data n_ary weight).
Proof.
  intros Hsum Hrow Hall.
  assert (Hpix : ∀ ix : nat * list Z, ix ∈ enumerate total_data →
            returns (Spec.leave_one_out ops total_data total_sum n_ary weight
                       (snd ix))).
  { intros [i x] Hin. apply elem_of_enumerate in Hin. apply Hall.
    apply list_elem_of_lookup. eauto. }
  split.
  - unfold calculate_medoid, placeholder, row. rewrite Hrow, Hsum. simpl.
    rewrite (for_each_ext _ _ _ _ (medoid_body_scan ops total_data n_ary
               weight total_sum)).
    destruct (scan_returns _ (λ v best, flt ops v best) _
                ((length row0 + 1)%nat, lit ops (308 # 100)) Hpix) as [st ->].
    by eexists.
  - unfold calculate_outlier, placeholder, row. rewrite Hrow, Hsum. simpl.
    rewrite (for_each_ext _ _ _ _ (outlier_body_scan ops total_data n_ary
               weight total_sum)).
    destruct (scan_returns _ (λ v best, flt ops best v) _
                ((length row0 + 1)%nat, lit ops (- (308 # 100))) Hpix)
      as [st ->].
    by eexists.
Qed.

(** ** The selection loop *)

Section LoopFacts.

Context {F : Type} (ops : float_ops F).
Variable seed : nat.
Variable c_threshold : threshold_arg.
Variable n_ary : string.

(** What one iteration does to the state. *)
Lemma iteration_inv (st st' : state) :
  iteration ops seed c_threshold n_ary st = Ok st' →
  ∃ selected_condensed new_index_n r,
    st_total_data st !! seed = Some selected_condensed
    ∧ st_total_data st !! new_index_n = Some r
    ∧ st_total_data st'
      = <[seed := add_rows selected_condensed r]> (st_total_data st)
    ∧ st_selected_n st' = st_selected_n st ++ [new_index_n]
    ∧ st_n st' = Z.of_nat (length (st_selected_n st')).
Proof.
  unfold iteration. intros H.
  apply bind_Ok in H as (select_from_n & _ & H).
  apply bind_Ok in H as (cond & Hcond & H).
  apply bind_Ok in H as (new & _ & H).
  apply bind_Ok in H as (r & Hr & [= <-]).
  unfold row in Hcond, Hr.
  destruct (st_total_data st !! seed) eqn:E1; [|discriminate].
  destruct (st_total_data st !! new) eqn:E2; [|discriminate].
  injection Hcond as ->. injection Hr as ->.
  exists cond, new, r. simpl. repeat split; done.
Qed.

Lemma iterations_S (k : nat) (st : state) :
  iterations ops (S k) seed c_threshold n_ary st
  = (st' ← iteration ops seed c_threshold n_ary st;
     iterations ops k seed c_threshold n_ary st').
Proof. reflexivity. Qed.

Lemma iterations_snoc (k : nat) (st : state) :
  iterations ops (S k) seed c_threshold n_ary st
  = (st' ← iterations ops k seed c_threshold n_ary st;
     iteration ops seed c_threshold n_ary st').
Proof.
  revert st. induction k as [|k IH]; intros st.
  - rewrite iterations_S. simpl.
    by destruct (iteration ops seed c_threshold n_ary st).
  - rewrite (iterations_S (S k) st), (iterations_S k st).
    destruct (iteration ops seed c_threshold n_ary st) as [st1|e]; simpl;
      [apply IH | reflexivity].
Qed.

(** Growth by one and the seed in front hold for every iteration. *)
Lemma iterations_grow (k : nat) (st st' : state) (rest : list nat) :
  st_selected_n st = seed :: rest →
  iterations ops k seed c_threshold n_ary st = Ok st' →
  length (st_selected_n st') = (length (st_selected_n st) + k)%nat
  ∧ ∃ rest', st_selected_n st' = seed :: rest'.
Proof.
  revert st rest. induction k as [|k IH]; intros st rest Hsel; simpl.
  - intros [= <-]. split; [lia | eauto].
  - intros H. apply bind_Ok in H as (st1 & H1 & H2).
    destruct (iteration_inv _ _ H1) as (cond & new & r & _ & _ & _ & Hs & _).
    destruct (IH st1 (rest ++ [new])) as [Hlen Hhd]; [by rewrite Hs, Hsel|done|].
    split; [|done]. rewrite Hlen, Hs, length_app. simpl. lia.
Qed.

End LoopFacts.

Lemma selected_sum_snoc (collection : list (list Z)) (s : nat)
    (rest : list nat) (j : nat) :
  Spec.selected_sum collection ((s :: rest) ++ [j])
  = add_rows (Spec.selected_sum collection (s :: rest))
             (Spec.fingerprint collection j).
Proof. simpl. by rewrite foldl_app. Qed.


Section InvariantFacts.

Context {F : Type} (ops : float_ops F).
Variable collection : list (list Z).
Variable seed : nat.
Variable c_threshold : threshold_arg.
Variable n_ary : string.

Lemma start_invariant (st0 : state) :
  start collection seed = Ok st0 → Spec.loop_invariant collection seed st0.
Proof.
  unfold start, row. destruct (collection !! seed) as [r|] eqn:E;
    [|discriminate].
  intros [= <-]. unfold Spec.loop_invariant; simpl.
  split; [by exists []|]. split; [apply NoDup_singleton|].
  split; [repeat constructor; by eapply lookup_lt_Some|].
  split; [reflexivity|]. split; [done|]. split; [|reflexivity].
  unfold Spec.fingerprint. by rewrite E.
Qed.

Lemma pick_preserves_invariant (st st' : state) (new_index_n : nat) :
  Spec.loop_invariant collection seed st →
  iteration ops seed c_threshold n_ary st = Ok st' →
  st_selected_n st' = st_selected_n st ++ [new_index_n] →
  new_index_n ∉ st_selected_n st →
  Spec.loop_invariant collection seed st'.
Proof.
  intros ([rest Hsel] & Hnd & Hrange & Hlen & Hother & Hseed & Hn) Hit Hs Hnew.
  destruct (iteration_inv _ _ _ _ _ _ Hit)
    as (cond & new & r & Hcond & Hr & Htd & Hs' & Hn').
  assert (new = new_index_n) as ->.
  { rewrite Hs in Hs'. by apply app_inj_tail in Hs' as [_ ->]. }
  assert (Hne : new_index_n ≠ seed).
  { intros ->. apply Hnew. rewrite Hsel. left. }
  rewrite Hseed in Hcond. injection Hcond as <-.
  rewrite (Hother _ Hne) in Hr.
  unfold Spec.loop_invariant. rewrite Hs, Htd.
  split; [exists (rest ++ [new_index_n]); by rewrite Hsel|].
  split.
  { apply NoDup_app. split; [done|]. split; [|apply NoDup_singleton].
    intros j Hj Hj'. apply list_elem_of_singleton in Hj' as ->. done. }
  split.
  { apply Forall_app. split; [done|]. repeat constructor.
    by eapply lookup_lt_Some. }
  split; [by rewrite length_insert|].
  split.
  { intros i Hi. rewrite list_lookup_insert_ne by done. by apply Hother. }
  split; [|by rewrite <- Hs].
  rewrite list_lookup_insert_eq.
  - rewrite Hsel, selected_sum_snoc. unfold Spec.fingerprint.
    by rewrite Hr.
  - apply lookup_lt_is_Some. rewrite Hseed. by eexists.
Qed.

Lemma picks_invariant (st0 : state) (k : nat) (st : state) :
  Spec.loop_invariant collection seed st0 →
  Spec.picks ops seed c_threshold n_ary k st0 st →
  iterations ops k seed c_threshold n_ary st0 = Ok st
  ∧ Spec.loop_invariant collection seed st.
Proof.
  intros H0. induction 1 as [st|k st st' st'' new Hp IH Hit Hs Hnew].
  - split; [reflexivity | done].
  - destruct (IH H0) as [Hrun Hinv]. split.
    + rewrite iterations_snoc, Hrun. exact Hit.
    + by eapply pick_preserves_invariant.
Qed.

End InvariantFacts.

(** C5 (as amended): in a run of the selection loop from [selected = [seed]],
    after each iteration the selected sequence has grown by exactly one
    index and has the seed as its first element; and as long as every
    iteration appends an index that was not selected before (rather than
    the placeholder [len(total_data[0]) + 1]), the sequence contains no
    duplicate and the running aggregate (row [seed] of the matrix, which
    [selected_condensed] is a view of) equals the element-wise sum of the
    fingerprints, as loaded, of all selected indices. *)
Theorem selection_loop_invariants {F : Type} (ops : float_ops F)
    (collection : list (list Z)) (seed : nat) (c_threshold : threshold_arg)
    (n_ary : string) (st0 : state) :
  start collection seed = Ok st0 →
  (∀ k st,
     iterations ops k seed c_threshold n_ary st0 = Ok st →
     length (st_selected_n st) = S k
     ∧ ∃ rest, st_selected_n st = seed :: rest)
  ∧ (∀ k st,
       Spec.picks ops seed c_threshold n_ary k st0 st →
       iterations ops k seed c_threshold n_ary st0 = Ok st
       ∧ NoDup (st_selected_n st)
       ∧ st_total_data st !! seed
         = Some (Spec.selected_sum collection (st_selected_n st))).
Proof.
  intros Hstart. pose proof (start_invariant _ _ _ Hstart) as Hinv. split.
  - intros k st Hrun.
    assert (Hsel : st_selected_n st0 = [seed]).
    { unfold start in Hstart. apply bind_Ok in Hstart as (r & _ & [= <-]).
      reflexivity. }
    destruct (iterations_grow ops seed c_threshold n_ary k st0 st [] Hsel Hrun)
      as [Hlen Hhd].
    split; [|done]. rewrite Hlen, Hsel. reflexivity.
  - intros k st Hp.
    destruct (picks_invariant ops collection seed c_threshold n_ary st0 k st
                Hinv Hp) as (Hrun & _ & Hnd & _ & _ & _ & Hagg & _).
    done.
Qed.

(** *** Which index an iteration appends *)

Section NewIndexFacts.

Context {F : Type} (ops : float_ops F).
Variable total_data : list (list Z).

Lemma single_body_index (selected_n : list nat) (c : threshold_arg)
    (n_ary weight : string) (l : list nat) (st st' : nat * F) :
  for_each (single_body ops total_data selected_n c n_ary weight) l st = Ok st' →
  fst st' = fst st ∨ fst st' ∈ l.
Proof.
  revert st. induction l as [|i l IH]; intros [index best]; simpl.
  - intros [= <-]. by left.
  - intros H. apply bind_Ok in H as (st1 & H1 & H2).
    apply bind_Ok in H1 as (av & _ & H1).
    destruct (IH _ H2) as [E | Hin]; [|right; by right].
    rewrite E. destruct (flt ops av best); injection H1 as <-; simpl.
    + right. left.
    + by left.
Qed.

Lemma get_single_index_result (indices selected_n : list nat)
    (c : threshold_arg) (n_ary weight : string) (idx ph : nat) :
  placeholder total_data = Ok ph →
  get_single_index ops total_data indices selected_n c n_ary weight = Ok idx →
  idx = ph ∨ idx ∈ indices.
Proof.
  intros Hph. unfold get_single_index. rewrite Hph. simpl.
  intros H. apply bind_Ok in H as (st & Hrun & [= <-]).
  by apply single_body_index in Hrun.
Qed.

Lemma new_index_body_indices (selected_condensed : list Z) (n_total : Z)
    (c : threshold_arg) (n_ary weight : string) (l : list nat)
    (st st' : list nat * F) :
  for_each (new_index_body ops total_data selected_condensed n_total c n_ary
              weight) l st = Ok st' →
  ∀ x, x ∈ fst st' → x ∈ fst st ∨ x ∈ l.
Proof.
  revert st. induction l as [|i l IH]; intros [indices best]; simpl.
  - intros [= <-] x Hx. by left.
  - intros H x Hx. apply bind_Ok in H as (st1 & H1 & H2).
    apply bind_Ok in H1 as (ri & _ & H1).
    apply bind_Ok in H1 as (sim & _ & H1).
    destruct (IH _ H2 x Hx) as [Hin | Hin]; [|right; by right].
    destruct (flt ops sim best); [|destruct (feq ops sim best)];
      injection H1 as <-; simpl in Hin.
    + apply list_elem_of_singleton in Hin as ->. right. left.
    + apply elem_of_app in Hin as [Hin | Hin]; [by left|].
      apply list_elem_of_singleton in Hin as ->. right. left.
    + by left.
Qed.

(** [get_new_index_n] returns one of its candidates or the placeholder. *)
Lemma get_new_index_n_result (selected_condensed : list Z) (n : Z)
    (select_from_n selected_n : list nat) (c : threshold_arg)
    (n_ary weight : string) (idx ph : nat) :
  placeholder total_data = Ok ph →
  get_new_index_n ops total_data selected_condensed n select_from_n selected_n
    c n_ary weight = Ok idx →
  idx = ph ∨ idx ∈ select_from_n.
Proof.
  intros Hph. unfold get_new_index_n. rewrite Hph. simpl.
  intros H. apply bind_Ok in H as ([indices best] & Hrun & H). simpl in H.
  pose proof (new_index_body_indices _ _ _ _ _ _ _ _ Hrun) as Hin.
  simpl in Hin.
  assert (Hidx : idx = ph ∨ idx ∈ indices).
  { destruct indices as [|i [|i' indices]].
    - by eapply get_single_index_result.
    - injection H as <-. right. left.
    - by eapply get_single_index_result. }
  destruct Hidx as [-> | Hidx]; [by left|].
  destruct (Hin idx Hidx) as [Hp | Hc]; [|by right].
  apply list_elem_of_singleton in Hp as ->. by left.
Qed.

End NewIndexFacts.

(** The index appended by an iteration is an index of the collection that
    was not selected yet, or the placeholder. *)
Lemma iteration_appends {F : Type} (ops : float_ops F) (seed : nat)
    (c : threshold_arg) (n_ary : string) (st st' : state) :
  iteration ops seed c n_ary st = Ok st' →
  ∃ new_index_n,
    st_selected_n st' = st_selected_n st ++ [new_index_n]
    ∧ (new_index_n ∉ st_selected_n st
       ∨ placeholder (st_total_data st) = Ok new_index_n).
Proof.
  unfold iteration. intros H.
  apply bind_Ok in H as (select_from_n & Hdel & H).
  apply bind_Ok in H as (cond & Hcond & H).
  apply bind_Ok in H as (new & Hnew & H).
  apply bind_Ok in H as (r & Hr & [= <-]).
  exists new. simpl. split; [reflexivity|].
  destruct (placeholder (st_total_data st)) as [ph|e] eqn:Hph.
  - destruct (get_new_index_n_result _ _ _ _ _ _ _ _ _ _ _ Hph Hnew)
      as [-> | Hin]; [by right|].
    left. unfold np_delete in Hdel.
    destruct (forallb _ _); [|discriminate]. injection Hdel as <-.
    by apply list_elem_of_filter in Hin as [Hin _].
  - unfold get_new_index_n in Hnew. rewrite Hph in Hnew. discriminate.
Qed.

Lemma selection_loop_invariants_witness :
  let collection := [[1; 1; 0]; [1; 0; 0]; [1; 1; 1]; [0; 0; 0]] in
  ∃ st0 st,
    start collection 0%nat = Ok st0
    ∧ iterations Exact.Qops 3 0%nat (CStr "min") "RR" st0 = Ok st
    ∧ st_selected_n st = [0; 3; 1; 2]%nat
    ∧ NoDup (st_selected_n st)
    ∧ st_total_data st !! 0%nat = Some [3; 2; 1].
Proof.
  intros collection.
  set (st0 := {| st_total_data := collection; st_selected_n := [0%nat];
                 st_n := 1 |}).
  set (st1 := {| st_total_data := collection; st_selected_n := [0; 3]%nat;
                 st_n := 2 |}).
  set (st2 := {| st_total_data := [[2; 1; 0]; [1; 0; 0]; [1; 1; 1]; [0; 0; 0]];
                 st_selected_n := [0; 3; 1]%nat; st_n := 3 |}).
  set (st3 := {| st_total_data := [[3; 2; 1]; [1; 0; 0]; [1; 1; 1]; [0; 0; 0]];
                 st_selected_n := [0; 3; 1; 2]%nat; st_n := 4 |}).
  assert (Hstart : start collection 0%nat = Ok st0) by reflexivity.
  assert (Hp : Spec.picks Exact.Qops 0%nat (CStr "min") "RR" 3 st0 st3).
  { apply (Spec.picks_S _ _ _ _ 2 st0 st2 st3 2%nat);
      [|vm_compute; reflexivity|reflexivity|compute_done].
    apply (Spec.picks_S _ _ _ _ 1 st0 st1 st2 1%nat);
      [|vm_compute; reflexivity|reflexivity|compute_done].
    apply (Spec.picks_S _ _ _ _ 0 st0 st0 st1 3%nat);
      [|vm_compute; reflexivity|reflexivity|compute_done].
    apply Spec.picks_O. }
  destruct (selection_loop_invariants Exact.Qops collection 0%nat (CStr "min")
              "RR" st0 Hstart) as [_ Hpicks].
  destruct (Hpicks 3%nat st3 Hp) as (Hrun & Hnd & Hagg).
  exists st0, st3. repeat split; try done.
Defined.

(** A pool of three fingerprints and the script's ten selections: once the
    pool is exhausted the placeholder [2] is appended again and again. *)
Lemma selection_repeats_index :
  ECS_MeDiv Exact.Qops "RR" [[1]; [1]; [1]]
  = Ok [0; 1; 2; 2; 2; 2; 2; 2; 2; 2]%nat
  ∧ ¬ NoDup [0; 1; 2; 2; 2; 2; 2; 2; 2; 2]%nat.
Proof.
  split; [vm_compute; reflexivity|].
  intros H. apply NoDup_cons in H as [_ H]. apply NoDup_cons in H as [_ H].
  apply NoDup_cons in H as [H _]. apply H. left.
Qed.

(** ** Validation at construction *)

Lemma forallb_same_length (fps : list (list Z)) :
  forallb (λ fp, Nat.eqb (length fp) (length (List.nth 0 fps []))) fps = true
  ↔ Spec.same_length fps.
Proof.
  rewrite forallb_forall. unfold Spec.same_length. split.
  - intros H fp1 fp2 H1 H2.
    apply list_elem_of_In, H, Nat.eqb_eq in H1.
    apply list_elem_of_In, H, Nat.eqb_eq in H2. congruence.
  - intros H fp Hin. apply Nat.eqb_eq.
    destruct fps as [|fp0 fps]; [destruct Hin|].
    apply H; [by apply list_elem_of_In | left].
Qed.

Lemma assign_fingerprints_outcome (fingerprints : Base.fingerprints_arg) :
  (Spec.invalid_fingerprints fingerprints
   ∧ Base.assign_fingerprints fingerprints = Raise ValueError)
  ∨ (¬ Spec.invalid_fingerprints fingerprints
     ∧ Base.assign_fingerprints fingerprints = Ok fingerprints).
Proof.
  destruct fingerprints as [n | fps]; simpl.
  - destruct (Z.leb_spec n 0); [left | right]; split; (done || lia).
  - pose proof (forallb_same_length fps) as Hs.
    destruct (Nat.ltb_spec (length fps) 2); [left; split; [by left | done]|].
    destruct (forallb _ fps); simpl.
    + right. split; [|done]. intros [Hd | Hd]; [lia|]. by apply Hd, Hs.
    + left. split; [|done]. right. intros Hsame. apply Hs in Hsame.
      discriminate.
Qed.

Lemma base_assign_c_threshold_outcome (n : Z) (c : threshold_arg) :
  (Spec.threshold_too_large n c
   ∧ Base.assign_c_threshold n c = Raise ValueError)
  ∨ (¬ Spec.threshold_too_large n c
     ∧ (Base.assign_c_threshold n c = Raise TypeError
        ∨ ∃ attr, Base.assign_c_threshold n c = Ok attr)).
Proof.
  unfold Spec.threshold_too_large, Base.assign_c_threshold.
  destruct c as [|s|z|q]; simpl.
  - right. split; [intros (z & [=] & _) | right; by eexists].
  - right. split; [intros (z & [=] & _)|].
    destruct (negb (s =? "dissimilar")%string); simpl;
      [by left | right; by eexists].
  - destruct (Z.geb_spec z n); [left | right].
    + split; [exists z; split; [done | lia] | done].
    + split; [intros (z' & [= <-] & ?); lia | right; by eexists].
  - right. split; [intros (z & [=] & _) | right; by eexists].
Qed.

Lemma np_sum_axis0_same_length (fps : list (list Z)) :
  fps ≠ [] → Spec.same_length fps → returns (np_sum_axis0 fps).
Proof.
  intros Hne Hsame. destruct fps as [|r rs]; [done|]. simpl.
  assert (forallb (λ r', Nat.eqb (length r') (length r)) rs = true) as ->.
  { apply forallb_forall. intros r' Hin. apply Nat.eqb_eq.
    apply Hsame; [right; by apply list_elem_of_In | left]. }
  by eexists.
Qed.

Lemma set_matches_returns (fingerprints : Base.fingerprints_arg) :
  ¬ Spec.invalid_fingerprints fingerprints →
  returns (Base.set_matches fingerprints).
Proof.
  destruct fingerprints as [n | fps]; simpl; intros Hv; [by eexists|].
  destruct (np_sum_axis0_same_length fps) as [t ->].
  - intros ->. apply Hv. left. simpl. lia.
  - pose proof (forallb_same_length fps) as Hs.
    destruct (forallb _ fps); [by apply Hs|].
    exfalso. apply Hv. right. intros H. apply Hs in H. discriminate.
  - by eexists.
Qed.

Lemma exact_div_inject (x : Q) (n : Z) :
  n ≠ 0 → Exact.div x (inject_Z n) = Ok (x / inject_Z n)%Q.
Proof.
  intros Hn. unfold Exact.div.
  assert (Qeq_bool (inject_Z n) 0 = false) as ->; [|reflexivity].
  apply not_true_iff_false. rewrite Qeq_bool_iff. unfold Qeq. simpl. lia.
Qed.

Lemma base_weight_functions_total (n : Z) (w : option string) :
  w ≠ Some "power_n"%string → n ≠ 0 →
  ∃ f_s f_d, Base.weight_functions Exact.Qops n w = Ok (f_s, f_d)
             ∧ ∀ dk, returns (f_s dk) ∧ returns (f_d dk).
Proof.
  intros Hw Hn. unfold Base.weight_functions.
  destruct w as [w|]; [|do 2 eexists; split; [done|]; split; by eexists].
  destruct (String.eqb_spec w "power_n"); [congruence|].
  destruct (w =? "fraction")%string.
  - do 2 eexists. split; [reflexivity|]. intros dk.
    unfold fraction_f_s, fraction_f_d. simpl.
    rewrite !exact_div_inject by done. split; by eexists.
  - do 2 eexists. split; [reflexivity|]. split; by eexists.
Qed.

Lemma map_result_outcome {A B} (f : A → result B) (l : list A) :
  (∀ x, returns (f x) ∨ f x = Raise AttributeError) →
  returns (Base.map_result f l) ∨ Base.map_result f l = Raise AttributeError.
Proof.
  intros Hf. induction l as [|x l IH]; simpl; [left; by eexists|].
  destruct (Hf x) as [[y ->] | ->]; simpl; [|by right].
  destruct IH as [[ys ->] | ->]; simpl; [left; by eexists | by right].
Qed.

Lemma base_set_w_factor_outcome (n : Z) (attr : option Z)
    (d_vector : list Z) (w : option string) :
  w ≠ Some "power_n"%string → n ≠ 0 →
  returns (Base.set_w_factor Exact.Qops n attr d_vector w)
  ∨ Base.set_w_factor Exact.Qops n attr d_vector w = Raise AttributeError.
Proof.
  intros Hw Hn. unfold Base.set_w_factor.
  destruct (base_weight_functions_total n w Hw Hn)
    as (f_s & f_d & -> & Htotal). simpl.
  apply map_result_outcome. intros dk. unfold Base.weight_at.
  destruct attr as [c|]; simpl; [left | by right].
  destruct (c <? dk); apply Htotal.
Qed.

(** After successful validation the constructor does not raise
    [ValueError]. *)
Lemma base_init_after_validation (fingerprints : Base.fingerprints_arg)
    (c : threshold_arg) (w : option string) (attr : option Z) :
  w ≠ Some "power_n"%string →
  ¬ Spec.invalid_fingerprints fingerprints →
  Base.assign_c_threshold (Base.n_fingerprints fingerprints) c = Ok attr →
  Base.init Exact.Qops fingerprints c w ≠ Raise ValueError.
Proof.
  intros Hw Hv Hc. unfold Base.init.
  destruct (assign_fingerprints_outcome fingerprints) as [[? _] | [_ ->]];
    [done|]. simpl. rewrite Hc. simpl.
  destruct (set_matches_returns fingerprints Hv) as [matches ->]. simpl.
  assert (Hn : Base.n_fingerprints fingerprints ≠ 0).
  { destruct fingerprints as [n | fps]; simpl in *; [lia|].
    intros E. apply Hv. left. lia. }
  destruct (base_set_w_factor_outcome (Base.n_fingerprints fingerprints) attr
              (Base.set_d_vector (Base.n_fingerprints fingerprints)) w Hw Hn)
    as [[weights ->] | ->]; simpl; [|discriminate].
  destruct attr; simpl; discriminate.
Qed.

Lemma ecs_assign_c_threshold_ValueError (n : Z) (c : threshold_arg) :
  2 ≤ n →
  assign_c_threshold n c = Raise ValueError ↔ Spec.threshold_too_large n c.
Proof.
  intros Hn. pose proof (Z.mod_pos_bound n 2) as Hm.
  pose proof (ceil_half_spec n) as Hh.
  assert (Hmod : (n mod 2 >=? n) = false)
    by (destruct (Z.geb_spec (n mod 2) n); [lia | done]).
  assert (Hceil : (ceil_half n >=? n) = false)
    by (destruct (Z.geb_spec (ceil_half n) n); [lia | done]).
  unfold Spec.threshold_too_large, assign_c_threshold.
  destruct c as [|s|z|q]; simpl.
  - rewrite Hmod. simpl. split; [discriminate | intros (z & [=] & _)].
  - split; [|intros (z & [=] & _)].
    destruct (s =? "")%string, (s =? "min")%string; simpl;
      rewrite ?Hmod; simpl; try discriminate;
      destruct (s =? "dissimilar")%string; simpl; rewrite ?Hceil; simpl;
      discriminate.
  - destruct (Z.eqb_spec z 0) as [-> | Hz]; simpl.
    + rewrite Hmod. simpl. split; [discriminate|].
      intros (z & [= <-] & ?). lia.
    + destruct (Z.geb_spec z n); simpl.
      * split; [|done]. intros _. exists z. split; [done | lia].
      * split; [discriminate|]. intros (z' & [= <-] & ?). lia.
  - split; [|intros (z & [=] & _)].
    destruct (Qeq_bool q 0); simpl; rewrite ?Hmod; simpl; discriminate.
Qed.

(** C8 (as amended): constructing the counter engine raises [ValueError],
    in its two validation steps and hence before any counting work,
    exactly when fewer than 2 fingerprints are provided, when the
    fingerprints do not all have the same length, when a population given
    as an integer is not positive, or when an integer [c_threshold] is
    greater than or equal to [n]; [calculate_counters] rejects the same
    integer thresholds for [n >= 2].  No counters are produced in these
    cases.  (The weight scheme is not validated; the [w_factor] value
    ["power_n"], whose parsing fails, is set aside.) *)
Theorem construction_validation (fingerprints : Base.fingerprints_arg)
    (c_threshold : threshold_arg) (w_factor : option string) :
  w_factor ≠ Some "power_n"%string →
  (Base.init Exact.Qops fingerprints c_threshold w_factor = Raise ValueError
   ↔ Spec.rejected fingerprints c_threshold)
  ∧ (Spec.rejected fingerprints c_threshold →
     (fps ← Base.assign_fingerprints fingerprints;
      Base.assign_c_threshold (Base.n_fingerprints fps) c_threshold)
     = Raise ValueError)
  ∧ (∀ n, 2 ≤ n →
       assign_c_threshold n c_threshold = Raise ValueError
       ↔ Spec.threshold_too_large n c_threshold).
Proof.
  intros Hw.
  pose proof (assign_fingerprints_outcome fingerprints) as Hf.
  pose proof (base_assign_c_threshold_outcome
                (Base.n_fingerprints fingerprints) c_threshold) as Hc.
  split; [split|split].
  - intros Hinit.
    destruct Hf as [[Hinv _] | [Hval Hfok]]; [by left|].
    destruct Hc as [[Hlarge _] | [_ [Hty | [attr Hattr]]]]; [by right| |].
    + unfold Base.init in Hinit. rewrite Hfok in Hinit. simpl in Hinit.
      rewrite Hty in Hinit. discriminate.
    + by destruct (base_init_after_validation fingerprints c_threshold
                     w_factor attr Hw Hval Hattr).
  - intros Hrej. unfold Base.init.
    destruct Hf as [[_ ->] | [Hval ->]]; [reflexivity|]. simpl.
    destruct Hrej as [Hinv | Hlarge]; [done|].
    destruct Hc as [[_ ->] | [Hnot _]]; [reflexivity | done].
  - intros Hrej.
    destruct Hf as [[_ ->] | [Hval ->]]; [reflexivity|]. simpl.
    destruct Hrej as [Hinv | Hlarge]; [done|].
    destruct Hc as [[_ ->] | [Hnot _]]; [reflexivity | done].
  - intros n Hn. by apply ecs_assign_c_threshold_ValueError.
Qed.

Lemma construction_validation_witness :
  Some "fraction"%string ≠ Some "power_n"%string
  ∧ Spec.rejected (Base.FArray [[1; 0; 1]]) CNone
  ∧ Base.init Exact.Qops (Base.FArray [[1; 0; 1]]) CNone
      (Some "fraction"%string) = Raise ValueError
  ∧ assign_c_threshold 4 (CInt 4) = Raise ValueError.
Proof.
  assert (Hw : Some "fraction"%string ≠ Some "power_n"%string)
    by discriminate.
  assert (Hrej : Spec.rejected (Base.FArray [[1; 0; 1]]) CNone)
    by (left; left; simpl; lia).
  split; [exact Hw|]. split; [exact Hrej|]. split.
  - apply (proj1 (construction_validation (Base.FArray [[1; 0; 1]]) CNone
                    (Some "fraction"%string) Hw)), Hrej.
  - apply (proj2 (proj2 (construction_validation (Base.FInt 4) (CInt 4)
                           (Some "fraction"%string) Hw)) 4 ltac:(lia)).
    exists 4. split; [reflexivity | lia].
Defined.

(** A weighting power that is zero or negative is not rejected: both
    engines return counters for [power_-2], and [BaseComparisons] for
    [power_0] as well; in [calculate_counters] the base [0] fails inside
    the counting loop with [ZeroDivisionError]. *)
Lemma nonpositive_power_not_validated :
  let fps := [[1; 1; 0]; [1; 0; 0]; [1; 1; 1]; [0; 0; 0]] in
  returns (Base.init Exact.Qops (Base.FArray fps) CNone
             (Some "power_-2"%string))
  ∧ returns (Base.init Exact.Qops (Base.FArray fps) CNone
               (Some "power_0"%string))
  ∧ returns (calculate_counters Exact.Qops [[3; 2; 1; 4]] CNone
               (Some "power_-2"%string))
  ∧ calculate_counters Exact.Qops [[3; 2; 1; 4]] CNone
      (Some "power_0"%string) = Raise ZeroDivisionError.
Proof.
  intros fps. repeat split; try (eexists; vm_compute; reflexivity).
Qed.

(** ** Histogram counting and per-column counting *)

Section Sums.

(** Conditional left-to-right accumulation is a sum of guarded terms. *)
Lemma foldl_cond_sumZ {A} (cond : A → bool) (g : A → Z) (l : list A) (z : Z) :
  foldl (λ acc x, if cond x then acc + g x else acc) z l
  = z + Spec.sumZ (map (λ x, if cond x then g x else 0) l).
Proof.
  revert z. induction l as [|x l IH]; intros z; simpl; [lia|].
  rewrite IH. destruct (cond x); lia.
Qed.


Lemma sumZ_add {A} (f g : A → Z) (l : list A) :
  Spec.sumZ (map (λ x, f x + g x) l)
  = Spec.sumZ (map f l) + Spec.sumZ (map g l).
Proof. induction l as [|x l IH]; simpl; [reflexivity | rewrite IH; lia]. Qed.


Lemma sumZ_ext {A} (f g : A → Z) (l : list A) :
  (∀ x, x ∈ l → f x = g x) → Spec.sumZ (map f l) = Spec.sumZ (map g l).
Proof.
  induction l as [|x l IH]; intros H; simpl; [reflexivity|].
  rewrite H by left. rewrite IH; [reflexivity|]. intros y Hy. apply H.
  by right.
Qed.

Lemma sumQ_ext {A} (f g : A → Q) (l : list A) :
  (∀ x, x ∈ l → (f x == g x)%Q) →
  (Spec.sumQ (map f l) == Spec.sumQ (map g l))%Q.
Proof.
  induction l as [|x l IH]; intros H; simpl; [reflexivity|].
  rewrite H by left. rewrite IH; [reflexivity|]. intros y Hy. apply H.
  by right.
Qed.

(** A sum of terms that vanish except at one point of a duplicate-free
    list. *)
Lemma sumZ_point (s : Z) (v : Z) (l : list Z) :
  NoDup l →
  Spec.sumZ (map (λ k, if decide (s = k) then v else 0) l)
  = if decide (s ∈ l) then v else 0.
Proof.
  induction 1 as [|k l Hk Hnd IH]; simpl; [reflexivity|].
  rewrite IH. destruct (decide (s = k)) as [<- | Hne].
  - rewrite decide_False by done. rewrite decide_True by left. lia.
  - destruct (decide (s ∈ l)) as [Hin | Hnin].
    + rewrite decide_True by (by right). lia.
    + rewrite decide_False; [lia|]. by intros [-> | ?]%elem_of_cons.
Qed.


Lemma sumZ_cons (x : Z) (l : list Z) : Spec.sumZ (x :: l) = x + Spec.sumZ l.
Proof. reflexivity. Qed.

Lemma sumQ_cons (x : Q) (l : list Q) :
  Spec.sumQ (x :: l) = (x + Spec.sumQ l)%Q.
Proof. reflexivity. Qed.

Lemma sumZ_zero {A} (f : A → Z) (l : list A) :
  (∀ x, f x = 0) → Spec.sumZ (map f l) = 0.
Proof.
  intros H. induction l as [|x l IH]; simpl; [reflexivity|].
  rewrite H, IH. reflexivity.
Qed.


End Sums.

Lemma count_nonzero_eq_cons (s : Z) (l : list Z) (k : Z) :
  Base.count_nonzero_eq (s :: l) k
  = (if decide (s = k) then 1 else 0) + Base.count_nonzero_eq l k.
Proof.
  unfold Base.count_nonzero_eq. rewrite filter_cons.
  destruct (decide (s = k)); simpl; lia.
Qed.

Lemma elem_of_range_n1 (n k : Z) : k ∈ Base.range_n1 n ↔ 0 ≤ k ≤ n.
Proof.
  unfold Base.range_n1. rewrite list_elem_of_fmap. split.
  - intros (i & -> & Hi). apply elem_of_seq in Hi. lia.
  - intros Hk. exists (Z.to_nat k). split; [lia|]. apply elem_of_seq. lia.
Qed.

Lemma NoDup_range_n1 (n : Z) : NoDup (Base.range_n1 n).
Proof.
  unfold Base.range_n1. apply NoDup_fmap_2; [|apply NoDup_seq].
  intros i j. lia.
Qed.

Section Histogram.

Variable cls : Z → bool.
Variable R : list Z.
Hypothesis R_nodup : NoDup R.

(** Summing the histogram over a class of column sums counts the columns
    of that class. *)
Lemma histogram_sumZ (l : list Z) :
  (∀ s, s ∈ l → s ∈ R) →
  Spec.sumZ (map (λ k, if cls k then Base.count_nonzero_eq l k else 0) R)
  = Spec.sumZ (map (λ s, if cls s then 1 else 0) l).
Proof.
  induction l as [|s l IH]; intros Hin.
  - simpl. apply sumZ_zero. intros k. by destruct (cls k).
  - rewrite (sumZ_ext _
      (λ k, (if decide (s = k) then (if cls s then 1 else 0) else 0)
            + (if cls k then Base.count_nonzero_eq l k else 0))).
    + rewrite sumZ_add, sumZ_point by done.
      rewrite decide_True by (apply Hin; left).
      rewrite IH by (intros; apply Hin; by right). reflexivity.
    + intros k _. rewrite count_nonzero_eq_cons.
      destruct (decide (s = k)) as [-> | _]; destruct (cls k); lia.
Qed.


End Histogram.

(** *** The sums of [BaseComparisons] over a histogram *)

Lemma foldl_zip_map {A B} (cond : Z → bool) (add : A → B → A) (G : Z → B)
    (R : list Z) (z : A) :
  foldl (λ acc kv, if cond (fst kv) then add acc (snd kv) else acc) z
        (zip R (map G R))
  = foldl (λ acc k, if cond k then add acc (G k) else acc) z R.
Proof.
  revert z. induction R as [|k R IH]; intros z; simpl; [reflexivity|].
  apply IH.
Qed.

Lemma sum_where_histogram_Z (cond : Z → bool) (n : Z) (G : Z → Z) :
  Base.sum_where Z.add 0 cond n (map G (Base.range_n1 n))
  = Spec.sumZ (map (λ k, if cond k then G k else 0) (Base.range_n1 n)).
Proof.
  unfold Base.sum_where. rewrite foldl_zip_map, foldl_cond_sumZ. lia.
Qed.


Lemma keep_dissimilar_map {A} (c n : Z) (G : Z → A) (R : list Z) :
  Base.keep_dissimilar c (map (λ k, Z.abs (2 * k - n)) R) (map G R)
  = map G (filter (λ k, Z.abs (2 * k - n) ≤ c) R).
Proof.
  unfold Base.keep_dissimilar.
  induction R as [|k R IH]; simpl; [reflexivity|].
  rewrite !filter_cons. simpl.
  destruct (decide (Z.abs (2 * k - n) ≤ c)); simpl; by rewrite IH.
Qed.

Lemma filter_dissimilar_sumZ (c n : Z) (G : Z → Z) (R : list Z) (z : Z) :
  foldl Z.add z (map G (filter (λ k, Z.abs (2 * k - n) ≤ c) R))
  = z + Spec.sumZ (map (λ k, if Spec.dissimilar n c k then G k else 0) R).
Proof.
  revert z. induction R as [|k R IH]; intros z; simpl; [lia|].
  rewrite filter_cons. unfold Spec.dissimilar at 1.
  destruct (decide (Z.abs (2 * k - n) ≤ c)); simpl;
    destruct (Z.leb_spec (Z.abs (2 * k - n)) c); try lia; rewrite IH; lia.
Qed.




(** *** The sums of the per-column loop *)

Lemma Qltb_inject (x y : Z) : Qltb (inject_Z x) (inject_Z y) = (x <? y).
Proof. apply eq_true_iff_eq. by rewrite Qltb_lt, Z.ltb_lt, <- Zlt_Qlt. Qed.

Section ColumnSums.

Variables n c : Z.
Variables f_s f_d : Z → result Q.
Variable H : Z → Q.
Hypothesis c_nonneg : 0 ≤ c.

Let one := Base.one_similar n c.
Let zero := Base.zero_similar n c.
Let dis := Spec.dissimilar n c.


End ColumnSums.

(** *** Histogram counting against the per-column loop *)


Lemma assign_fingerprints_Ok (fingerprints fps : Base.fingerprints_arg) :
  Base.assign_fingerprints fingerprints = Ok fps → fps = fingerprints.
Proof.
  destruct (assign_fingerprints_outcome fingerprints) as [[_ ->] | [_ ->]];
    [discriminate | by intros [= <-]].
Qed.






(** ** The tie-breaker *)





Section StrictMinimumScan.

Variable total_data : list (list Z).
Variable selected_n : list nat.
Variable c_threshold : threshold_arg.
Variables n_ary weight : string.
Variable score : nat → Q.

Let body := single_body Exact.Qops total_data selected_n c_threshold n_ary
              weight.





End StrictMinimumScan.

Section PairwiseAverages.

Variable total_data : list (list Z).
Variable c_threshold : threshold_arg.
Variables n_ary weight : string.




End PairwiseAverages.




(** The call site (lines 311-315): a tie set of two or more candidates is
    handed to the tie-breaker with [c_threshold=None] and [weight='nw'],
    whatever threshold and weight the outer selection uses. *)
Lemma get_new_index_n_ties {F : Type} (ops : float_ops F)
    (total_data : list (list Z)) (selected_condensed : list Z) (n : Z)
    (select_from_n selected_n : list nat) (c : threshold_arg)
    (n_ary weight : string) (ph : nat) (indices : list nat) (best : F) :
  placeholder total_data = Ok ph →
  for_each (new_index_body ops total_data selected_condensed (n + 1) c n_ary
              weight) select_from_n ([ph], lit ops (308 # 100))
  = Ok (indices, best) →
  (2 ≤ length indices)%nat →
  get_new_index_n ops total_data selected_condensed n select_from_n selected_n
    c n_ary weight
  = get_single_index ops total_data indices selected_n CNone n_ary "nw".
Proof.
  intros Hph Hrun Hlen. unfold get_new_index_n. rewrite Hph. simpl.
  rewrite Hrun. simpl.
  destruct indices as [|i1 [|i2 rest]]; simpl in Hlen; (lia || reflexivity).
Qed.


(** * Further properties of the counter engine *)

Lemma split_last_snoc (total_data c_total : list Z) (n : Z) :
  split_last total_data = Ok (c_total, n) ↔ total_data = c_total ++ [n].
Proof.
  unfold split_last. split.
  - destruct total_data as [|x xs]; [discriminate|]. intros [= <- <-].
    rewrite (app_removelast_last x (l := x :: xs)) at 1 by discriminate.
    f_equal. f_equal. destruct xs; reflexivity.
  - intros ->. destruct c_total as [|x xs]; [reflexivity|].
    simpl app. f_equal. f_equal.
    + change (x :: xs ++ [n]) with ((x :: xs) ++ [n]).
      by rewrite removelast_last.
    + by rewrite last_last.
Qed.

Lemma count_if_cons {A} (test : A → bool) (x : A) (l : list A) :
  Columns.count_if test (x :: l)
  = (if test x then 1 else 0) + Columns.count_if test l.
Proof.
  unfold Columns.count_if. simpl. destruct (test x); simpl length; lia.
Qed.

Lemma count_if_nonneg {A} (test : A → bool) (l : list A) :
  0 ≤ Columns.count_if test l.
Proof. unfold Columns.count_if. lia. Qed.

Lemma count_if_ext {A} (f g : A → bool) (l : list A) :
  (∀ x, x ∈ l → f x = g x) → Columns.count_if f l = Columns.count_if g l.
Proof.
  induction l as [|x l IH]; intros H; [reflexivity|].
  rewrite !count_if_cons, (H x) by left. rewrite IH; [reflexivity|].
  intros y Hy. apply H. by right.
Qed.

Section ClassFacts.

Context {W : Type}.
Variable w_add : W → W → W.
Variables f_s f_d : Z → result W.
Variable n : Z.
Variable c : Q.

Let one := Columns.one_similar n c.
Let zero := Columns.zero_similar n c.
Let dis := Columns.dissimilar n c.

(** Every column falls in exactly one class. *)
Lemma classes_partition (s : Z) :
  (if one s then 1 else 0) + (if zero s then 1 else 0)
  + (if dis s then 1 else 0) = 1.
Proof.
  unfold one, zero, dis, Columns.zero_similar, Columns.dissimilar.
  destruct (Columns.one_similar n c s);
    destruct (Qltb c (inject_Z (n - 2 * s))); reflexivity.
Qed.

(** One step of the loop: the weight call of the column, then the counter
    of its class. *)
Lemma count_column_class (t t' : tally W) (s : Z) :
  count_column w_add f_s f_d n c t s = Ok t' →
  ∃ w, Columns.column_weight n c f_s f_d s = Ok w
       ∧ acc_a t' = acc_a t + (if one s then 1 else 0)
       ∧ acc_d t' = acc_d t + (if zero s then 1 else 0)
       ∧ acc_dis t' = acc_dis t + (if dis s then 1 else 0)
       ∧ acc_w_a t' = (if one s then w_add (acc_w_a t) w else acc_w_a t)
       ∧ acc_w_d t' = (if zero s then w_add (acc_w_d t) w else acc_w_d t)
       ∧ acc_w_dis t'
         = (if dis s then w_add (acc_w_dis t) w else acc_w_dis t).
Proof.
  unfold count_column, Columns.column_weight, one, zero, dis,
    Columns.zero_similar, Columns.dissimilar, Columns.one_similar.
  destruct (Qltb c (inject_Z (2 * s - n)));
    [|destruct (Qltb c (inject_Z (n - 2 * s)))];
    intros H; apply bind_Ok in H as (w & Hw & [= <-]); exists w; simpl;
    (split; [exact Hw|]); repeat split; lia.
Qed.


(** The integer counters count the columns of each class, whatever the
    weights are. *)
Lemma loop_counts (cs : list Z) (t t' : tally W) :
  for_each (count_column w_add f_s f_d n c) cs t = Ok t' →
  acc_a t' = acc_a t + Columns.count_if one cs
  ∧ acc_d t' = acc_d t + Columns.count_if zero cs
  ∧ acc_dis t' = acc_dis t + Columns.count_if dis cs
  ∧ ∀ s, s ∈ cs → ∃ w, Columns.column_weight n c f_s f_d s = Ok w.
Proof.
  revert t. induction cs as [|s cs IH]; intros t; simpl.
  - intros [= <-]. unfold Columns.count_if. simpl.
    repeat split; try lia. intros s Hs. by apply elem_of_nil in Hs.
  - intros H. apply bind_Ok in H as (t1 & H1 & H2).
    apply count_column_class in H1 as (w & Hw & Ha & Hd & Hdis & _).
    destruct (IH _ H2) as (Ha' & Hd' & Hdis' & Hdef).
    rewrite !count_if_cons. repeat split; try lia.
    intros s' [-> | Hin]%elem_of_cons; [by exists w | by apply Hdef].
Qed.


Lemma count_if_partition (cs : list Z) :
  Columns.count_if one cs + Columns.count_if zero cs
  + Columns.count_if dis cs = Z.of_nat (length cs).
Proof.
  induction cs as [|s cs IH]; [reflexivity|].
  rewrite !count_if_cons. pose proof (classes_partition s).
  simpl length. lia.
Qed.

End ClassFacts.

Lemma np_sum_axis0_single (r : list Z) : np_sum_axis0 [r] = Ok r.
Proof. reflexivity. Qed.

(** [calculate_counters] as the composition of its stages. *)
Lemma calculate_counters_stages {F : Type} (ops : float_ops F)
    (data_sets : list (list Z)) (c_threshold : threshold_arg)
    (w_factor : option string) (r : counters F) :
  calculate_counters ops data_sets c_threshold w_factor = Ok r
  ↔ ∃ c_total n c f_s f_d,
      np_sum_axis0 data_sets = Ok (c_total ++ [n])
      ∧ assign_c_threshold n c_threshold = Ok c
      ∧ set_w_factor ops n w_factor = Ok (f_s, f_d)
      ∧ count (of_int ops 0) (fadd ops) f_s f_d n (num_val c) c_total = Ok r.
Proof.
  unfold calculate_counters. split.
  - intros H. apply bind_Ok in H as (total & Hsum & H).
    apply bind_Ok in H as ([c_total n] & Hsplit & H).
    apply bind_Ok in H as (c & Hc & H).
    apply bind_Ok in H as ([f_s f_d] & Hw & H).
    apply split_last_snoc in Hsplit as ->.
    by exists c_total, n, c, f_s, f_d.
  - intros (c_total & n & c & f_s & f_d & -> & Hc & Hw & H). simpl.
    rewrite (proj2 (split_last_snoc _ c_total n) eq_refl). simpl.
    rewrite Hc. simpl. rewrite Hw. exact H.
Qed.

(** X1: whenever [calculate_counters] returns, the aggregate has a last
    entry [n] after the column sums, and the integer counters count
    columns: [a], [d] and [total_dis] are the numbers of columns that
    take the first, second and third branch of the loop for the resolved
    threshold, every column is counted exactly once, so [p] is the number
    of columns, for every float arithmetic and weight scheme. *)
Theorem counters_count_columns {F : Type} (ops : float_ops F)
    (data_sets : list (list Z)) (c_threshold : threshold_arg)
    (w_factor : option string) (r : counters F) :
  calculate_counters ops data_sets c_threshold w_factor = Ok r →
  ∃ c_total n c,
    np_sum_axis0 data_sets = Ok (c_total ++ [n])
    ∧ assign_c_threshold n c_threshold = Ok c
    ∧ a r = Columns.count_if (Columns.one_similar n (num_val c)) c_total
    ∧ d r = Columns.count_if (Columns.zero_similar n (num_val c)) c_total
    ∧ total_dis r
      = Columns.count_if (Columns.dissimilar n (num_val c)) c_total
    ∧ p r = Z.of_nat (length c_total)
    ∧ 0 ≤ a r ∧ 0 ≤ d r ∧ 0 ≤ total_dis r.
Proof.
  intros H.
  apply calculate_counters_stages
    in H as (c_total & n & c & f_s & f_d & Hsum & Hc & _ & H).
  exists c_total, n, c. split; [exact Hsum|]. split; [exact Hc|].
  unfold count in H. apply bind_Ok in H as (t & Hloop & [= <-]).
  apply loop_counts in Hloop as (Ha & Hd & Hdis & _).
  pose proof (count_if_partition n (num_val c) c_total) as Hp.
  simpl in *. rewrite Ha, Hd, Hdis.
  repeat split; try lia; apply count_if_nonneg.
Qed.

Lemma counters_count_columns_witness :
  ∃ r, calculate_counters Exact.Qops
         [[3; 0; 2; 1; 3; 1; 0; 1]; [0; 0; 1; 1; 0; 0; 0; 2]]
         (CStr "dissimilar") (Some "fraction"%string) = Ok r
       ∧ a r = 3 ∧ d r = 2 ∧ total_dis r = 2 ∧ p r = 7.
Proof.
  eexists.
  assert (Hr : calculate_counters Exact.Qops
                 [[3; 0; 2; 1; 3; 1; 0; 1]; [0; 0; 1; 1; 0; 0; 0; 2]]
                 (CStr "dissimilar") (Some "fraction"%string) = Ok ?[r])
    by (vm_compute; reflexivity).
  split; [exact Hr|].
  destruct (counters_count_columns Exact.Qops _ _ _ _ Hr)
    as (c_total & n & c & Hsum & Hc & Ha & Hd & Hdis & Hp & _).
  injection Hsum as Hsum.
  apply (app_inj_tail [3; 0; 3; 2; 3; 1; 0] c_total 3 n) in Hsum as [<- <-].
  injection Hc as <-.
  rewrite Ha, Hd, Hdis, Hp. vm_compute. repeat split; reflexivity.
Defined.

(** ** Weighted counters as sums over the columns *)


Lemma sumZ_perm (l l' : list Z) : l ≡ₚ l' → Spec.sumZ l = Spec.sumZ l'.
Proof.
  induction 1 as [|x l l' _ IH|x y l|l l' l'' _ IH1 _ IH2].
  - reflexivity.
  - rewrite !sumZ_cons, IH. reflexivity.
  - rewrite !sumZ_cons. lia.
  - by rewrite IH1.
Qed.



Lemma count_if_sumQ {A} (test : A → bool) (l : list A) :
  (inject_Z (Columns.count_if test l)
   == Spec.sumQ (map (λ x, if test x then 1 else 0) l))%Q.
Proof.
  induction l as [|x l IH]; [reflexivity|].
  rewrite count_if_cons, inject_Z_plus, IH. cbn [map].
  rewrite sumQ_cons. destruct (test x); reflexivity.
Qed.

Lemma sumQ_bounds {A} (g h : A → Q) (l : list A) :
  (∀ x, x ∈ l → (0 <= g x <= h x)%Q) →
  (0 <= Spec.sumQ (map g l) <= Spec.sumQ (map h l))%Q.
Proof.
  induction l as [|x l IH]; intros H; cbn [map].
  - split; apply Qle_refl.
  - rewrite !sumQ_cons. destruct (H x ltac:(left)) as [H1 H2].
    destruct IH as [IH1 IH2]; [intros y Hy; apply H; by right|].
    split.
    + rewrite <- (Qplus_0_r 0). by apply Qplus_le_compat.
    + by apply Qplus_le_compat.
Qed.

Section WeightSums.

Variables f_s f_d : Z → result Q.
Variable n : Z.
Variable c : Q.

Let one := Columns.one_similar n c.
Let zero := Columns.zero_similar n c.
Let dis := Columns.dissimilar n c.
Let H (s : Z) : Q := Spec.value_or 0%Q (Columns.column_weight n c f_s f_d s).

(** The weighted counters are the sums, over the columns of each class,
    of the weights of the columns. *)
Lemma loop_weights (cs : list Z) (t t' : tally Q) :
  for_each (count_column Qplus f_s f_d n c) cs t = Ok t' →
  (acc_w_a t'
   == acc_w_a t + Spec.sumQ (map (λ s, if one s then H s else 0) cs))%Q
  ∧ (acc_w_d t'
     == acc_w_d t + Spec.sumQ (map (λ s, if zero s then H s else 0) cs))%Q
  ∧ (acc_w_dis t'
     == acc_w_dis t + Spec.sumQ (map (λ s, if dis s then H s else 0) cs))%Q.
Proof.
  revert t. induction cs as [|s cs IH]; intros t; cbn [for_each map].
  - intros [= <-]. simpl. repeat split; ring.
  - intros Hrun. apply bind_Ok in Hrun as (t1 & H1 & H2).
    apply count_column_class in H1
      as (w & Hw & _ & _ & _ & Hwa & Hwd & Hwdis).
    destruct (IH _ H2) as (Ha' & Hd' & Hdis').
    assert (EH : H s = w) by (unfold H; by rewrite Hw).
    rewrite !sumQ_cons, Ha', Hd', Hdis', Hwa, Hwd, Hwdis, EH.
    fold one zero dis.
    destruct (one s), (zero s), (dis s); repeat split; ring.
Qed.

End WeightSums.




(** ** The strictest threshold *)

Lemma Qlt_inject_Z (c x : Z) : (inject_Z c < inject_Z x)%Q ↔ c < x.
Proof. by rewrite <- Zlt_Qlt. Qed.

(** X3: with the largest admitted threshold [c_threshold = n - 1] (for a
    population [n >= 2] and column sums in [[0, n]]) a column is
    1-similar only when all [n] fingerprints have a one in it and
    0-similar only when none has: [a] counts the columns of sum [n] and
    [d] the columns of sum [0], every other column is dissimilar. *)
Theorem strictest_threshold_counts_unanimous_columns
    {F : Type} (ops : float_ops F) (c_total : list Z) (n : Z)
    (w_factor : option string) (r : counters F) :
  2 ≤ n →
  Forall (λ s, 0 ≤ s ≤ n) c_total →
  calculate_counters ops [np_append c_total n] (CInt (n - 1)) w_factor
  = Ok r →
  a r = Columns.count_if (λ s, s =? n) c_total
  ∧ d r = Columns.count_if (λ s, s =? 0) c_total
  ∧ total_dis r = Z.of_nat (length c_total) - a r - d r.
Proof.
  intros Hn Hrange Hr.
  apply calculate_counters_stages
    in Hr as (cs & n' & c & f_s & f_d & Hsum & Hc & _ & Hr).
  injection Hsum as Hsum. apply app_inj_tail in Hsum as [<- <-].
  destruct (assign_c_threshold_cases n Hn) as (_ & _ & Hint & _).
  rewrite Hint in Hc by lia. injection Hc as <-.
  unfold count in Hr. apply bind_Ok in Hr as (t & Hloop & [= <-]).
  apply loop_counts in Hloop as (Ha & Hd & Hdis & _).
  pose proof (count_if_partition n (num_val (NInt (n - 1))) c_total) as Hp.
  simpl in *. rewrite Ha, Hd, Hdis.
  assert (E1 : Columns.count_if (Columns.one_similar n (inject_Z (n - 1)))
                 c_total = Columns.count_if (λ s, s =? n) c_total).
  { apply count_if_ext. intros s Hs.
    apply (proj1 (Forall_forall _ _) Hrange) in Hs.
    unfold Columns.one_similar. rewrite Qltb_inject.
    destruct (Z.ltb_spec (n - 1) (2 * s - n)), (Z.eqb_spec s n);
      (reflexivity || lia). }
  assert (E2 : Columns.count_if (Columns.zero_similar n (inject_Z (n - 1)))
                 c_total = Columns.count_if (λ s, s =? 0) c_total).
  { apply count_if_ext. intros s Hs.
    apply (proj1 (Forall_forall _ _) Hrange) in Hs.
    unfold Columns.zero_similar, Columns.one_similar. rewrite !Qltb_inject.
    destruct (Z.ltb_spec (n - 1) (2 * s - n)),
      (Z.ltb_spec (n - 1) (n - 2 * s)), (Z.eqb_spec s 0);
      (reflexivity || lia). }
  rewrite <- E1, <- E2. repeat split; lia.
Qed.

Lemma strictest_threshold_counts_unanimous_columns_witness :
  ∃ r, calculate_counters Exact.Qops [np_append [4; 0; 3; 1; 4; 2] 4]
         (CInt (4 - 1)) (Some "fraction"%string) = Ok r
       ∧ a r = 2 ∧ d r = 1 ∧ total_dis r = 3.
Proof.
  eexists.
  assert (Hr : calculate_counters Exact.Qops [np_append [4; 0; 3; 1; 4; 2] 4]
                 (CInt (4 - 1)) (Some "fraction"%string) = Ok ?[r])
    by (vm_compute; reflexivity).
  split; [exact Hr|].
  destruct (strictest_threshold_counts_unanimous_columns Exact.Qops
              [4; 0; 3; 1; 4; 2] 4 (Some "fraction"%string) _
              ltac:(lia) ltac:(repeat constructor; lia) Hr)
    as (Ha & Hd & Hdis).
  rewrite Hdis, Ha, Hd. vm_compute. repeat split; reflexivity.
Defined.

(** ** Fraction weights *)

Lemma fraction_bounds (x n : Z) :
  0 ≤ x ≤ n → 0 < n → (0 <= inject_Z x / inject_Z n <= 1)%Q.
Proof.
  intros Hx Hn.
  assert (Hq : (0 < inject_Z n)%Q)
    by (change 0%Q with (inject_Z 0); by rewrite <- Zlt_Qlt).
  split.
  - apply Qle_shift_div_l; [exact Hq|]. rewrite Qmult_0_l.
    change 0%Q with (inject_Z 0). rewrite <- Zle_Qle. lia.
  - apply Qle_shift_div_r; [exact Hq|]. rewrite Qmult_1_l.
    rewrite <- Zle_Qle. lia.
Qed.

Lemma exact_div_zero (x : Q) : Exact.div x (inject_Z 0) = Raise ZeroDivisionError.
Proof. reflexivity. Qed.

(** [|2s - n|] has the parity of [n]. *)
Lemma abs_signed_parity (s n : Z) :
  0 ≤ s ≤ n → 0 ≤ Z.abs (2 * s - n) - n mod 2 ≤ n.
Proof.
  intros Hs. pose proof (Z.div_mod n 2 ltac:(lia)) as Hdm.
  pose proof (Z.mod_pos_bound n 2 ltac:(lia)) as Hmb.
  generalize dependent (n mod 2). generalize dependent (n / 2).
  intros q m Hdm Hmb. lia.
Qed.

(** Every weight of the fraction scheme lies in [[0, 1]] on a column
    whose sum is in [[0, n]], for a threshold that is not negative. *)
Lemma fraction_weight_bounds (n : Z) (c : Q) (s : Z) (w : Q) :
  0 ≤ s ≤ n → (0 <= c)%Q →
  Columns.column_weight n c (fraction_f_s Exact.Qops n)
    (fraction_f_d Exact.Qops n) s = Ok w →
  (0 <= w <= 1)%Q.
Proof.
  intros Hs Hc. unfold Columns.column_weight, fraction_f_s, fraction_f_d.
  simpl.
  destruct (decide (n = 0)) as [-> | Hn0].
  { rewrite !exact_div_zero. simpl.
    destruct (Columns.one_similar 0 c s); [discriminate|].
    destruct (Qltb c _); discriminate. }
  assert (Hn : 0 < n) by lia.
  rewrite !exact_div_inject by done. simpl.
  unfold Columns.one_similar.
  destruct (Qltb c (inject_Z (2 * s - n))) eqn:H1.
  - apply Qltb_lt in H1. intros [= <-]. apply fraction_bounds; [|exact Hn].
    assert (Hq : (inject_Z 0 < inject_Z (2 * s - n))%Q)
      by (eapply Qle_lt_trans; eauto).
    apply (proj1 (Qlt_inject_Z 0 (2 * s - n))) in Hq. lia.
  - destruct (Qltb c (inject_Z (n - 2 * s))); intros [= <-].
    + apply fraction_bounds; lia.
    + destruct (fraction_bounds (Z.abs (2 * s - n) - n mod 2) n) as [B1 B2];
        [by apply abs_signed_parity | exact Hn |].
      change (inject_Z 1) with 1%Q. lra.
Qed.

(** A threshold argument that is not negative resolves to a threshold
    that is not negative. *)
Lemma resolved_threshold_nonneg (n : Z) (c_threshold : threshold_arg)
    (c : num) :
  0 ≤ n → Columns.nonneg_threshold c_threshold →
  assign_c_threshold n c_threshold = Ok c → (0 <= num_val c)%Q.
Proof.
  intros Hn Hnn. pose proof (Z.mod_pos_bound n 2 ltac:(lia)) as Hm.
  pose proof (ceil_half_spec n) as Hh.
  assert (Hz : ∀ z, 0 ≤ z → (0 <= inject_Z z)%Q)
    by (intros z Hz; change 0%Q with (inject_Z 0); by rewrite <- Zle_Qle).
  unfold assign_c_threshold.
  destruct c_threshold as [|s|z|q]; simpl.
  - destruct (n mod 2 >=? n); simpl; [discriminate|]. intros [= <-].
    apply Hz. lia.
  - destruct (negb (negb (s =? "")%string) || (s =? "min")%string); simpl.
    + destruct (n mod 2 >=? n); simpl; [discriminate|]. intros [= <-].
      apply Hz. lia.
    + destruct (negb (s =? "dissimilar")%string); simpl; [discriminate|].
      destruct (ceil_half n >=? n); simpl; [discriminate|]. intros [= <-].
      apply Hz. lia.
  - simpl in Hnn. destruct (z =? 0); simpl.
    + destruct (n mod 2 >=? n); simpl; [discriminate|]. intros [= <-].
      apply Hz. lia.
    + destruct (z >=? n); simpl; [discriminate|]. intros [= <-].
      by apply Hz.
  - simpl in Hnn. destruct (Qeq_bool q 0); simpl.
    + destruct (n mod 2 >=? n); simpl; [discriminate|]. intros [= <-].
      apply Hz. lia.
    + intros [= <-]. destruct (Qltb 0 q && Qltb q 1); simpl; [|exact Hnn].
      apply Qmult_le_0_compat; [exact Hnn | by apply Hz].
Qed.

(** The bounds of the weighted counters, with the sums that define the
    totals. *)
Lemma fraction_counters_bounds (c_total : list Z) (n : Z)
    (c_threshold : threshold_arg) (r : counters Q) :
  Forall (λ s, 0 ≤ s ≤ n) c_total →
  Columns.nonneg_threshold c_threshold →
  calculate_counters Exact.Qops [np_append c_total n] c_threshold
    (Some "fraction"%string) = Ok r →
  ((0 <= w_a r <= inject_Z (a r))%Q
   ∧ (0 <= w_d r <= inject_Z (d r))%Q
   ∧ (0 <= total_w_dis r <= inject_Z (total_dis r))%Q)
  ∧ total_w_sim r = (w_a r + w_d r)%Q
  ∧ w_p r = (total_w_sim r + total_w_dis r)%Q
  ∧ total_sim r = a r + d r
  ∧ p r = total_sim r + total_dis r.
Proof.
  intros Hrange Hnn Hr.
  apply calculate_counters_stages
    in Hr as (cs & n' & c & f_s & f_d & Hsum & Hc & Hw & Hr).
  injection Hsum as Hsum. apply app_inj_tail in Hsum as [<- <-].
  injection Hw as <- <-.
  unfold count in Hr. apply bind_Ok in Hr as (t & Hloop & [= <-]).
  pose proof (loop_counts _ _ _ _ _ _ _ _ Hloop) as (Ha & Hd & Hdis & Hdef).
  pose proof (loop_weights _ _ _ _ _ _ _ Hloop) as (Hwa & Hwd & Hwdis).
  simpl in Ha, Hd, Hdis, Hwa, Hwd, Hwdis.
  assert (Hbound : ∀ (cls : Z → bool) s, s ∈ c_total →
            (0 <= (if cls s
                   then Spec.value_or 0
                          (Columns.column_weight n (num_val c)
                             (fraction_f_s Exact.Qops n)
                             (fraction_f_d Exact.Qops n) s)
                   else 0)
             <= (if cls s then 1 else 0))%Q).
  { intros cls s Hs. destruct (cls s); [|split; apply Qle_refl].
    destruct (Hdef s Hs) as (w & Hw). rewrite Hw. simpl.
    apply (fraction_weight_bounds n (num_val c) s w); [|  |exact Hw].
    - by apply (proj1 (Forall_forall _ _) Hrange).
    - destruct c_total as [|s0 rest]; [by apply elem_of_nil in Hs|].
      assert (0 ≤ n) by (inversion Hrange; lia).
      by apply (resolved_threshold_nonneg n c_threshold). }
  pose proof (sumQ_bounds _ _ c_total
                (Hbound (Columns.one_similar n (num_val c)))) as Ba.
  pose proof (sumQ_bounds _ _ c_total
                (Hbound (Columns.zero_similar n (num_val c)))) as Bd.
  pose proof (sumQ_bounds _ _ c_total
                (Hbound (Columns.dissimilar n (num_val c)))) as Bdis.
  rewrite <- !count_if_sumQ in Ba, Bd, Bdis. simpl.
  split; [|repeat split; reflexivity].
  rewrite Ha, Hd, Hdis, Hwa, Hwd, Hwdis. simpl.
  rewrite !Z.add_0_l. change (inject_Z 0) with 0%Q.
  repeat split; lra.
Qed.

(** X4: with the fraction weights, a threshold argument that is not
    negative and column sums in [[0, n]], every weighted counter lies
    between [0] and its unweighted counter (exact arithmetic):
    [0 <= w_a <= a], [0 <= w_d <= d], [0 <= total_w_dis <= total_dis],
    and so for the similarity totals and for [w_p <= p]. *)
Theorem fraction_weighted_counters_bounded (c_total : list Z) (n : Z)
    (c_threshold : threshold_arg) (r : counters Q) :
  Forall (λ s, 0 ≤ s ≤ n) c_total →
  Columns.nonneg_threshold c_threshold →
  calculate_counters Exact.Qops [np_append c_total n] c_threshold
    (Some "fraction"%string) = Ok r →
  (0 <= w_a r <= inject_Z (a r))%Q
  ∧ (0 <= w_d r <= inject_Z (d r))%Q
  ∧ (0 <= total_w_dis r <= inject_Z (total_dis r))%Q
  ∧ (0 <= total_w_sim r <= inject_Z (total_sim r))%Q
  ∧ (0 <= w_p r <= inject_Z (p r))%Q.
Proof.
  intros Hrange Hnn Hr.
  destruct (fraction_counters_bounds c_total n c_threshold r Hrange Hnn Hr)
    as ((Ba & Bd & Bdis) & -> & -> & -> & ->).
  rewrite !inject_Z_plus. repeat split; lra.
Qed.

Lemma fraction_weighted_counters_bounded_witness :
  ∃ r, calculate_counters Exact.Qops [np_append [3; 0; 2; 1; 3] 3] CNone
         (Some "fraction"%string) = Ok r
       ∧ (0 <= w_a r <= inject_Z (a r))%Q
       ∧ (0 <= w_d r <= inject_Z (d r))%Q
       ∧ (0 <= total_w_dis r <= inject_Z (total_dis r))%Q
       ∧ (0 <= total_w_sim r <= inject_Z (total_sim r))%Q
       ∧ (0 <= w_p r <= inject_Z (p r))%Q.
Proof.
  eexists.
  assert (Hr : calculate_counters Exact.Qops [np_append [3; 0; 2; 1; 3] 3]
                 CNone (Some "fraction"%string) = Ok ?[r])
    by (vm_compute; reflexivity).
  split; [exact Hr|].
  apply (fraction_weighted_counters_bounded [3; 0; 2; 1; 3] 3 CNone).
  - repeat constructor; lia.
  - exact I.
  - exact Hr.
Defined.

(** ** The quotient indices lie in the unit interval *)

Lemma div_unit_interval (x y v : Q) :
  Exact.div x y = Ok v → (0 <= x <= y)%Q → (0 <= v <= 1)%Q.
Proof.
  unfold Exact.div. destruct (Qeq_bool y 0) eqn:E; [discriminate|].
  intros [= <-] [H0 H1].
  assert (Hy : (0 < y)%Q).
  { assert (Hy0 : (0 <= y)%Q) by (eapply Qle_trans; eassumption).
    apply (proj1 (Qle_lteq 0 y)) in Hy0 as [? | E0]; [done|].
    apply not_true_iff_false in E. exfalso. apply E. apply Qeq_bool_iff.
    by symmetry. }
  split.
  - apply Qle_shift_div_l; [exact Hy | by rewrite Qmult_0_l].
  - apply Qle_shift_div_r; [exact Hy | by rewrite Qmult_1_l].
Qed.

(** Quotient indices of counters within the bounds of the fraction
    weights. *)
Lemma quotient_index_bounds (r : counters Q) (tbl : dict (dict Q))
    (by_weight : dict Q) (weight n_ary : string) (v : Q) :
  (0 <= w_a r <= inject_Z (a r))%Q →
  (0 <= w_d r <= inject_Z (d r))%Q →
  (0 <= total_w_dis r <= inject_Z (total_dis r))%Q →
  total_w_sim r = (w_a r + w_d r)%Q →
  w_p r = (total_w_sim r + total_w_dis r)%Q →
  total_sim r = a r + d r →
  p r = total_sim r + total_dis r →
  n_ary ∈ Columns.quotient_indices →
  index_table Exact.Qops r = Ok tbl →
  dict_get weight tbl = Ok by_weight →
  dict_get n_ary by_weight = Ok v →
  (0 <= v <= 1)%Q.
Proof.
  intros Ba Bd Bdis Ews Ewp Es Ep Hin Htbl Hbw Hv.
  unfold index_table in Htbl.
  repeat (apply bind_Ok in Htbl as (? & ? & Htbl)).
  injection Htbl as <-.
  unfold Columns.quotient_indices in Hin.
  pose proof (λ num den, div_unit_interval num den v) as Hgoal.
  cbn [dict_get] in Hbw.
  destruct (weight =? "nw")%string;
    [|destruct (weight =? "w")%string; [|discriminate]];
    injection Hbw as <-;
    repeat (apply elem_of_cons in Hin as [-> | Hin]);
    try (by apply elem_of_nil in Hin);
    vm_compute in Hv; injection Hv as ->;
    match goal with
    | Hf : ?f Exact.Qops r = Ok v |- _ =>
        cbv [fai_w gle_w ja_w ja0_w jt_w rt_w rr_w sm_w ss1_w ss2_w
             fai_nw gle_nw ja_nw ja0_nw jt_nw rt_nw rr_nw sm_nw ss1_nw ss2_nw
             fdiv fadd fmul of_int lit Exact.Qops] in Hf;
        apply (Hgoal _ _ Hf)
    end;
    rewrite ?Ewp, ?Ews, ?Ep, ?Es;
    repeat (rewrite inject_Z_plus || rewrite inject_Z_mult);
    change (inject_Z 2) with 2%Q; change (inject_Z 3) with 3%Q; lra.
Qed.

Lemma sim_index_stages {F : Type} (ops : float_ops F)
    (data_sets : list (list Z)) (c_threshold : threshold_arg)
    (weight n_ary : string) (v : F) :
  sim_index ops data_sets c_threshold weight n_ary = Ok v
  ↔ ∃ r tbl by_weight,
      calculate_counters ops data_sets c_threshold (Some "fraction"%string)
      = Ok r
      ∧ index_table ops r = Ok tbl
      ∧ dict_get weight tbl = Ok by_weight
      ∧ dict_get n_ary by_weight = Ok v.
Proof.
  unfold sim_index, gen_sim_dict. split.
  - intros Hv. apply bind_Ok in Hv as (tbl & Htbl & Hv).
    apply bind_Ok in Htbl as (r & Hr & Htbl).
    apply bind_Ok in Hv as (bw & Hbw & Hv). by exists r, tbl, bw.
  - intros (r & tbl & bw & -> & Htbl & Hbw & Hv). simpl.
    rewrite Htbl. simpl. rewrite Hbw. exact Hv.
Qed.

(** The value of a quotient index on a valid aggregate. *)
Lemma sim_index_bounds (c_total : list Z) (n : Z)
    (c_threshold : threshold_arg) (weight n_ary : string) (v : Q) :
  Forall (λ s, 0 ≤ s ≤ n) c_total →
  Columns.nonneg_threshold c_threshold →
  n_ary ∈ Columns.quotient_indices →
  sim_index Exact.Qops [np_append c_total n] c_threshold weight n_ary = Ok v →
  (0 <= v <= 1)%Q.
Proof.
  intros Hrange Hnn Hin Hv.
  apply sim_index_stages in Hv as (r & tbl & bw & Hr & Htbl & Hbw & Hv).
  destruct (fraction_counters_bounds c_total n c_threshold r Hrange Hnn Hr)
    as ((Ba & Bd & Bdis) & Ews & Ewp & Es & Ep).
  by apply (quotient_index_bounds r tbl bw weight n_ary v).
Qed.

(** X5: for a valid aggregate (column sums in [[0, n]]) and a threshold
    argument that is not negative, every index of [gen_sim_dict] that is
    a quotient of counters (Fai, Gle, Ja, Ja0, JT, RT, RR, SM, SS1, SS2,
    weighted or not) lies in [[0, 1]] in exact arithmetic whenever it is
    returned; in particular it is below the sentinel [3.08] and above the
    sentinel [-3.08] of the selection functions. *)
Theorem quotient_indices_in_unit_interval (c_total : list Z) (n : Z)
    (c_threshold : threshold_arg) (weight n_ary : string) (v : Q) :
  Forall (λ s, 0 ≤ s ≤ n) c_total →
  Columns.nonneg_threshold c_threshold →
  n_ary ∈ Columns.quotient_indices →
  sim_index Exact.Qops [np_append c_total n] c_threshold weight n_ary = Ok v →
  (0 <= v <= 1)%Q
  ∧ flt Exact.Qops v (lit Exact.Qops (308 # 100)) = true
  ∧ flt Exact.Qops (lit Exact.Qops (- (308 # 100))) v = true.
Proof.
  intros Hrange Hnn Hin Hv.
  pose proof (sim_index_bounds c_total n c_threshold weight n_ary v
                Hrange Hnn Hin Hv) as [H0 H1].
  split; [by split|]. simpl. split; apply Qltb_lt; lra.
Qed.

Lemma quotient_indices_in_unit_interval_witness :
  ∃ v, sim_index Exact.Qops [np_append [3; 0; 2; 1; 3] 3] CNone "nw" "RR"
       = Ok v
       ∧ (0 <= v <= 1)%Q.
Proof.
  eexists.
  assert (Hv : sim_index Exact.Qops [np_append [3; 0; 2; 1; 3] 3] CNone
                 "nw" "RR" = Ok ?[v])
    by (vm_compute; reflexivity).
  split; [exact Hv|].
  apply (quotient_indices_in_unit_interval [3; 0; 2; 1; 3] 3 CNone
           "nw" "RR" _).
  - repeat constructor; lia.
  - exact I.
  - unfold Columns.quotient_indices. repeat constructor.
  - exact Hv.
Defined.

(** * The element-wise sum of the fingerprints *)

Lemma length_add_rows (r1 r2 : list Z) :
  length r2 = length r1 → length (add_rows r1 r2) = length r1.
Proof. intros H. unfold add_rows. rewrite length_zip_with. lia. Qed.

Lemma lookup_add_rows (r1 r2 : list Z) (j : nat) :
  (j < length r1)%nat → length r2 = length r1 →
  default 0 (add_rows r1 r2 !! j)
  = default 0 (r1 !! j) + default 0 (r2 !! j).
Proof.
  intros Hj Hlen. unfold add_rows. rewrite lookup_zip_with.
  destruct (lookup_lt_is_Some_2 r1 j Hj) as [x ->].
  destruct (lookup_lt_is_Some_2 r2 j ltac:(lia)) as [y ->]. reflexivity.
Qed.

(** The sum of the rows of a rectangular matrix, column by column. *)
Lemma foldl_add_rows_columns (rs : list (list Z)) (r : list Z) :
  Forall (λ r', length r' = length r) rs →
  foldl add_rows r rs
  = map (λ j, Spec.sumZ (Columns.column (r :: rs) j)) (seq 0 (length r)).
Proof.
  revert r. induction rs as [|r1 rs IH]; intros r Hlen.
  - simpl. apply list_eq. intros j. rewrite list_lookup_fmap.
    destruct (decide (j < length r)%nat) as [Hj | Hj].
    + rewrite lookup_seq_lt by done. simpl.
      destruct (lookup_lt_is_Some_2 r j Hj) as [x ->]. simpl. f_equal. lia.
    + rewrite lookup_seq_ge by lia. simpl. apply lookup_ge_None_2. lia.
  - apply Forall_cons in Hlen as [H1 Hlen]. cbn [foldl].
    rewrite IH.
    + rewrite length_add_rows by done. apply map_ext_in. intros j Hj.
      apply in_seq in Hj. unfold Columns.column. cbn [map].
      rewrite !sumZ_cons, lookup_add_rows by (done || lia). lia.
    + rewrite length_add_rows by done. exact Hlen.
Qed.

Lemma forallb_lengths (r : list Z) (rs : list (list Z)) :
  forallb (λ r', Nat.eqb (length r') (length r)) rs = true
  ↔ Forall (λ r', length r' = length r) rs.
Proof.
  rewrite forallb_forall, Forall_forall. split.
  - intros H r' Hin. apply list_elem_of_In in Hin. by apply Nat.eqb_eq, H.
  - intros H r' Hin. apply Nat.eqb_eq, H. by apply list_elem_of_In.
Qed.

Lemma np_sum_axis0_columns (r : list Z) (rs : list (list Z))
    (total : list Z) :
  np_sum_axis0 (r :: rs) = Ok total →
  Forall (λ r', length r' = length r) rs
  ∧ total
    = map (λ j, Spec.sumZ (Columns.column (r :: rs) j)) (seq 0 (length r)).
Proof.
  unfold np_sum_axis0. destruct (forallb _ rs) eqn:E; [|discriminate].
  intros [= <-]. apply forallb_lengths in E.
  split; [exact E | by apply foldl_add_rows_columns].
Qed.

Lemma column_perm (fps fps' : list (list Z)) (j : nat) :
  fps ≡ₚ fps' → Columns.column fps j ≡ₚ Columns.column fps' j.
Proof. intros H. unfold Columns.column. by apply fmap_Permutation. Qed.

(** The order of the rows does not matter, also for the errors. *)
Lemma np_sum_axis0_perm (fps fps' : list (list Z)) :
  fps ≡ₚ fps' → np_sum_axis0 fps = np_sum_axis0 fps'.
Proof.
  intros Hp.
  destruct fps as [|r rs]; [by apply Permutation_nil_l in Hp as ->|].
  destruct fps' as [|r' rs'];
    [by apply Permutation_nil_r in Hp|].
  assert (Hchk : ∀ (x y : list Z) (xs ys : list (list Z)),
            x :: xs ≡ₚ y :: ys →
            forallb (λ r0, Nat.eqb (length r0) (length x)) xs = true →
            forallb (λ r0, Nat.eqb (length r0) (length y)) ys = true
            ∧ length y = length x).
  { intros x y xs ys Hxy Hall.
    assert (Hx : ∀ z, z ∈ x :: xs → length z = length x).
    { intros z [-> | Hz]%elem_of_cons; [done|].
      apply list_elem_of_In in Hz.
      by apply (proj1 (forallb_forall _ _) Hall), Nat.eqb_eq in Hz. }
    assert (Hy : length y = length x)
      by (apply Hx; rewrite Hxy; left).
    split; [|exact Hy]. apply forallb_forall. intros z Hz.
    apply Nat.eqb_eq. rewrite Hy. apply Hx. rewrite Hxy. right.
    by apply list_elem_of_In. }
  simpl.
  destruct (forallb _ rs) eqn:E.
  - destruct (Hchk _ _ _ _ Hp E) as [E' Hlen]. rewrite E'. f_equal.
    rewrite (foldl_add_rows_columns rs r) by (by apply forallb_lengths).
    rewrite (foldl_add_rows_columns rs' r') by (by apply forallb_lengths).
    rewrite Hlen. apply map_ext. intros j. apply sumZ_perm.
    by apply column_perm.
  - destruct (forallb _ rs') eqn:E'; [|reflexivity].
    symmetry in Hp. destruct (Hchk _ _ _ _ Hp E') as [E'' _]. congruence.
Qed.

Lemma same_length_perm (fps fps' : list (list Z)) :
  fps ≡ₚ fps' → Spec.same_length fps → Spec.same_length fps'.
Proof.
  intros Hp H fp1 fp2 H1 H2. apply H; by rewrite Hp.
Qed.

Lemma assign_fingerprints_perm (fps fps' : list (list Z))
    (f : Base.fingerprints_arg) :
  fps ≡ₚ fps' →
  Base.assign_fingerprints (Base.FArray fps) = Ok f →
  Base.assign_fingerprints (Base.FArray fps') = Ok (Base.FArray fps').
Proof.
  intros Hp H.
  destruct (assign_fingerprints_outcome (Base.FArray fps)) as [[_ E] | [Hv _]];
    [congruence|].
  destruct (assign_fingerprints_outcome (Base.FArray fps'))
    as [[Hi _] | [_ E]]; [|exact E].
  exfalso. apply Hv. simpl in *. destruct Hi as [Hl | Hs].
  - left. by rewrite (Permutation_length Hp).
  - right. intros Hsame. apply Hs. by apply (same_length_perm fps).
Qed.

(** X6: the order of the fingerprints does not matter to
    [BaseComparisons]: constructing the object from a permutation of the
    fingerprints succeeds whenever it does for the original order, and
    gives the same threshold, histogram, weights and counters; only the
    stored attribute [fingerprints] differs.  This holds in every float
    arithmetic. *)
Theorem base_init_fingerprint_order {F : Type} (ops : float_ops F)
    (fps fps' : list (list Z)) (c_threshold : threshold_arg)
    (w_factor : option string) (b : Base.comparisons F) :
  fps ≡ₚ fps' →
  Base.init ops (Base.FArray fps) c_threshold w_factor = Ok b →
  Base.init ops (Base.FArray fps') c_threshold w_factor
  = Ok (Objects.with_fingerprints (Base.FArray fps') b).
Proof.
  intros Hp H. unfold Base.init in *.
  apply bind_Ok in H as (f & Hf & H).
  rewrite (assign_fingerprints_perm fps fps' f Hp Hf).
  apply assign_fingerprints_Ok in Hf as ->. cbn [mbind result_mbind result_bind].
  assert (En : Base.n_fingerprints (Base.FArray fps')
               = Base.n_fingerprints (Base.FArray fps))
    by (simpl; by rewrite (Permutation_length Hp)).
  assert (Em : Base.set_matches (Base.FArray fps')
               = Base.set_matches (Base.FArray fps)).
  { unfold Base.set_matches. rewrite En.
    by rewrite (np_sum_axis0_perm fps fps' Hp). }
  rewrite En, Em.
  apply bind_Ok in H as (attr & -> & H).
  cbn [mbind result_mbind result_bind].
  apply bind_Ok in H as (matches & -> & H).
  cbn [mbind result_mbind result_bind].
  apply bind_Ok in H as (weights & -> & H).
  cbn [mbind result_mbind result_bind].
  apply bind_Ok in H as (c & -> & [= <-]). reflexivity.
Qed.

Lemma base_init_fingerprint_order_witness :
  ∃ b, Base.init Exact.Qops (Base.FArray [[1; 0; 1]; [1; 1; 0]; [1; 0; 0]])
         CNone (Some "fraction"%string) = Ok b
       ∧ Base.init Exact.Qops (Base.FArray [[1; 1; 0]; [1; 0; 1]; [1; 0; 0]])
           CNone (Some "fraction"%string)
         = Ok (Objects.with_fingerprints
                 (Base.FArray [[1; 1; 0]; [1; 0; 1]; [1; 0; 0]]) b).
Proof.
  eexists.
  assert (Hb : Base.init Exact.Qops
                 (Base.FArray [[1; 0; 1]; [1; 1; 0]; [1; 0; 0]])
                 CNone (Some "fraction"%string) = Ok ?[b])
    by (vm_compute; reflexivity).
  split; [exact Hb|].
  apply (base_init_fingerprint_order Exact.Qops
           [[1; 0; 1]; [1; 1; 0]; [1; 0; 0]]
           [[1; 1; 0]; [1; 0; 1]; [1; 0; 0]]); [apply perm_swap | exact Hb].
Defined.

(** * Seed selection on binary fingerprints *)

Lemma bits_sum_bounds (l : list Z) :
  Forall (λ x, x = 0 ∨ x = 1) l → 0 ≤ Spec.sumZ l ≤ Z.of_nat (length l).
Proof.
  induction 1 as [|x l Hx _ IH]; [simpl; lia|].
  rewrite sumZ_cons. simpl length. lia.
Qed.

Lemma bits_sum_without (l : list Z) (x : Z) :
  Forall (λ x, x = 0 ∨ x = 1) l → x ∈ l →
  0 ≤ Spec.sumZ l - x ≤ Z.of_nat (length l) - 1.
Proof.
  intros Hbits Hin. apply elem_of_Permutation in Hin as [l' Hp].
  rewrite (sumZ_perm _ _ Hp), (Permutation_length Hp), sumZ_cons.
  rewrite Hp in Hbits. apply Forall_cons in Hbits as [_ Hbits].
  pose proof (bits_sum_bounds l' Hbits). simpl length. lia.
Qed.

Lemma column_bits (rows : list (list Z)) (j : nat) :
  Columns.binary rows → Forall (λ x, x = 0 ∨ x = 1) (Columns.column rows j).
Proof.
  intros Hb. unfold Columns.column. apply Forall_fmap.
  apply (Forall_impl _ _ _ Hb). intros r Hr. simpl.
  destruct (r !! j) as [x|] eqn:E; simpl; [|by left].
  by apply (Forall_lookup_1 _ _ _ _ Hr E).
Qed.

(** The aggregate of a binary collection without one of its members:
    every column sum is between [0] and the number of the others. *)
Lemma leave_one_out_range (total_data : list (list Z))
    (total_sum pixel : list Z) :
  Columns.binary total_data →
  np_sum_axis0 total_data = Ok total_sum →
  pixel ∈ total_data →
  Forall (λ s, 0 ≤ s ≤ Z.of_nat (length total_data) - 1)
         (sub_rows total_sum pixel).
Proof.
  intros Hb Hsum Hin.
  destruct total_data as [|r rs]; [by apply elem_of_nil in Hin|].
  apply np_sum_axis0_columns in Hsum as [Hlen ->].
  apply Forall_lookup. intros j s Hj. unfold sub_rows in Hj.
  apply lookup_zip_with_Some in Hj as (t & x & -> & Ht & Hx).
  rewrite list_lookup_fmap in Ht.
  destruct (seq 0 (length r) !! j) as [j'|] eqn:Ej; [|discriminate].
  apply lookup_seq in Ej as [-> _]. simpl in Ht. injection Ht as <-.
  change (default 0 (r !! j) + Spec.sumZ (Columns.column rs j))
    with (Spec.sumZ (Columns.column (r :: rs) j)).
  replace (Z.of_nat (length (r :: rs)))
    with (Z.of_nat (length (Columns.column (r :: rs) j)))
    by (unfold Columns.column; by rewrite length_map).
  apply bits_sum_without; [by apply column_bits|].
  unfold Columns.column. apply list_elem_of_fmap. exists pixel.
  by rewrite Hx.
Qed.

(** A scan that returns has evaluated every element. *)
Lemma scan_defined {A F} (value : A → result F) (better : F → F → bool)
    (l : list (nat * A)) (st st' : nat * F) :
  for_each (Spec.scan_body value better) l st = Ok st' →
  ∀ ix, ix ∈ l → returns (value (snd ix)).
Proof.
  revert st. induction l as [|[i x] l IH]; intros [index best]; simpl.
  - intros _ ix Hin. by apply elem_of_nil in Hin.
  - intros H. apply bind_Ok in H as (st1 & H1 & H2).
    apply bind_Ok in H1 as (v & Hv & _).
    intros ix [-> | Hin]%elem_of_cons; [by exists v | by eapply IH].
Qed.

(** X7: on a collection of binary fingerprints and for an index that is
    a quotient of counters, [calculate_medoid] and [calculate_outlier]
    never return the placeholder in exact arithmetic: what they return is
    the position of a fingerprint of the collection. *)
Theorem seed_of_binary_collection_is_a_member (total_data : list (list Z))
    (n_ary weight : string) (idx : nat) :
  Columns.binary total_data →
  n_ary ∈ Columns.quotient_indices →
  calculate_medoid Exact.Qops total_data n_ary weight = Ok idx
  ∨ calculate_outlier Exact.Qops total_data n_ary weight = Ok idx →
  (idx < length total_data)%nat.
Proof.
  intros Hb Hq Hret.
  assert (Hval : ∀ total_sum pixel v,
            np_sum_axis0 total_data = Ok total_sum → pixel ∈ total_data →
            Spec.leave_one_out Exact.Qops total_data total_sum n_ary weight
              pixel = Ok v →
            (0 <= v <= 1)%Q).
  { intros total_sum pixel v Hsum Hin Hv. unfold Spec.leave_one_out in Hv.
    apply (sim_index_bounds (sub_rows total_sum pixel)
             (Z.of_nat (length total_data) - 1) CNone weight n_ary v);
      [|exact I|exact Hq|exact Hv].
    by apply leave_one_out_range. }
  assert (Hgen : ∀ (better : Q → Q → bool) (best0 : Q) total_sum ph st,
            np_sum_axis0 total_data = Ok total_sum →
            (∀ v, (0 <= v <= 1)%Q → better v best0 = true) →
            for_each (Spec.scan_body
                        (Spec.leave_one_out Exact.Qops total_data total_sum
                           n_ary weight) better)
                     (enumerate total_data) (ph, best0) = Ok st →
            total_data ≠ [] →
            (fst st < length total_data)%nat).
  { intros better best0 total_sum ph st Hsum Hbeat Hrun Hne.
    destruct total_data as [|r rs] eqn:E; [done|]. rewrite <- E in *.
    assert (Hin : r ∈ total_data) by (rewrite E; left).
    destruct (scan_defined _ _ _ _ _ Hrun (0%nat, r)) as [v Hv].
    { apply elem_of_enumerate. by rewrite E. }
    apply (seed_scan_result Exact.Qops total_data n_ary weight better best0
             total_sum ph st Hrun).
    exists r, v. split; [exact Hin|]. split; [exact Hv|].
    apply Hbeat. by apply (Hval total_sum r). }
  destruct Hret as [H | H];
    [unfold calculate_medoid in H | unfold calculate_outlier in H];
    apply bind_Ok in H as (ph & Hph & H);
    apply bind_Ok in H as (total_sum & Hsum & H);
    apply bind_Ok in H as (st & Hrun & [= <-]).
  - rewrite (for_each_ext _ _ _ _ (medoid_body_scan Exact.Qops total_data
               n_ary weight total_sum)) in Hrun.
    apply (Hgen _ _ _ _ _ Hsum) in Hrun; [exact Hrun| |].
    + intros v [H0 H1]. simpl. apply Qltb_lt. lra.
    + intros ->. discriminate.
  - rewrite (for_each_ext _ _ _ _ (outlier_body_scan Exact.Qops total_data
               n_ary weight total_sum)) in Hrun.
    apply (Hgen _ _ _ _ _ Hsum) in Hrun; [exact Hrun| |].
    + intros v [H0 H1]. simpl. apply Qltb_lt. lra.
    + intros ->. discriminate.
Qed.

Lemma seed_of_binary_collection_is_a_member_witness :
  calculate_outlier Exact.Qops [[1; 1; 0]; [1; 0; 0]; [1; 1; 1]; [0; 0; 0]]
    "JT" "nw" = Ok 3%nat
  ∧ (3 < length [[1; 1; 0]; [1; 0; 0]; [1; 1; 1]; [0; 0; 0]])%nat.
Proof.
  assert (Hret : calculate_outlier Exact.Qops
                   [[1; 1; 0]; [1; 0; 0]; [1; 1; 1]; [0; 0; 0]] "JT" "nw"
                 = Ok 3%nat)
    by (vm_compute; reflexivity).
  split; [exact Hret|].
  apply (seed_of_binary_collection_is_a_member
           [[1; 1; 0]; [1; 0; 0]; [1; 1; 1]; [0; 0; 0]] "JT" "nw" 3).
  - repeat first [apply List.Forall_nil | apply List.Forall_cons | lia].
  - unfold Columns.quotient_indices. repeat constructor.
  - right. exact Hret.
Defined.

(** * The seed is the first optimum *)

Section OrderedScan.

Context {A : Type}.
Variable value : A → result Q.
Variable better : Q → Q → bool.
Hypothesis better_irrefl : ∀ x, better x x = false.
Hypothesis better_trans :
  ∀ x y z, better x y = true → better y z = true → better x z = true.
Hypothesis better_ntrans :
  ∀ x y z, better x y = false → better y z = false → better x z = false.


End OrderedScan.








(** * The greedy step selects a candidate of least similarity *)

Section GreedyFacts.

Variable total_data : list (list Z).
Variable selected_condensed : list Z.
Variable n : Z.
Variable c_threshold : threshold_arg.
Variables n_ary weight : string.

Let value := Greedy.trial Exact.Qops total_data selected_condensed n
               c_threshold n_ary weight.
Let body := new_index_body Exact.Qops total_data selected_condensed (n + 1)
              c_threshold n_ary weight.

Lemma new_index_body_trial (indices : list nat) (best : Q) (i : nat) :
  body (indices, best) i
  = (sim ← value i;
     if Qltb sim best then Ok ([i], sim)
     else if Qeq_bool sim best then Ok (indices ++ [i], best)
     else Ok (indices, best)).
Proof.
  unfold body, value, new_index_body, Greedy.trial.
  destruct (row total_data i); reflexivity.
Qed.

(** The loop keeps the least value seen and the candidates that have
    it. *)
Lemma new_index_loop (l : list nat) (st st' : list nat * Q) :
  for_each body l st = Ok st' →
  (snd st' <= snd st)%Q
  ∧ (∀ i, i ∈ l → ∃ v, value i = Ok v ∧ (snd st' <= v)%Q)
  ∧ (∀ x, x ∈ fst st' →
       (x ∈ fst st ∧ (snd st' == snd st)%Q)
       ∨ (x ∈ l ∧ ∃ v, value x = Ok v ∧ (v == snd st')%Q)).
Proof.
  revert st. induction l as [|i l IH]; intros [indices best];
    cbn [for_each].
  - intros [= <-]. simpl. split; [apply Qle_refl|]. split.
    + intros i Hi. by apply elem_of_nil in Hi.
    + intros x Hx. left. split; [done | reflexivity].
  - intros H. apply bind_Ok in H as (st1 & H1 & H2).
    rewrite new_index_body_trial in H1.
    apply bind_Ok in H1 as (sim & Hsim & H1).
    destruct (IH _ H2) as (Hle & Hall & Hmem). simpl.
    destruct (Qltb sim best) eqn:E1;
      [|destruct (Qeq_bool sim best) eqn:E2]; injection H1 as <-;
      simpl in Hle, Hmem.
    + apply Qltb_lt in E1. split; [lra|]. split.
      * intros j [-> | Hj]%elem_of_cons; [by exists sim | by apply Hall].
      * intros x Hx. right. destruct (Hmem x Hx) as [[Hx1 Hx2] | [Hx1 Hx2]].
        -- apply list_elem_of_singleton in Hx1 as ->.
           split; [left|]. exists sim. split; [done | by symmetry].
        -- split; [by right | done].
    + apply Qeq_bool_iff in E2. split; [done|]. split.
      * intros j [-> | Hj]%elem_of_cons; [|by apply Hall].
        exists sim. split; [done | lra].
      * intros x Hx. destruct (Hmem x Hx) as [[Hx1 Hx2] | [Hx1 Hx2]].
        -- apply elem_of_app in Hx1 as [Hx1 | Hx1]; [by left|].
           apply list_elem_of_singleton in Hx1 as ->. right.
           split; [left|]. exists sim. split; [done | lra].
        -- right. split; [by right | done].
    + apply Qltb_nlt in E1. split; [done|]. split.
      * intros j [-> | Hj]%elem_of_cons; [|by apply Hall].
        exists sim. split; [done | lra].
      * intros x Hx. destruct (Hmem x Hx) as [[Hx1 Hx2] | [Hx1 Hx2]].
        -- by left.
        -- right. split; [by right | done].
Qed.

End GreedyFacts.

(** X10: the greedy step is a minimisation.  In exact arithmetic, when
    [get_new_index_n] returns, the trial similarity of every candidate
    has been evaluated, and the index returned is the placeholder or a
    candidate whose trial similarity (the index of the selected set
    enlarged by that candidate) is the least of all candidates.  With no
    candidate it is the placeholder. *)
Theorem greedy_step_minimises_similarity (total_data : list (list Z))
    (selected_condensed : list Z) (n : Z) (select_from_n selected_n : list nat)
    (c_threshold : threshold_arg) (n_ary weight : string) (idx : nat) :
  get_new_index_n Exact.Qops total_data selected_condensed n select_from_n
    selected_n c_threshold n_ary weight = Ok idx →
  let value := Greedy.trial Exact.Qops total_data selected_condensed n
                 c_threshold n_ary weight in
  (∀ i, i ∈ select_from_n → returns (value i))
  ∧ (placeholder total_data = Ok idx
     ∨ Greedy.minimal value select_from_n idx)
  ∧ (select_from_n = [] → placeholder total_data = Ok idx).
Proof.
  intros H value. unfold get_new_index_n in H.
  apply bind_Ok in H as (ph & Hph & H).
  apply bind_Ok in H as ([indices best] & Hrun & H). simpl in H.
  pose proof (new_index_loop _ _ _ _ _ _ _ _ _ Hrun) as (_ & Hall & Hmem).
  simpl in Hall, Hmem. fold value in Hall, Hmem.
  split; [intros i Hi; destruct (Hall i Hi) as (v & Hv & _); by exists v|].
  split.
  - assert (Hidx : idx = ph ∨ idx ∈ indices).
    { destruct indices as [|i [|i' indices]].
      - by eapply get_single_index_result.
      - injection H as <-. right. left.
      - by eapply get_single_index_result. }
    destruct Hidx as [-> | Hidx]; [by left|].
    destruct (Hmem idx Hidx) as [[Hx _] | [Hx (v & Hv & Ev)]].
    + apply list_elem_of_singleton in Hx as ->. by left.
    + right. split; [done|]. exists v. split; [done|].
      intros j Hj. destruct (Hall j Hj) as (v' & Hv' & Hle).
      exists v'. split; [done | lra].
  - intros ->. simpl in Hrun. injection Hrun as <- <-.
    injection H as <-. exact Hph.
Qed.

Lemma greedy_step_minimises_similarity_witness :
  let total_data := [[1; 1; 0]; [1; 0; 0]; [1; 1; 1]; [0; 0; 0]] in
  let value := Greedy.trial Exact.Qops total_data [1; 1; 0] 1 (CStr "min")
                 "RR" "nw" in
  get_new_index_n Exact.Qops total_data [1; 1; 0] 1 [1; 2; 3]%nat [0%nat]
    (CStr "min") "RR" "nw" = Ok 3%nat
  ∧ (placeholder total_data = Ok 3%nat
     ∨ Greedy.minimal value [1; 2; 3]%nat 3%nat).
Proof.
  intros total_data value.
  assert (Hret : get_new_index_n Exact.Qops total_data [1; 1; 0] 1
                   [1; 2; 3]%nat [0%nat] (CStr "min") "RR" "nw" = Ok 3%nat)
    by (vm_compute; reflexivity).
  split; [exact Hret|].
  exact (proj1 (proj2 (greedy_step_minimises_similarity _ _ _ _ _ _ _ _ _
                         Hret))).
Defined.

(** * The selection loop and the matrix *)

(** X11: the selection loop changes the loaded matrix in one place
    only.  After any number of iterations, whatever indices were
    appended, the matrix has the same number of rows, every row other
    than row [seed] is as before, and the selected sequence is the
    previous one followed by as many new entries as iterations ran. *)
Theorem selection_loop_frame {F : Type} (ops : float_ops F) (seed : nat)
    (c_threshold : threshold_arg) (n_ary : string) (k : nat)
    (st st' : state) :
  iterations ops k seed c_threshold n_ary st = Ok st' →
  length (st_total_data st') = length (st_total_data st)
  ∧ (∀ i, i ≠ seed → st_total_data st' !! i = st_total_data st !! i)
  ∧ ∃ new, st_selected_n st' = st_selected_n st ++ new ∧ length new = k.
Proof.
  revert st. induction k as [|k IH]; intros st; simpl.
  - intros [= <-]. split; [done|]. split; [done|]. exists [].
    by rewrite app_nil_r.
  - intros H. apply bind_Ok in H as (st1 & H1 & H2).
    destruct (iteration_inv _ _ _ _ _ _ H1)
      as (cond & new & r & _ & _ & Htd & Hs & _).
    destruct (IH _ H2) as (Hlen & Hother & news & Hsel & Hk).
    rewrite Hlen, Htd, length_insert. split; [done|]. split.
    + intros i Hi. rewrite (Hother i Hi), Htd.
      by rewrite list_lookup_insert_ne.
    + exists (new :: news). rewrite Hsel, Hs, <- app_assoc. simpl.
      split; [done | by rewrite Hk].
Qed.

Lemma selection_loop_frame_witness :
  ∃ st0 st,
    start [[1; 1; 0]; [1; 0; 0]; [1; 1; 1]; [0; 0; 0]] 0 = Ok st0
    ∧ iterations Exact.Qops 2 0 (CStr "min") "RR" st0 = Ok st
    ∧ length (st_total_data st) = length (st_total_data st0)
    ∧ (∀ i, i ≠ 0%nat → st_total_data st !! i = st_total_data st0 !! i).
Proof.
  eexists. eexists. split; [reflexivity|].
  assert (Hrun : iterations Exact.Qops 2 0 (CStr "min") "RR"
                   {| st_total_data :=
                        [[1; 1; 0]; [1; 0; 0]; [1; 1; 1]; [0; 0; 0]];
                      st_selected_n := [0%nat]; st_n := 1 |} = Ok ?[st])
    by (vm_compute; reflexivity).
  split; [exact Hrun|].
  destruct (selection_loop_frame Exact.Qops 0 (CStr "min") "RR" 2 _ _ Hrun)
    as (Hlen & Hother & _).
  split; [exact Hlen | exact Hother].
Defined.

(** X12: selecting the whole collection gives a permutation.  If,
    starting from [selected = [seed]], as many iterations as there are
    other fingerprints each append an index that was not selected yet,
    then the selected sequence is a permutation of all the indices
    [0 .. N-1] of the collection. *)
Theorem full_selection_is_a_permutation {F : Type} (ops : float_ops F)
    (collection : list (list Z)) (seed : nat) (c_threshold : threshold_arg)
    (n_ary : string) (st0 st : state) :
  start collection seed = Ok st0 →
  Spec.picks ops seed c_threshold n_ary (length collection - 1) st0 st →
  st_selected_n st ≡ₚ seq 0 (length collection).
Proof.
  intros Hstart Hp.
  pose proof (start_invariant _ _ _ Hstart) as Hinv.
  destruct (picks_invariant ops collection seed c_threshold n_ary st0 _ st
              Hinv Hp) as (Hrun & _ & Hnd & Hrange & _).
  assert (Hsel : st_selected_n st0 = [seed]).
  { unfold start in Hstart. apply bind_Ok in Hstart as (r & _ & [= <-]).
    reflexivity. }
  destruct (iterations_grow ops seed c_threshold n_ary _ st0 st [] Hsel Hrun)
    as [Hlen _].
  assert (Hpos : (0 < length collection)%nat).
  { unfold start, row in Hstart.
    destruct (collection !! seed) eqn:E; [|discriminate].
    apply lookup_lt_Some in E. lia. }
  apply submseteq_length_Permutation.
  - apply NoDup_submseteq; [done|]. intros j Hj. apply elem_of_seq.
    apply (proj1 (Forall_forall _ _) Hrange) in Hj. lia.
  - rewrite length_seq, Hlen, Hsel. simpl. lia.
Qed.

Lemma full_selection_is_a_permutation_witness :
  ∃ st0 st,
    start [[1; 1; 0]; [1; 0; 0]; [1; 1; 1]] 0 = Ok st0
    ∧ iterations Exact.Qops 2 0 (CStr "min") "RR" st0 = Ok st
    ∧ st_selected_n st ≡ₚ seq 0 3.
Proof.
  set (collection := [[1; 1; 0]; [1; 0; 0]; [1; 1; 1]]).
  set (st0 := {| st_total_data := collection; st_selected_n := [0%nat];
                 st_n := 1 |}).
  assert (H1 : ∃ st1, iteration Exact.Qops 0 (CStr "min") "RR" st0 = Ok st1
                      ∧ ∃ j, st_selected_n st1 = [0%nat] ++ [j]
                             ∧ j ∉ [0%nat]).
  { eexists. split; [vm_compute; reflexivity|]. eexists.
    split; [reflexivity|]. intros Hin. apply list_elem_of_singleton in Hin.
    discriminate. }
  destruct H1 as (st1 & Hit1 & j1 & Hs1 & Hn1).
  assert (H2 : ∃ st2, iteration Exact.Qops 0 (CStr "min") "RR" st1 = Ok st2
                      ∧ ∃ j, st_selected_n st2 = st_selected_n st1 ++ [j]
                             ∧ j ∉ st_selected_n st1).
  { vm_compute in Hit1. injection Hit1 as <-.
    eexists. split; [vm_compute; reflexivity|]. eexists.
    split; [reflexivity|]. simpl. intros Hin.
    repeat (apply elem_of_cons in Hin as [Hin | Hin]; [discriminate|]).
    by apply elem_of_nil in Hin. }
  destruct H2 as (st2 & Hit2 & j2 & Hs2 & Hn2).
  assert (Hp : Spec.picks Exact.Qops 0 (CStr "min") "RR" 2 st0 st2).
  { eapply Spec.picks_S; [|exact Hit2|exact Hs2|exact Hn2].
    eapply Spec.picks_S; [apply Spec.picks_O|exact Hit1|exact Hs1|exact Hn1]. }
  exists st0, st2. split; [reflexivity|]. split.
  - rewrite (iterations_S Exact.Qops 0 (CStr "min") "RR" 1 st0), Hit1.
    cbn [mbind result_mbind result_bind].
    rewrite (iterations_S Exact.Qops 0 (CStr "min") "RR" 0 st1), Hit2.
    reflexivity.
  - exact (full_selection_is_a_permutation Exact.Qops collection 0
             (CStr "min") "RR" st0 st2 eq_refl Hp).
Defined.

(** * Resolution of the threshold argument *)

(** X13: how [calculate_counters] treats its threshold argument, for a
    population [n >= 2].  It raises [TypeError] exactly for a string
    other than the empty one, ['min'] and ['dissimilar'].  A value that
    is not negative resolves to a threshold that is not negative, and
    that is below [n] unless the argument is a float [>= 1]: such a float
    is used as it is, without any check against [n]. *)
Theorem threshold_resolution (n : Z) (c_threshold : threshold_arg) :
  2 ≤ n →
  (assign_c_threshold n c_threshold = Raise TypeError
   ↔ ∃ s, c_threshold = CStr s ∧ s ≠ ""%string ∧ s ≠ "min"%string
          ∧ s ≠ "dissimilar"%string)
  ∧ (∀ c, assign_c_threshold n c_threshold = Ok c →
       Columns.nonneg_threshold c_threshold →
       (0 <= num_val c)%Q
       ∧ ((∀ q, c_threshold = CFloat q → (q < 1)%Q) →
          (num_val c < inject_Z n)%Q))
  ∧ (∀ q, (1 <= q)%Q →
       assign_c_threshold n (CFloat q) = Ok (NFloat q)).
Proof.
  intros Hn. pose proof (Z.mod_pos_bound n 2 ltac:(lia)) as Hm.
  pose proof (ceil_half_spec n) as Hh.
  assert (Hmod : (n mod 2 >=? n) = false)
    by (destruct (Z.geb_spec (n mod 2) n); [lia | done]).
  assert (Hceil : (ceil_half n >=? n) = false)
    by (destruct (Z.geb_spec (ceil_half n) n); [lia | done]).
  assert (Hz : ∀ z, z < n → (inject_Z z < inject_Z n)%Q)
    by (intros z Hlt; by rewrite <- Zlt_Qlt).
  assert (Hn0 : (0 < inject_Z n)%Q)
    by (change 0%Q with (inject_Z 0); rewrite <- Zlt_Qlt; lia).
  split; [|split].
  - unfold assign_c_threshold. destruct c_threshold as [|s|z|q]; simpl.
    + rewrite Hmod. simpl. split; [discriminate | intros (s & [=] & _)].
    + destruct (String.eqb_spec s "") as [-> | H1]; simpl.
      { rewrite Hmod. simpl. split; [discriminate|].
        by intros (s & [= <-] & ? & _). }
      destruct (String.eqb_spec s "min") as [-> | H2]; simpl.
      { rewrite Hmod. simpl. split; [discriminate|].
        by intros (s & [= <-] & _ & ? & _). }
      destruct (String.eqb_spec s "dissimilar") as [-> | H3]; simpl.
      { rewrite Hceil. simpl. split; [discriminate|].
        by intros (s & [= <-] & _ & _ & ?). }
      split; [|done]. intros _. by exists s.
    + split; [|intros (s & [=] & _)].
      destruct (z =? 0); simpl; rewrite ?Hmod; simpl; [discriminate|].
      destruct (z >=? n); simpl; discriminate.
    + split; [|intros (s & [=] & _)].
      destruct (Qeq_bool q 0); simpl; rewrite ?Hmod; simpl; discriminate.
  - intros c Hc Hnn.
    split; [by apply (resolved_threshold_nonneg n c_threshold); [lia|..]|].
    intros Hq. unfold assign_c_threshold in Hc.
    destruct c_threshold as [|s|z|q]; simpl in Hc.
    + rewrite Hmod in Hc. injection Hc as <-. apply Hz. lia.
    + destruct (negb (negb (s =? "")%string) || (s =? "min")%string);
        simpl in Hc.
      * rewrite Hmod in Hc. injection Hc as <-. apply Hz. lia.
      * destruct (negb (s =? "dissimilar")%string); simpl in Hc;
          [discriminate|].
        rewrite Hceil in Hc. injection Hc as <-. apply Hz. lia.
    + destruct (z =? 0); simpl in Hc.
      * rewrite Hmod in Hc. injection Hc as <-. apply Hz. lia.
      * destruct (Z.geb_spec z n); simpl in Hc; [discriminate|].
        injection Hc as <-. by apply Hz.
    + specialize (Hq q eq_refl). simpl in Hnn.
      destruct (Qeq_bool q 0); simpl in Hc.
      * rewrite Hmod in Hc. injection Hc as <-. apply Hz. lia.
      * injection Hc as <-.
        destruct (Qltb 0 q && Qltb q 1); simpl.
        -- rewrite <- (Qmult_1_l (inject_Z n)) at 2.
           by apply Qmult_lt_compat_r.
        -- apply (Qlt_le_trans _ 1); [done|].
           change 1%Q with (inject_Z 1). rewrite <- Zle_Qle. lia.
  - intros q Hq. unfold assign_c_threshold. simpl.
    assert (Qeq_bool q 0 = false) as ->.
    { apply not_true_iff_false. rewrite Qeq_bool_iff. intros E.
      rewrite E in Hq. lra. }
    simpl. assert (Qltb q 1 = false) as ->; [|by rewrite andb_false_r].
    apply Qltb_nlt. lra.
Qed.

Lemma threshold_resolution_witness :
  ∃ c, assign_c_threshold 5 (CFloat (1 # 2)) = Ok c
       ∧ (0 <= num_val c)%Q ∧ (num_val c < inject_Z 5)%Q.
Proof.
  exists (NFloat ((1 # 2) * inject_Z 5)).
  assert (Hc : assign_c_threshold 5 (CFloat (1 # 2))
               = Ok (NFloat ((1 # 2) * inject_Z 5))) by reflexivity.
  split; [exact Hc|].
  destruct (threshold_resolution 5 (CFloat (1 # 2)) ltac:(lia))
    as (_ & Hrange & _).
  destruct (Hrange _ Hc ltac:(simpl; lra)) as [H0 H1].
  split; [exact H0|]. apply H1. intros q [= <-]. lra.
Defined.

Lemma set_d_vector_cons (n : Z) :
  0 ≤ n → ∃ dk rest, Base.set_d_vector n = dk :: rest.
Proof.
  intros Hn. unfold Base.set_d_vector, Base.range_n1.
  destruct (Z.to_nat (n + 1)) as [|m] eqn:E; [lia|]. simpl. eauto.
Qed.

Lemma valid_fingerprints_positive (fingerprints : Base.fingerprints_arg) :
  ¬ Spec.invalid_fingerprints fingerprints →
  0 < Base.n_fingerprints fingerprints.
Proof.
  destruct fingerprints as [n | fps]; simpl; intros Hv; [lia|].
  destruct (decide (length fps < 2)%nat); [|lia]. exfalso. apply Hv. by left.
Qed.

(** X14: how [BaseComparisons] treats its threshold argument, for valid
    fingerprints (and a weight scheme other than the literal
    ["power_n"]).  A string other than ['dissimilar'] raises [TypeError],
    also ['min'], which [calculate_counters] accepts.  A float that is
    not zero is not rejected by [assign_c_threshold], but the attribute
    [c_threshold] is never set and the constructor fails with
    [AttributeError] when [set_w_factor] reads it.  When the constructor
    returns, the stored threshold is [n mod 2] for [None] (and for
    [0.0]), [ceil(n / 2)] for ['dissimilar'] and the integer itself for an
    integer, [0] included. *)
Theorem base_threshold_outcome (fingerprints : Base.fingerprints_arg)
    (w_factor : option string) :
  ¬ Spec.invalid_fingerprints fingerprints →
  w_factor ≠ Some "power_n"%string →
  let n := Base.n_fingerprints fingerprints in
  (∀ s, s ≠ "dissimilar"%string →
     Base.init Exact.Qops fingerprints (CStr s) w_factor = Raise TypeError)
  ∧ (∀ q, ¬ (q == 0)%Q →
       Base.init Exact.Qops fingerprints (CFloat q) w_factor
       = Raise AttributeError)
  ∧ (∀ c_threshold b,
       Base.init Exact.Qops fingerprints c_threshold w_factor = Ok b →
       Base.c_threshold b
       = match c_threshold with
         | CNone | CFloat _ => n mod 2
         | CStr _ => ceil_half n
         | CInt z => z
         end).
Proof.
  intros Hv Hw n.
  destruct (assign_fingerprints_outcome fingerprints) as [[? _] | [_ Hf]];
    [done|].
  pose proof (valid_fingerprints_positive fingerprints Hv) as Hn.
  fold n in Hn.
  split; [|split].
  - intros s Hs. unfold Base.init. rewrite Hf.
    cbn [mbind result_mbind result_bind].
    unfold Base.assign_c_threshold.
    destruct (String.eqb_spec s "dissimilar"); [done | reflexivity].
  - intros q Hq. unfold Base.init. rewrite Hf.
    cbn [mbind result_mbind result_bind].
    assert (Base.assign_c_threshold (Base.n_fingerprints fingerprints)
              (CFloat q) = Ok None) as ->.
    { unfold Base.assign_c_threshold. simpl.
      assert (Qeq_bool q 0 = false) as ->; [|reflexivity].
      apply not_true_iff_false. by rewrite Qeq_bool_iff. }
    cbn [mbind result_mbind result_bind].
    destruct (set_matches_returns fingerprints Hv) as [matches ->].
    cbn [mbind result_mbind result_bind]. unfold Base.set_w_factor.
    destruct (base_weight_functions_total n w_factor Hw ltac:(lia))
      as (f_s & f_d & Hwf & _).
    fold n. rewrite Hwf. cbn [mbind result_mbind result_bind].
    destruct (set_d_vector_cons n ltac:(lia)) as (dk & rest & ->).
    reflexivity.
  - intros c_threshold b Hinit. unfold Base.init in Hinit.
    rewrite Hf in Hinit. simpl in Hinit.
    apply bind_Ok in Hinit as (attr & Hattr & Hinit).
    apply bind_Ok in Hinit as (matches & _ & Hinit).
    apply bind_Ok in Hinit as (weights & _ & Hinit).
    apply bind_Ok in Hinit as (c & Hc & [= <-]). simpl.
    destruct attr as [c'|]; [injection Hc as ->|discriminate].
    unfold Base.assign_c_threshold in Hattr. fold n in Hattr.
    destruct c_threshold as [|s|z|q]; simpl in Hattr.
    + by injection Hattr as <-.
    + destruct (negb (s =? "dissimilar")%string); simpl in Hattr;
        [discriminate | by injection Hattr as <-].
    + destruct (z >=? n); simpl in Hattr;
        [discriminate | by injection Hattr as <-].
    + destruct (negb (Qeq_bool q 0)); simpl in Hattr;
        [discriminate | by injection Hattr as <-].
Qed.

Lemma base_threshold_outcome_witness :
  Base.init Exact.Qops (Base.FArray [[1; 0; 1]; [1; 1; 0]; [1; 0; 0]])
    (CStr "min") (Some "fraction"%string) = Raise TypeError
  ∧ Base.init Exact.Qops (Base.FArray [[1; 0; 1]; [1; 1; 0]; [1; 0; 0]])
      (CFloat (1 # 2)) (Some "fraction"%string) = Raise AttributeError.
Proof.
  assert (Hv : ¬ Spec.invalid_fingerprints
                   (Base.FArray [[1; 0; 1]; [1; 1; 0]; [1; 0; 0]])).
  { simpl. intros [Hl | Hs]; [lia|]. apply Hs. intros fp1 fp2 H1 H2.
    repeat (apply elem_of_cons in H1 as [-> | H1]);
      repeat (apply elem_of_cons in H2 as [-> | H2]);
      try reflexivity; by (apply elem_of_nil in H1 || apply elem_of_nil in H2). }
  destruct (base_threshold_outcome
              (Base.FArray [[1; 0; 1]; [1; 1; 0]; [1; 0; 0]])
              (Some "fraction"%string) Hv ltac:(discriminate))
    as (Hstr & Hfloat & _).
  split.
  - apply Hstr. discriminate.
  - apply Hfloat. intros E. discriminate E.
Defined.

(** * The theoretical mode *)







(** * Two binary fingerprints *)

Lemma count_if_map {A B} (f : A → B) (test : B → bool) (l : list A) :
  Columns.count_if test (map f l) = Columns.count_if (λ x, test (f x)) l.
Proof.
  induction l as [|x l IH]; [reflexivity|].
  cbn [map]. by rewrite !count_if_cons, IH.
Qed.

Lemma add_rows_zip (r1 r2 : list Z) :
  add_rows r1 r2 = map (λ xy, fst xy + snd xy) (zip r1 r2).
Proof.
  unfold add_rows. revert r2.
  induction r1 as [|x r1 IH]; intros [|y r2]; simpl; try reflexivity.
  by rewrite IH.
Qed.

Lemma elem_of_zip_bits (r1 r2 : list Z) (xy : Z * Z) :
  Pairs.bits r1 → Pairs.bits r2 → xy ∈ zip r1 r2 →
  (fst xy = 0 ∨ fst xy = 1) ∧ (snd xy = 0 ∨ snd xy = 1).
Proof.
  intros H1 H2 Hin. destruct xy as [x y]. simpl. split.
  - apply elem_of_zip_l in Hin. by apply (proj1 (Forall_forall _ _) H1).
  - apply elem_of_zip_r in Hin. by apply (proj1 (Forall_forall _ _) H2).
Qed.

(** The weight of every column of a pair is one. *)
Lemma pair_weight (s : Z) :
  s = 0 ∨ s = 1 ∨ s = 2 →
  Columns.column_weight 2 (inject_Z 0) (fraction_f_s Exact.Qops 2)
    (fraction_f_d Exact.Qops 2) s = Ok 1%Q
  ∨ Columns.column_weight 2 (inject_Z 0) (fraction_f_s Exact.Qops 2)
      (fraction_f_d Exact.Qops 2) s = Ok (2 # 2)%Q
  ∨ Columns.column_weight 2 (inject_Z 0) (fraction_f_s Exact.Qops 2)
      (fraction_f_d Exact.Qops 2) s = Ok (1 - (0 # 2))%Q.
Proof.
  intros [-> | [-> | ->]]; vm_compute; auto.
Qed.

Lemma pair_counters (r1 r2 : list Z) (r : counters Q) :
  Pairs.bits r1 → Pairs.bits r2 →
  calculate_counters Exact.Qops [np_append (add_rows r1 r2) 2] CNone
    (Some "fraction"%string) = Ok r →
  (a r = Pairs.both r1 r2 ∧ d r = Pairs.neither r1 r2
   ∧ total_dis r = Pairs.differ r1 r2)
  ∧ ((w_a r == inject_Z (a r))%Q ∧ (w_d r == inject_Z (d r))%Q
     ∧ (total_w_dis r == inject_Z (total_dis r))%Q)
  ∧ total_w_sim r = (w_a r + w_d r)%Q
  ∧ w_p r = (total_w_sim r + total_w_dis r)%Q
  ∧ total_sim r = a r + d r
  ∧ p r = total_sim r + total_dis r.
Proof.
  intros Hb1 Hb2 Hr.
  apply calculate_counters_stages
    in Hr as (cs & n' & c & f_s & f_d & Hsum & Hc & Hw & Hr).
  injection Hsum as Hsum. apply app_inj_tail in Hsum as [<- <-].
  injection Hc as <-. injection Hw as <- <-.
  unfold count in Hr. apply bind_Ok in Hr as (t & Hloop & [= <-]).
  pose proof (loop_counts _ _ _ _ _ _ _ _ Hloop) as (Ha & Hd & Hdis & Hdef).
  pose proof (loop_weights _ _ _ _ _ _ _ Hloop) as (Hwa & Hwd & Hwdis).
  simpl in Ha, Hd, Hdis, Hwa, Hwd, Hwdis.
  change (inject_Z (2 mod 2)) with (inject_Z 0) in *.
  assert (Hcol : ∀ s, s ∈ add_rows r1 r2 → s = 0 ∨ s = 1 ∨ s = 2).
  { intros s Hs. rewrite add_rows_zip in Hs.
    apply list_elem_of_fmap in Hs as (xy & -> & Hxy).
    destruct (elem_of_zip_bits r1 r2 xy Hb1 Hb2 Hxy) as [[-> | ->] [-> | ->]];
      simpl; auto. }
  assert (HH : ∀ (cls : Z → bool) s, s ∈ add_rows r1 r2 →
            ((if cls s
              then Spec.value_or 0
                     (Columns.column_weight 2 (inject_Z 0)
                        (fraction_f_s Exact.Qops 2)
                        (fraction_f_d Exact.Qops 2) s)
              else 0) == (if cls s then 1 else 0))%Q).
  { intros cls s Hs. destruct (cls s); [|reflexivity].
    destruct (pair_weight s (Hcol s Hs)) as [-> | [-> | ->]]; reflexivity. }
  rewrite (sumQ_ext _ _ _ (HH (Columns.one_similar 2 (inject_Z 0)))),
    <- count_if_sumQ in Hwa.
  rewrite (sumQ_ext _ _ _ (HH (Columns.zero_similar 2 (inject_Z 0)))),
    <- count_if_sumQ in Hwd.
  rewrite (sumQ_ext _ _ _ (HH (Columns.dissimilar 2 (inject_Z 0)))),
    <- count_if_sumQ in Hwdis.
  split; [|split; [|repeat split; reflexivity]].
  - simpl. rewrite Ha, Hd, Hdis, !Z.add_0_l, add_rows_zip, !count_if_map.
    unfold Pairs.both, Pairs.neither, Pairs.differ.
    repeat split; apply count_if_ext; intros xy Hxy;
      destruct (elem_of_zip_bits r1 r2 xy Hb1 Hb2 Hxy)
        as [[-> | ->] [-> | ->]]; reflexivity.
  - simpl. rewrite Ha, Hd, Hdis, Hwa, Hwd, Hwdis, !Z.add_0_l.
    change (inject_Z 0) with 0%Q. repeat split; ring.
Qed.

(** X16: for two binary fingerprints (population [n = 2], default
    threshold, fraction weights) the counters of [calculate_counters] are
    the classical pair counts: [a] is the number of positions where both
    have a one, [d] where both have a zero, [total_dis] where they
    differ; and every weight is one, so that in exact arithmetic each
    weighted counter equals its unweighted counter. *)
Theorem pair_counters_are_classical (r1 r2 : list Z) (r : counters Q) :
  Pairs.bits r1 → Pairs.bits r2 →
  calculate_counters Exact.Qops [np_append (add_rows r1 r2) 2] CNone
    (Some "fraction"%string) = Ok r →
  a r = Pairs.both r1 r2 ∧ d r = Pairs.neither r1 r2
  ∧ total_dis r = Pairs.differ r1 r2
  ∧ (w_a r == inject_Z (a r))%Q ∧ (w_d r == inject_Z (d r))%Q
  ∧ (total_w_dis r == inject_Z (total_dis r))%Q
  ∧ (w_p r == inject_Z (p r))%Q.
Proof.
  intros Hb1 Hb2 Hr.
  destruct (pair_counters r1 r2 r Hb1 Hb2 Hr)
    as ((Ha & Hd & Hdis) & (Hwa & Hwd & Hwdis) & Ews & Ewp & Es & Ep).
  repeat split; try done.
  rewrite Ewp, Ews, Ep, Es, !inject_Z_plus, Hwa, Hwd, Hwdis. reflexivity.
Qed.

Lemma pair_counters_are_classical_witness :
  ∃ r, calculate_counters Exact.Qops
         [np_append (add_rows [1; 1; 0; 0; 1] [1; 0; 0; 1; 1]) 2] CNone
         (Some "fraction"%string) = Ok r
       ∧ a r = 2 ∧ d r = 1 ∧ total_dis r = 2.
Proof.
  eexists.
  assert (Hr : calculate_counters Exact.Qops
                 [np_append (add_rows [1; 1; 0; 0; 1] [1; 0; 0; 1; 1]) 2]
                 CNone (Some "fraction"%string) = Ok ?[r])
    by (vm_compute; reflexivity).
  split; [exact Hr|].
  assert (Hb1 : Pairs.bits [1; 1; 0; 0; 1])
    by (repeat first [apply List.Forall_nil | apply List.Forall_cons | lia]).
  assert (Hb2 : Pairs.bits [1; 0; 0; 1; 1])
    by (repeat first [apply List.Forall_nil | apply List.Forall_cons | lia]).
  destruct (pair_counters_are_classical [1; 1; 0; 0; 1] [1; 0; 0; 1; 1] _
              Hb1 Hb2 Hr) as (Ha & Hd & Hdis & _).
  rewrite Ha, Hd, Hdis. vm_compute. repeat split; reflexivity.
Defined.

Lemma exact_div_value (x y v : Q) : Exact.div x y = Ok v → v = (x / y)%Q.
Proof.
  unfold Exact.div. destruct (Qeq_bool y 0); [discriminate|].
  by intros [= <-].
Qed.

Lemma pair_either (r1 r2 : list Z) :
  Pairs.bits r1 → Pairs.bits r2 →
  Pairs.either r1 r2 = Pairs.both r1 r2 + Pairs.differ r1 r2
  ∧ Pairs.both r1 r2 + Pairs.neither r1 r2 + Pairs.differ r1 r2
    = Z.of_nat (length (zip r1 r2)).
Proof.
  intros Hb1 Hb2. unfold Pairs.either, Pairs.both, Pairs.differ, Pairs.neither.
  assert (Hbits : ∀ xy, xy ∈ zip r1 r2 →
            (fst xy = 0 ∨ fst xy = 1) ∧ (snd xy = 0 ∨ snd xy = 1))
    by (intros xy; by apply elem_of_zip_bits).
  induction (zip r1 r2) as [|xy l IH]; [by split|].
  rewrite !count_if_cons. simpl length.
  destruct IH as [IH1 IH2]; [intros xy' Hin; apply Hbits; by right|].
  destruct (Hbits xy ltac:(left)) as [[-> | ->] [-> | ->]]; simpl; lia.
Qed.

(** X17: for two binary fingerprints the indices of [gen_sim_dict]
    reduce to the classical pairwise coefficients in exact arithmetic,
    weighted or not: JT is the Tanimoto coefficient (positions where both
    have a one over positions where at least one has), RR is the
    fraction of positions where both have a one, SM the fraction of
    positions where they agree. *)
Theorem pair_indices_are_classical (r1 r2 : list Z) (weight : string) :
  Pairs.bits r1 → Pairs.bits r2 →
  let index := sim_index Exact.Qops [np_append (add_rows r1 r2) 2] CNone
                 weight in
  let m := inject_Z (Z.of_nat (length (zip r1 r2))) in
  (∀ v, index "JT"%string = Ok v →
     (v == inject_Z (Pairs.both r1 r2) / inject_Z (Pairs.either r1 r2))%Q)
  ∧ (∀ v, index "RR"%string = Ok v →
       (v == inject_Z (Pairs.both r1 r2) / m)%Q)
  ∧ (∀ v, index "SM"%string = Ok v →
       (v == inject_Z (Pairs.both r1 r2 + Pairs.neither r1 r2) / m)%Q).
Proof.
  intros Hb1 Hb2 index m.
  destruct (pair_either r1 r2 Hb1 Hb2) as [Heither Hlen].
  assert (Hgen : ∀ n_ary v, index n_ary = Ok v →
            ∃ r u1 u2 u3 w1 w2 w3,
              ((a r = Pairs.both r1 r2 ∧ d r = Pairs.neither r1 r2
                ∧ total_dis r = Pairs.differ r1 r2)
               ∧ ((w_a r == inject_Z (a r))%Q ∧ (w_d r == inject_Z (d r))%Q
                  ∧ (total_w_dis r == inject_Z (total_dis r))%Q)
               ∧ total_w_sim r = (w_a r + w_d r)%Q
               ∧ w_p r = (total_w_sim r + total_w_dis r)%Q
               ∧ total_sim r = a r + d r
               ∧ p r = total_sim r + total_dis r)
              ∧ jt_nw Exact.Qops r = Ok u1 ∧ rr_nw Exact.Qops r = Ok u2
              ∧ sm_nw Exact.Qops r = Ok u3
              ∧ jt_w Exact.Qops r = Ok w1 ∧ rr_w Exact.Qops r = Ok w2
              ∧ sm_w Exact.Qops r = Ok w3
              ∧ ((n_ary = "JT"%string → v = u1 ∨ v = w1)
                 ∧ (n_ary = "RR"%string → v = u2 ∨ v = w2)
                 ∧ (n_ary = "SM"%string → v = u3 ∨ v = w3))).
  { intros n_ary v Hv. unfold index in Hv.
    apply sim_index_stages in Hv as (r & tbl & bw & Hr & Htbl & Hbw & Hv).
    pose proof (pair_counters r1 r2 r Hb1 Hb2 Hr) as Hpc.
    unfold index_table in Htbl.
    repeat (apply bind_Ok in Htbl as (? & ? & Htbl)).
    injection Htbl as <-. cbn [dict_get] in Hbw.
    do 7 eexists. split; [exact Hpc|].
    do 6 (split; [eassumption|]).
    destruct (weight =? "nw")%string;
      [|destruct (weight =? "w")%string; [|discriminate]];
      injection Hbw as <-;
      (split; [|split]); intros ->; vm_compute in Hv; injection Hv as ->;
      auto. }
  assert (Hm : (m == inject_Z (Pairs.both r1 r2)
                     + inject_Z (Pairs.neither r1 r2)
                     + inject_Z (Pairs.differ r1 r2))%Q).
  { unfold m. rewrite <- Hlen, !inject_Z_plus. reflexivity. }
  split; [|split]; intros v Hv;
    destruct (Hgen _ v Hv)
      as (r & u1 & u2 & u3 & w1 & w2 & w3
          & ((Ha & Hd & Hdis) & (Hwa & Hwd & Hwdis) & Ews & Ewp & Es & Ep)
          & Hu1 & Hu2 & Hu3 & Hw1 & Hw2 & Hw3 & HJT & HRR & HSM).
  - destruct (HJT eq_refl) as [-> | ->].
    + apply exact_div_value in Hu1 as ->. simpl.
      rewrite Hwa, Ha, Hdis, Heither. reflexivity.
    + apply exact_div_value in Hw1 as ->. simpl.
      rewrite Hwa, Hwdis, Ha, Hdis, Heither, inject_Z_plus. reflexivity.
  - destruct (HRR eq_refl) as [-> | ->].
    + apply exact_div_value in Hu2 as ->. simpl.
      rewrite Hwa, Ep, Es, Ha, Hd, Hdis, Hm, !inject_Z_plus. reflexivity.
    + apply exact_div_value in Hw2 as ->. simpl.
      rewrite Ewp, Ews, Hwa, Hwd, Hwdis, Ha, Hd, Hdis, Hm. reflexivity.
  - destruct (HSM eq_refl) as [-> | ->].
    + apply exact_div_value in Hu3 as ->. simpl.
      rewrite Ews, Hwa, Hwd, Ep, Es, Ha, Hd, Hdis, Hm, !inject_Z_plus.
      reflexivity.
    + apply exact_div_value in Hw3 as ->. simpl.
      rewrite Ewp, Ews, Hwa, Hwd, Hwdis, Ha, Hd, Hdis, Hm, !inject_Z_plus.
      reflexivity.
Qed.

Lemma pair_indices_are_classical_witness :
  ∃ v, sim_index Exact.Qops
         [np_append (add_rows [1; 1; 0; 0; 1] [1; 0; 0; 1; 1]) 2] CNone
         "nw" "JT" = Ok v
       ∧ (v == 2 # 4)%Q.
Proof.
  eexists.
  assert (Hv : sim_index Exact.Qops
                 [np_append (add_rows [1; 1; 0; 0; 1] [1; 0; 0; 1; 1]) 2]
                 CNone "nw" "JT" = Ok ?[v])
    by (vm_compute; reflexivity).
  split; [exact Hv|].
  assert (Hb1 : Pairs.bits [1; 1; 0; 0; 1])
    by (repeat first [apply List.Forall_nil | apply List.Forall_cons | lia]).
  assert (Hb2 : Pairs.bits [1; 0; 0; 1; 1])
    by (repeat first [apply List.Forall_nil | apply List.Forall_cons | lia]).
  destruct (pair_indices_are_classical [1; 1; 0; 0; 1] [1; 0; 0; 1; 1] "nw"
              Hb1 Hb2) as (HJT & _).
  rewrite (HJT _ Hv). vm_compute. reflexivity.
Defined.

(** * The two counter engines agree on observed fingerprints *)




(** The column sums of binary fingerprints. *)
Lemma column_sums_range (fps : list (list Z)) (total : list Z) :
  Columns.binary fps → np_sum_axis0 fps = Ok total →
  Forall (λ s, 0 ≤ s ≤ Z.of_nat (length fps)) total.
Proof.
  intros Hb Hsum. destruct fps as [|r rs]; [discriminate|].
  apply np_sum_axis0_columns in Hsum as [_ ->].
  apply Forall_fmap, Forall_forall. intros j _. simpl.
  pose proof (bits_sum_bounds _ (column_bits (r :: rs) j Hb)) as Hbd.
  replace (length (Columns.column (r :: rs) j)) with (length (r :: rs)) in Hbd
    by (unfold Columns.column; by rewrite length_map).
  exact Hbd.
Qed.







(** * The index classes *)

(** X19: the constructors of [RussellRao], [JaccardTanimoto] and
    [ConsoniTodeschini4] never return an object.  Each of them first
    calls a method ([rr_sim_wdis], [jt_sim_wdis], [ct4_sim_wdis]) that
    neither the class nor [BaseComparisons] defines: when the base
    constructor succeeds the call raises [AttributeError], otherwise the
    error of the base constructor is raised.  This holds for every
    argument and every float arithmetic. *)
Theorem index_constructors_with_undefined_methods {F : Type}
    (ops : float_ops F) (fingerprints : Base.fingerprints_arg)
    (c_threshold : threshold_arg) (w_factor : option string) :
  let outcome :=
    match Base.init ops fingerprints c_threshold w_factor with
    | Ok _ => Raise AttributeError
    | Raise e => Raise e
    end in
  Indices.RussellRao_init ops fingerprints c_threshold w_factor = outcome
  ∧ Indices.JaccardTanimoto_init ops fingerprints c_threshold w_factor
    = outcome
  ∧ Indices.ConsoniTodeschini4_init ops fingerprints c_threshold w_factor
    = outcome
  ∧ Forall (λ name,
       Indices.find_method (Indices.RussellRao ops) name = None
       ∧ Indices.find_method (Indices.JaccardTanimoto ops) name = None
       ∧ Indices.find_method (Indices.ConsoniTodeschini4 ops) name = None
       ∧ name ∉ Indices.base_names)
      ["rr_sim_wdis"; "rr_sim_dis"; "jt_sim_wdis"; "jt_sim_dis";
       "ct4_sim_wdis"; "ct4_sim_dis"]%string.
Proof.
  intros outcome. unfold outcome.
  unfold Indices.RussellRao_init, Indices.JaccardTanimoto_init,
    Indices.ConsoniTodeschini4_init, Indices.init_with, Indices.super_init.
  split; [|split; [|split]].
  - destruct (Base.init ops fingerprints c_threshold w_factor); reflexivity.
  - destruct (Base.init ops fingerprints c_threshold w_factor); reflexivity.
  - destruct (Base.init ops fingerprints c_threshold w_factor); reflexivity.
  - repeat (apply List.Forall_cons || apply List.Forall_nil);
      (split; [reflexivity|]); (split; [reflexivity|]);
      (split; [reflexivity|]); unfold Indices.base_names; intros Hin;
      repeat (apply elem_of_cons in Hin as [Hin | Hin]; [discriminate|]);
      by apply elem_of_nil in Hin.
Qed.












(** * The script *)

Lemma process_file_skip {F : Type} (ops : float_ops F) (n_ary : string)
    (vars : Script.variables) (name : string) (data : list (list Z)) :
  contains "rank" name = true →
  Script.process_file ops n_ary vars (name, data) = Ok vars.
Proof. intros Hr. unfold Script.process_file. by rewrite Hr. Qed.

(** A file that is read while [DiversityDict] is empty ends the script. *)
Lemma process_file_raise {F : Type} (ops : float_ops F) (n_ary : string)
    (base : option string) (name : string) (data : list (list Z)) :
  contains "rank" name = false →
  Script.process_file ops n_ary
    {| Script.DiversityDict := []; Script.base_name := base |} (name, data)
  = match ECS_MeDiv ops n_ary data with
    | Ok _ => Raise KeyError
    | Raise e => Raise e
    end.
Proof.
  intros Hr. unfold Script.process_file. rewrite Hr.
  by destruct (ECS_MeDiv ops n_ary data).
Qed.

Lemma process_skipped {F : Type} (ops : float_ops F) (n_ary : string)
    (files : list (string * list (list Z))) (vars : Script.variables) :
  Forall (λ f, contains "rank" (fst f) = true) files →
  for_each (Script.process_file ops n_ary) files vars = Ok vars.
Proof.
  induction 1 as [|[name data] files Hr _ IH]; [reflexivity|].
  simpl in Hr. cbn [for_each]. rewrite process_file_skip by done.
  exact IH.
Qed.

(** X22: the script never stores a selection.  [DiversityDict] is
    created empty and [DiversityDict['min']] is never created, so the
    assignment [DiversityDict[c_threshold][base_name] = selected_n] after
    the first completed selection raises [KeyError]; when every file is
    skipped (or there is none), [start] and [base_name] are unbound and
    building the output file name raises [NameError].  In no case is the
    dictionary written to a file. *)
Theorem script_never_stores_a_selection {F : Type} (ops : float_ops F)
    (n_ary : string) (files : list (string * list (list Z))) :
  (∀ file D, Script.run ops n_ary files ≠ Script.Dumped file D)
  ∧ (Forall (λ f, contains "rank" (fst f) = true) files →
     Script.run ops n_ary files = Script.FailedNameError)
  ∧ (∀ skipped name total_data rest selected_n,
       files = skipped ++ (name, total_data) :: rest →
       Forall (λ f, contains "rank" (fst f) = true) skipped →
       contains "rank" name = false →
       ECS_MeDiv ops n_ary total_data = Ok selected_n →
       Script.run ops n_ary files = Script.Failed KeyError).
Proof.
  split; [|split].
  - intros file D. unfold Script.run.
    destruct (for_each _ files _) as [vars|e] eqn:E; [|discriminate].
    destruct (Script.base_name vars) as [base|] eqn:Eb; [|discriminate].
    exfalso.
    assert (Hrun : ∀ fs, for_each (Script.process_file ops n_ary) fs
                           {| Script.DiversityDict := [];
                              Script.base_name := None |} = Ok vars →
                         Script.base_name vars = None).
    { induction fs as [|[name data] fs IH]; cbn [for_each].
      - by intros [= <-].
      - destruct (contains "rank" name) eqn:Hr.
        + rewrite process_file_skip by done. exact IH.
        + rewrite process_file_raise by done.
          destruct (ECS_MeDiv ops n_ary data); discriminate. }
    rewrite (Hrun files E) in Eb. discriminate.
  - intros Hall. unfold Script.run.
    by rewrite (process_skipped ops n_ary files _ Hall).
  - intros skipped name data rest selected_n -> Hall Hr Hsel.
    unfold Script.run. rewrite for_each_app.
    rewrite (process_skipped ops n_ary skipped _ Hall).
    cbn [mbind result_mbind result_bind for_each].
    rewrite process_file_raise by done. by rewrite Hsel.
Qed.

(** * The power weights of [BaseComparisons] *)

(** X23: [BaseComparisons] never applies the power weights.  The
    documented value ["power_n"] is compared as a whole string and then
    parsed with [int("n")]: for valid fingerprints and a threshold that
    validation accepts, the constructor raises [ValueError].  A name
    [power_k] with a positive integer [k], which selects the power scheme
    in [calculate_counters], is an "other value" here: the constructor
    behaves exactly as with [w_factor=None] (all weights are one).  This
    holds in every float arithmetic. *)
Theorem base_power_weights_unreachable {F : Type} (ops : float_ops F)
    (fingerprints : Base.fingerprints_arg) (c_threshold : threshold_arg) :
  (¬ Spec.invalid_fingerprints fingerprints →
   returns (Base.assign_c_threshold (Base.n_fingerprints fingerprints)
              c_threshold) →
   Base.init ops fingerprints c_threshold (Some "power_n"%string)
   = Raise ValueError)
  ∧ (∀ k : positive,
       Base.init ops fingerprints c_threshold (Some (Spec.power_name k))
       = Base.init ops fingerprints c_threshold None).
Proof.
  split.
  - intros Hv [attr Hattr]. unfold Base.init.
    destruct (assign_fingerprints_outcome fingerprints) as [[? _] | [_ ->]];
      [done|].
    cbn [mbind result_mbind result_bind]. rewrite Hattr.
    cbn [mbind result_mbind result_bind].
    destruct (set_matches_returns fingerprints Hv) as [matches ->].
    reflexivity.
  - intros k. unfold Base.init, Base.set_w_factor.
    destruct (base_weight_functions_power ops
                (Base.n_fingerprints fingerprints)) as [_ Hk].
    destruct (Base.assign_fingerprints fingerprints) as [fps|e] eqn:Hf;
      [|reflexivity].
    apply assign_fingerprints_Ok in Hf as ->.
    cbn [mbind result_mbind result_bind].
    destruct (Base.assign_c_threshold _ c_threshold) as [attr|e];
      [|reflexivity].
    cbn [mbind result_mbind result_bind].
    destruct (Base.set_matches fingerprints) as [matches|e]; [|reflexivity].
    cbn [mbind result_mbind result_bind]. by rewrite Hk.
Qed.

Lemma base_power_weights_unreachable_witness :
  Base.init Exact.Qops (Base.FInt 4) CNone (Some "power_n"%string)
  = Raise ValueError.
Proof.
  apply (proj1 (base_power_weights_unreachable Exact.Qops (Base.FInt 4)
                  CNone)).
  - simpl. lia.
  - by eexists.
Defined.

(** * The keys of the index dictionary *)

(** X24: the dictionary returned by [gen_sim_dict] has exactly the keys
    ['nw'] and ['w'], and under each of them exactly the sixteen index
    names that the script iterates over.  Reading
    [Indices[weight][n_ary]] returns a value for these keys and raises
    [KeyError] for any other weight or index name - after all counters
    and all thirty-two indices have been computed. *)
Theorem index_dictionary_keys {F : Type} (ops : float_ops F)
    (data_sets : list (list Z)) (c_threshold : threshold_arg)
    (tbl : dict (dict F)) (weight n_ary : string) :
  gen_sim_dict ops data_sets c_threshold (Some "fraction"%string) = Ok tbl →
  (weight ∈ Script.weights ∧ n_ary ∈ Script.n_arys →
   returns (sim_index ops data_sets c_threshold weight n_ary))
  ∧ (¬ (weight ∈ Script.weights ∧ n_ary ∈ Script.n_arys) →
     sim_index ops data_sets c_threshold weight n_ary = Raise KeyError).
Proof.
  intros Htbl. unfold sim_index. rewrite Htbl.
  cbn [mbind result_mbind result_bind].
  unfold gen_sim_dict in Htbl. apply bind_Ok in Htbl as (r & _ & Htbl).
  unfold index_table in Htbl.
  repeat (apply bind_Ok in Htbl as (? & ? & Htbl)).
  injection Htbl as <-. unfold Script.weights, Script.n_arys. split.
  - intros [Hw Hn].
    repeat (apply elem_of_cons in Hw as [-> | Hw]);
      try (by apply elem_of_nil in Hw);
      repeat (apply elem_of_cons in Hn as [-> | Hn]);
      try (by apply elem_of_nil in Hn);
      eexists; vm_compute; reflexivity.
  - intros Hnot. cbn [dict_get].
    assert (Hin : ∀ (x : string) l, x ∈ x :: l) by (intros; left).
    assert (Hfu : ∀ (x y : string) l, x ∈ l → x ∈ y :: l)
      by (intros; by right).
    destruct (String.eqb_spec weight "nw") as [-> | Hnw];
      [|destruct (String.eqb_spec weight "w") as [-> | Hw]; [|reflexivity]];
      cbn [mbind result_mbind result_bind dict_get];
      repeat match goal with
             | |- context [String.eqb n_ary ?s] =>
                 destruct (String.eqb_spec n_ary s) as [-> | ?]
             end;
      try reflexivity; exfalso; apply Hnot; (split; auto 20).
Qed.

Lemma index_dictionary_keys_witness :
  returns (sim_index Exact.Qops [np_append [3; 0; 2; 1; 3] 3] CNone "w" "SS2")
  ∧ sim_index Exact.Qops [np_append [3; 0; 2; 1; 3] 3] CNone "nw" "Tanimoto"
    = Raise KeyError.
Proof.
  assert (H : ∃ tbl, gen_sim_dict Exact.Qops [np_append [3; 0; 2; 1; 3] 3]
                       CNone (Some "fraction"%string) = Ok tbl)
    by (eexists; vm_compute; reflexivity).
  destruct H as [tbl Htbl]. split.
  - apply (proj1 (index_dictionary_keys Exact.Qops _ CNone tbl "w" "SS2"
                    Htbl)).
    split; [unfold Script.weights | unfold Script.n_arys];
      repeat constructor.
  - apply (proj2 (index_dictionary_keys Exact.Qops _ CNone tbl "nw"
                    "Tanimoto" Htbl)).
    intros [_ Hn]. unfold Script.n_arys in Hn.
    repeat (apply elem_of_cons in Hn as [Hn | Hn]; [discriminate|]).
    by apply elem_of_nil in Hn.
Defined.

(** * Selecting more than the collection holds *)

Lemma np_delete_exhausted (fp_total : nat) (selected_n : list nat) :
  Forall (λ j, (j < fp_total)%nat) selected_n →
  (∀ i, (i < fp_total)%nat → i ∈ selected_n) →
  np_delete fp_total selected_n = Ok [].
Proof.
  intros Hrange Hall. unfold np_delete.
  assert (forallb (λ j, Nat.ltb j fp_total) selected_n = true) as ->.
  { apply forallb_forall. intros j Hj. apply Nat.ltb_lt.
    apply (proj1 (Forall_forall _ _) Hrange). by apply list_elem_of_In. }
  f_equal.
  assert (Hseq : ∀ i, i ∈ seq 0 fp_total → i ∈ selected_n)
    by (intros i Hi; apply Hall; apply elem_of_seq in Hi; lia).
  induction (seq 0 fp_total) as [|i l IH]; [reflexivity|].
  rewrite filter_cons. destruct (decide (i ∉ selected_n)) as [Hn | _].
  - exfalso. apply Hn, Hseq. left.
  - apply IH. intros j Hj. apply Hseq. by right.
Qed.

Lemma row_Some (total_data : list (list Z)) (i : nat) (r : list Z) :
  total_data !! i = Some r → row total_data i = Ok r.
Proof. intros H. unfold row. by rewrite H. Qed.

(** X25: asking for more selections than the collection holds.  When
    every index of the collection is already selected, the next
    iteration of the loop has no candidate and the greedy step returns
    the placeholder [len(total_data[0]) + 1]: if that number is not an
    index of the collection the iteration raises [IndexError]; if it is,
    the index is appended a second time and its row is added to the
    running aggregate again.  (The script always asks for ten
    selections.) *)
Theorem selection_beyond_the_pool {F : Type} (ops : float_ops F)
    (seed : nat) (c_threshold : threshold_arg) (n_ary : string) (st : state)
    (selected_condensed row0 : list Z) :
  let total_data := st_total_data st in
  let ph := (length row0 + 1)%nat in
  Forall (λ j, (j < length total_data)%nat) (st_selected_n st) →
  (∀ i, (i < length total_data)%nat → i ∈ st_selected_n st) →
  total_data !! seed = Some selected_condensed →
  total_data !! 0%nat = Some row0 →
  iteration ops seed c_threshold n_ary st
  = match total_data !! ph with
    | Some r =>
        Ok {| st_total_data := <[seed := add_rows selected_condensed r]>
                                 total_data;
              st_selected_n := st_selected_n st ++ [ph];
              st_n := Z.of_nat (length (st_selected_n st ++ [ph])) |}
    | None => Raise IndexError
    end
  ∧ (is_Some (total_data !! ph) → ph ∈ st_selected_n st).
Proof.
  intros total_data ph. subst total_data ph.
  intros Hrange Hall Hseed Hrow0. split.
  - unfold iteration. cbv zeta.
    rewrite (np_delete_exhausted _ _ Hrange Hall).
    cbn [mbind result_mbind result_bind]. rewrite (row_Some _ _ _ Hseed).
    cbn [mbind result_mbind result_bind].
    unfold get_new_index_n, placeholder. rewrite (row_Some _ _ _ Hrow0).
    cbn [mbind result_mbind result_bind for_each fst].
    unfold row. by destruct (st_total_data st !! (length row0 + 1)%nat).
  - intros Hsome. apply Hall. by apply lookup_lt_is_Some.
Qed.

Lemma selection_beyond_the_pool_witness :
  iteration Exact.Qops 0 (CStr "min") "RR"
    {| st_total_data := [[2; 1]; [1; 0]]; st_selected_n := [0; 1]%nat;
       st_n := 2 |}
  = Raise IndexError.
Proof.
  destruct (selection_beyond_the_pool Exact.Qops 0 (CStr "min") "RR"
              {| st_total_data := [[2; 1]; [1; 0]];
                 st_selected_n := [0; 1]%nat; st_n := 2 |}
              [2; 1] [2; 1]) as [H _].
  - repeat constructor.
  - intros i Hi. simpl in Hi.
    destruct i as [|[|i]]; [left | right; left | lia].
  - reflexivity.
  - reflexivity.
  - exact H.
Defined.

(** * The threshold orders the counters *)

Lemma count_if_le {A} (f g : A → bool) (l : list A) :
  (∀ x, x ∈ l → f x = true → g x = true) →
  Columns.count_if f l ≤ Columns.count_if g l.
Proof.
  induction l as [|x l IH]; intros H; [reflexivity|].
  rewrite !count_if_cons.
  assert (Columns.count_if f l ≤ Columns.count_if g l)
    by (apply IH; intros y Hy; apply H; by right).
  pose proof (H x ltac:(left)) as Hx.
  destruct (f x); [rewrite Hx by done|destruct (g x)]; lia.
Qed.

(** X26: a stricter threshold never finds more similarity.  On the
    same aggregate, for integer thresholds [0 < c <= c' < n], the
    counters [a] and [d] obtained with [c'] are at most those obtained
    with [c], [total_dis] is at least as large, and [p] is the same, in
    every float arithmetic and for every weight scheme. *)
Theorem stricter_threshold_fewer_similar_columns {F : Type}
    (ops : float_ops F) (c_total : list Z) (n c c' : Z)
    (w_factor w_factor' : option string) (r r' : counters F) :
  0 < c ≤ c' →
  calculate_counters ops [np_append c_total n] (CInt c) w_factor = Ok r →
  calculate_counters ops [np_append c_total n] (CInt c') w_factor' = Ok r' →
  a r' ≤ a r ∧ d r' ≤ d r ∧ total_dis r ≤ total_dis r' ∧ p r' = p r.
Proof.
  intros Hc Hr Hr'.
  apply calculate_counters_stages
    in Hr as (cs & n1 & t & f_s & f_d & Hsum & Ht & _ & Hr).
  injection Hsum as Hsum. apply app_inj_tail in Hsum as [<- <-].
  apply calculate_counters_stages
    in Hr' as (cs & n1 & t' & f_s' & f_d' & Hsum & Ht' & _ & Hr').
  injection Hsum as Hsum. apply app_inj_tail in Hsum as [<- <-].
  assert (Hres : ∀ z u, 0 < z → assign_c_threshold n (CInt z) = Ok u →
                        u = NInt z).
  { intros z u Hz. unfold assign_c_threshold. simpl.
    destruct (Z.eqb_spec z 0); [lia|]. simpl.
    destruct (z >=? n); simpl; [discriminate | by intros [= <-]]. }
  apply Hres in Ht as ->; [|lia]. apply Hres in Ht' as ->; [|lia].
  unfold count in Hr, Hr'.
  apply bind_Ok in Hr as (t & Hloop & [= <-]).
  apply bind_Ok in Hr' as (t' & Hloop' & [= <-]).
  apply loop_counts in Hloop as (Ha & Hd & Hdis & _).
  apply loop_counts in Hloop' as (Ha' & Hd' & Hdis' & _).
  pose proof (count_if_partition n (inject_Z c) c_total) as Hp.
  pose proof (count_if_partition n (inject_Z c') c_total) as Hp'.
  simpl in *.
  assert (H1 : Columns.count_if (Columns.one_similar n (inject_Z c')) c_total
               ≤ Columns.count_if (Columns.one_similar n (inject_Z c))
                   c_total).
  { apply count_if_le. intros s _. unfold Columns.one_similar.
    rewrite !Qltb_inject, !Z.ltb_lt. lia. }
  assert (H2 : Columns.count_if (Columns.zero_similar n (inject_Z c')) c_total
               ≤ Columns.count_if (Columns.zero_similar n (inject_Z c))
                   c_total).
  { apply count_if_le. intros s _.
    unfold Columns.zero_similar, Columns.one_similar.
    rewrite !Qltb_inject, !andb_true_iff, !negb_true_iff, !Z.ltb_lt,
      !Z.ltb_ge. lia. }
  lia.
Qed.

Lemma stricter_threshold_fewer_similar_columns_witness :
  ∃ r r',
    calculate_counters Exact.Qops [np_append [5; 4; 1; 0; 3] 5] (CInt 1)
      (Some "fraction"%string) = Ok r
    ∧ calculate_counters Exact.Qops [np_append [5; 4; 1; 0; 3] 5] (CInt 3)
        (Some "fraction"%string) = Ok r'
    ∧ a r' ≤ a r ∧ d r' ≤ d r ∧ total_dis r ≤ total_dis r'.
Proof.
  eexists. eexists.
  assert (Hr : calculate_counters Exact.Qops [np_append [5; 4; 1; 0; 3] 5]
                 (CInt 1) (Some "fraction"%string) = Ok ?[r])
    by (vm_compute; reflexivity).
  assert (Hr' : calculate_counters Exact.Qops [np_append [5; 4; 1; 0; 3] 5]
                  (CInt 3) (Some "fraction"%string) = Ok ?[r'])
    by (vm_compute; reflexivity).
  split; [exact Hr|]. split; [exact Hr'|].
  destruct (stricter_threshold_fewer_similar_columns Exact.Qops
              [5; 4; 1; 0; 3] 5 1 3 _ _ _ _ ltac:(lia) Hr Hr')
    as (H1 & H2 & H3 & _).
  split; [exact H1|]. split; [exact H2 | exact H3].
Defined.

(** * Complementing the fingerprints *)

Section Complement.

Context {W : Type}.
Variable w_add : W → W → W.
Variables f_s f_d : Z → result W.
Variable n : Z.
Variable c : Q.
Hypothesis c_nonneg : (0 <= c)%Q.

Let swap (t : tally W) : tally W :=
  {| acc_a := acc_d t; acc_w_a := acc_w_d t;
     acc_d := acc_a t; acc_w_d := acc_w_a t;
     acc_dis := acc_dis t; acc_w_dis := acc_w_dis t |}.

Lemma positive_above_threshold (x : Z) :
  (c < inject_Z x)%Q → 0 < x.
Proof.
  intros H. assert (Hq : (inject_Z 0 < inject_Z x)%Q)
    by (eapply Qle_lt_trans; eauto).
  by apply (proj1 (Qlt_inject_Z 0 x)) in Hq.
Qed.

Lemma not_above_threshold (x : Z) : x ≤ 0 → Qltb c (inject_Z x) = false.
Proof.
  intros Hx. apply Qltb_nlt. intros H.
  apply positive_above_threshold in H. lia.
Qed.

Lemma count_column_complement (t t' : tally W) (s : Z) :
  count_column w_add f_s f_d n c t s = Ok t' →
  count_column w_add f_s f_d n c (swap t) (n - s) = Ok (swap t').
Proof.
  unfold count_column.
  replace (2 * (n - s) - n) with (n - 2 * s) by lia.
  replace (n - 2 * (n - s)) with (2 * s - n) by lia.
  destruct (Qltb c (inject_Z (2 * s - n))) eqn:H1.
  - apply Qltb_lt, positive_above_threshold in H1.
    rewrite (not_above_threshold (n - 2 * s)) by lia.
    replace (Z.abs (n - 2 * s)) with (2 * s - n) by lia.
    intros H. apply bind_Ok in H as (w & -> & [= <-]). reflexivity.
  - destruct (Qltb c (inject_Z (n - 2 * s))) eqn:H2.
    + apply Qltb_lt, positive_above_threshold in H2.
      replace (Z.abs (2 * s - n)) with (n - 2 * s) by lia.
      intros H. apply bind_Ok in H as (w & -> & [= <-]). reflexivity.
    + replace (Z.abs (n - 2 * s)) with (Z.abs (2 * s - n)) by lia.
      intros H. apply bind_Ok in H as (w & -> & [= <-]). reflexivity.
Qed.

Lemma loop_complement (cs : list Z) (t t' : tally W) :
  for_each (count_column w_add f_s f_d n c) cs t = Ok t' →
  for_each (count_column w_add f_s f_d n c) (map (λ s, n - s) cs) (swap t)
  = Ok (swap t').
Proof.
  revert t. induction cs as [|s cs IH]; intros t; cbn [map for_each].
  - by intros [= <-].
  - intros H. apply bind_Ok in H as (t1 & H1 & H2).
    rewrite (count_column_complement _ _ _ H1).
    cbn [mbind result_mbind result_bind]. by apply IH.
Qed.

End Complement.

(** X27: complementing every fingerprint exchanges the two kinds of
    similarity.  If the column sums [s] of an aggregate are replaced by
    [n - s] (every bit of every fingerprint flipped), then for a
    threshold argument that is not negative [calculate_counters] returns
    whenever it did, with [a] and [d] exchanged, [w_a] and [w_d]
    exchanged, and [total_dis], [total_w_dis] and [p] unchanged.  The
    weighted counters are identical, not only close: this holds in every
    float arithmetic. *)
Theorem complement_exchanges_similarity {F : Type} (ops : float_ops F)
    (c_total : list Z) (n : Z) (c_threshold : threshold_arg)
    (w_factor : option string) (r : counters F) :
  0 ≤ n →
  Columns.nonneg_threshold c_threshold →
  calculate_counters ops [np_append c_total n] c_threshold w_factor = Ok r →
  ∃ r',
    calculate_counters ops [np_append (map (λ s, n - s) c_total) n]
      c_threshold w_factor = Ok r'
    ∧ a r' = d r ∧ d r' = a r ∧ w_a r' = w_d r ∧ w_d r' = w_a r
    ∧ total_dis r' = total_dis r ∧ total_w_dis r' = total_w_dis r
    ∧ p r' = p r.
Proof.
  intros Hn Hnn Hr.
  apply calculate_counters_stages
    in Hr as (cs & n1 & c & f_s & f_d & Hsum & Hc & Hw & Hr).
  injection Hsum as Hsum. apply app_inj_tail in Hsum as [<- <-].
  pose proof (resolved_threshold_nonneg n c_threshold c Hn Hnn Hc) as Hc0.
  unfold count in Hr. apply bind_Ok in Hr as (t & Hloop & [= <-]).
  pose proof (loop_complement (fadd ops) f_s f_d n (num_val c) Hc0 c_total
                _ _ Hloop) as Hloop'.
  eexists. split.
  - apply calculate_counters_stages.
    exists (map (λ s, n - s) c_total), n, c, f_s, f_d.
    split; [reflexivity|]. split; [exact Hc|]. split; [exact Hw|].
    unfold count. unfold tally_zero. unfold tally_zero in Hloop'.
    simpl in Hloop'. rewrite Hloop'. reflexivity.
  - simpl. repeat split; lia.
Qed.

Lemma complement_exchanges_similarity_witness :
  ∃ r r',
    calculate_counters Exact.Qops [np_append [3; 0; 2; 1; 3] 3] CNone
      (Some "fraction"%string) = Ok r
    ∧ calculate_counters Exact.Qops
        [np_append (map (λ s, 3 - s) [3; 0; 2; 1; 3]) 3] CNone
        (Some "fraction"%string) = Ok r'
    ∧ a r' = d r ∧ d r' = a r ∧ w_a r' = w_d r ∧ w_d r' = w_a r.
Proof.
  eexists.
  assert (Hr : calculate_counters Exact.Qops [np_append [3; 0; 2; 1; 3] 3]
                 CNone (Some "fraction"%string) = Ok ?[r])
    by (vm_compute; reflexivity).
  destruct (complement_exchanges_similarity Exact.Qops [3; 0; 2; 1; 3] 3
              CNone (Some "fraction"%string) _ ltac:(lia) I Hr)
    as (r' & Hr' & H1 & H2 & H3 & H4 & _).
  exists r'. split; [exact Hr|]. split; [exact Hr'|].
  split; [exact H1|]. split; [exact H2|]. split; [exact H3 | exact H4].
Defined.

(** * The observed mode counts every position *)

Lemma np_sum_axis0_length (fps : list (list Z)) (total : list Z) (m : nat) :
  Forall (λ fp, length fp = m) fps →
  np_sum_axis0 fps = Ok total → length total = m.
Proof.
  intros Hm Hsum. destruct fps as [|r rs]; [discriminate|].
  apply np_sum_axis0_columns in Hsum as [_ ->].
  rewrite length_map, length_seq. by apply Forall_cons in Hm as [-> _].
Qed.

(** X28: in the observed mode every position of the fingerprints is
    counted exactly once.  For binary fingerprints of length [m] and a
    threshold that is not negative, the histogram [matches] sums to [m]
    and [p = m], in every float arithmetic and for every weight
    scheme. *)
Theorem observed_mode_counts_every_position {F : Type} (ops : float_ops F)
    (fps : list (list Z)) (m : nat) (c_threshold : threshold_arg)
    (w_factor : option string) (b : Base.comparisons F) :
  Columns.binary fps →
  Forall (λ fp, length fp = m) fps →
  Base.init ops (Base.FArray fps) c_threshold w_factor = Ok b →
  0 ≤ Base.c_threshold b →
  Spec.sumZ (Base.matches b) = Z.of_nat m ∧ Base.p b = Z.of_nat m.
Proof.
  intros Hb Hm Hinit Hc. unfold Base.init in Hinit.
  apply bind_Ok in Hinit as (f & Hf & Hinit).
  apply assign_fingerprints_Ok in Hf as ->.
  set (n := Base.n_fingerprints (Base.FArray fps)) in *.
  apply bind_Ok in Hinit as (attr & _ & Hinit).
  apply bind_Ok in Hinit as (matches & Hmatches & Hinit).
  apply bind_Ok in Hinit as (weights & _ & Hinit).
  apply bind_Ok in Hinit as (c & _ & [= <-]). simpl in Hc |- *.
  unfold Base.set_matches in Hmatches. fold n in Hmatches.
  apply bind_Ok in Hmatches as (c_total & Hsum & [= <-]).
  set (G := Base.count_nonzero_eq c_total).
  assert (Hin : ∀ s, s ∈ c_total → s ∈ Base.range_n1 n).
  { intros s Hs. apply elem_of_range_n1.
    by apply (proj1 (Forall_forall _ _) (column_sums_range fps c_total Hb Hsum)). }
  assert (Hall : Spec.sumZ (map G (Base.range_n1 n)) = Z.of_nat m).
  { rewrite (sumZ_ext _ (λ k, if (λ _ : Z, true) k then G k else 0))
      by reflexivity.
    unfold G. rewrite (histogram_sumZ (λ _, true) _ (NoDup_range_n1 n))
      by done.
    rewrite <- (np_sum_axis0_length fps c_total m Hm Hsum).
    clear. induction c_total as [|x l IH]; [reflexivity|].
    cbn [map]. rewrite sumZ_cons, IH. simpl length. lia. }
  split; [exact Hall|].
  rewrite !(sum_where_histogram_Z _ n G).
  unfold Base.np_sum_int, Base.set_d_vector.
  rewrite (keep_dissimilar_map c n G), filter_dissimilar_sumZ.
  rewrite <- Hall, Z.add_0_l, <- !sumZ_add. apply sumZ_ext. intros k _.
  unfold Base.one_similar, Base.zero_similar, Spec.dissimilar.
  destruct (Z.ltb_spec c (2 * k - n)), (Z.ltb_spec c (n - 2 * k)),
    (Z.leb_spec (Z.abs (2 * k - n)) c); lia.
Qed.

Lemma observed_mode_counts_every_position_witness :
  ∃ b, Base.init Exact.Qops (Base.FArray [[1; 0; 1]; [1; 1; 0]; [1; 0; 0]])
         (CStr "dissimilar") None = Ok b
       ∧ Base.p b = 3.
Proof.
  eexists.
  assert (Hb : Base.init Exact.Qops
                 (Base.FArray [[1; 0; 1]; [1; 1; 0]; [1; 0; 0]])
                 (CStr "dissimilar") None = Ok ?[b])
    by (vm_compute; reflexivity).
  split; [exact Hb|].
  assert (Hbin : Columns.binary [[1; 0; 1]; [1; 1; 0]; [1; 0; 0]])
    by (repeat first [apply List.Forall_nil | apply List.Forall_cons | lia]).
  assert (Hlen : Forall (λ fp : list Z, length fp = 3%nat)
                   [[1; 0; 1]; [1; 1; 0]; [1; 0; 0]])
    by (repeat constructor).
  destruct (observed_mode_counts_every_position Exact.Qops _ 3 _ None _
              Hbin Hlen Hb) as [_ Hp].
  - vm_compute. discriminate.
  - exact Hp.
Defined.
